(** * GoAppSettings: the layered configuration loader of [pkg/appsettings/load.go]

    A shallow embedding of the merge engine: the overlay map built from the
    base file, the environment file, the environment variables and the
    command line arguments, the value inference applied to string sources,
    and the projection of the overlay into a schema by a JSON round trip.

    Go strings are byte sequences; they are modelled by [string], whose
    characters are the 256 values of [ascii].  The functions of the Go
    standard library that [load.go] calls ([strings], [strconv],
    [path/filepath], [encoding/json], [os]) are modelled in the modules
    [GoUtf8], [GoStrings], [GoStrconv], [GoFilepath] and [GoJson]; the
    package itself is the module [appsettings]. *)

From Stdlib Require Import ZArith Strings.Ascii Strings.String DecimalString DecimalPos
  DecimalZ Floats.SpecFloat.
From stdpp Require Import gmap strings list fin_maps sorting.

Set Warnings "-register-all".
Local Open Scope Z_scope.

(** ** Errors and results *)

(** Go's [error] values, as far as [load.go] can produce them.  [Wrap] is
    [fmt.Errorf("...: %w", err)]. *)
Inductive error : Type :=
  | ErrExecutable                (* os.Executable failed *)
  | ErrRead                      (* os.ReadFile failed, not with a missing file *)
  | SyntaxError                  (* json: invalid input text *)
  | UnmarshalTypeError           (* json: value does not fit the target *)
  | UnsupportedValueError        (* json: value cannot be encoded *)
  | Wrap (context : string) (cause : error).

Inductive result (A : Type) : Type :=
  | Ok (a : A)
  | Err (e : error).
Arguments Ok {A} a.
Arguments Err {A} e.

Definition bind {A B : Type} (r : result A) (k : A -> result B) : result B :=
  match r with
  | Ok a => k a
  | Err e => Err e
  end.

Notation "'try' x <- r ; k" := (bind r (fun x => k))
  (at level 10, x name, r at level 100, k at level 200).

Definition is_ok {A : Type} (r : result A) : bool :=
  match r with Ok _ => true | Err _ => false end.

(** ** The parts of the Go library that are tables

    Three parts of the standard library are data rather than algorithms
    and are kept abstract: the Unicode lower-case mapping and simple case
    folding for runes above U+007F, and the shortest decimal rendering of
    a finite [float64] that [encoding/json] writes. *)
Class GoTables : Type := {
  (** [unicode.To(unicode.LowerCase, r)] for [r] above U+007F *)
  lower_table : Z -> Z;
  (** the least rune of the simple-folding orbit of [r], for [r] above U+007F *)
  fold_table : Z -> Z;
  (** the text [encoding/json] writes for a finite [float64] *)
  float_text : spec_float -> string
}.

(** ** Bytes *)

Definition byte_val (c : ascii) : Z := Z.of_N (N_of_ascii c).
Definition byte_of (z : Z) : ascii := ascii_of_N (Z.to_N z).

Definition between (lo : Z) (c : ascii) (hi : Z) : bool :=
  (lo <=? byte_val c) && (byte_val c <=? hi).

(** [chr n c]: the byte [c] is the character of code [n]. *)
Definition chr (n : Z) (c : ascii) : bool := byte_val c =? n.

Definition is_digit (c : ascii) : bool := between 48 c 57.
Definition is_upper (c : ascii) : bool := between 65 c 90.
Definition is_lower (c : ascii) : bool := between 97 c 122.
Definition is_ascii (c : ascii) : bool := byte_val c <? 128.

Definition digit_val (c : ascii) : Z := byte_val c - 48.

(** [c | ('x' - 'X')], the ASCII lower-casing of [strconv] *)
Definition lower_bit (c : ascii) : ascii := byte_of (Z.lor (byte_val c) 32).

Definition ascii_lower (c : ascii) : ascii :=
  if is_upper c then byte_of (byte_val c + 32) else c.
Definition ascii_upper (c : ascii) : ascii :=
  if is_lower c then byte_of (byte_val c - 32) else c.

Fixpoint string_map (f : ascii -> ascii) (s : string) : string :=
  match s with
  | EmptyString => EmptyString
  | String c r => String (f c) (string_map f r)
  end.

Fixpoint string_forallb (p : ascii -> bool) (s : string) : bool :=
  match s with
  | EmptyString => true
  | String c r => p c && string_forallb p r
  end.

(** ** unicode/utf8 *)
Module GoUtf8.

Definition RuneError : Z := 65533.
Definition MaxRune : Z := 1114111.

Definition is_cont (c : ascii) : bool := between 128 c 191.

(** The payload of a continuation byte. *)
Definition cont (c : ascii) : Z := Z.land (byte_val c) 63.

(** [utf8.DecodeRuneInString]: the first rune of [s] and the rest of
    [s].  An invalid or truncated encoding yields [RuneError] and
    consumes one byte.  [None] on the empty string. *)
Definition DecodeRune (s : string) : option (Z * string) :=
  match s with
  | EmptyString => None
  | String b0 r0 =>
    let v0 := byte_val b0 in
    let bad := Some (RuneError, r0) in
    if v0 <? 128 then Some (v0, r0)
    else if v0 <? 194 then bad
    else if v0 <? 224 then
      match r0 with
      | String b1 r1 =>
        if is_cont b1 then Some ((v0 - 192) * 64 + cont b1, r1) else bad
      | _ => bad
      end
    else if v0 <? 240 then
      match r0 with
      | String b1 (String b2 r2) =>
        let lo := if v0 =? 224 then 160 else 128 in
        let hi := if v0 =? 237 then 159 else 191 in
        if between lo b1 hi && is_cont b2
        then Some ((v0 - 224) * 4096 + cont b1 * 64 + cont b2, r2)
        else bad
      | _ => bad
      end
    else if v0 <? 245 then
      match r0 with
      | String b1 (String b2 (String b3 r3)) =>
        let lo := if v0 =? 240 then 144 else 128 in
        let hi := if v0 =? 244 then 143 else 191 in
        if between lo b1 hi && is_cont b2 && is_cont b3
        then Some ((v0 - 240) * 262144 + cont b1 * 4096 + cont b2 * 64 + cont b3, r3)
        else bad
      | _ => bad
      end
    else bad
  end.

Definition is_surrogate (r : Z) : bool := (55296 <=? r) && (r <=? 57343).

(** [utf8.AppendRune]: runes out of range and surrogates are written as
    [RuneError]. *)
Definition EncodeRune (r : Z) : string :=
  let r := if (r <? 0) || (MaxRune <? r) || is_surrogate r then RuneError else r in
  if r <? 128 then String (byte_of r) EmptyString
  else if r <? 2048 then
    String (byte_of (192 + r / 64))
      (String (byte_of (128 + r mod 64)) EmptyString)
  else if r <? 65536 then
    String (byte_of (224 + r / 4096))
      (String (byte_of (128 + (r / 64) mod 64))
        (String (byte_of (128 + r mod 64)) EmptyString))
  else
    String (byte_of (240 + r / 262144))
      (String (byte_of (128 + (r / 4096) mod 64))
        (String (byte_of (128 + (r / 64) mod 64))
          (String (byte_of (128 + r mod 64)) EmptyString))).

(** The runes of a string, as [for _, c := range s] sees them.  The
    fuel is the length of the string: every rune consumes a byte. *)
Fixpoint runes_fuel (fuel : nat) (s : string) : list Z :=
  match fuel with
  | O => []
  | S fuel' =>
    match DecodeRune s with
    | None => []
    | Some (r, rest) => r :: runes_fuel fuel' rest
    end
  end.

Definition runes (s : string) : list Z := runes_fuel (String.length s) s.

Definition encode (rs : list Z) : string :=
  fold_right (fun r acc => EncodeRune r +:+ acc) EmptyString rs.

End GoUtf8.

(** ** strings *)
Module GoStrings.

Fixpoint HasPrefix (s prefix : string) : bool :=
  match prefix, s with
  | EmptyString, _ => true
  | String p prefix', String c s' => Ascii.eqb c p && HasPrefix s' prefix'
  | String _ _, EmptyString => false
  end.

Fixpoint drop_bytes (n : nat) (s : string) : string :=
  match n, s with
  | S n', String _ s' => drop_bytes n' s'
  | _, _ => s
  end.

Definition TrimPrefix (s prefix : string) : string :=
  if HasPrefix s prefix then drop_bytes (String.length prefix) s else s.

(** [strings.Cut] for a one-byte separator: the text before and after
    the first occurrence of [sep]. *)
Fixpoint cut (sep : ascii) (s : string) : option (string * string) :=
  match s with
  | EmptyString => None
  | String c r =>
    if Ascii.eqb c sep then Some (EmptyString, r)
    else match cut sep r with
         | Some (a, b) => Some (String c a, b)
         | None => None
         end
  end.

(** [strings.SplitN(s, sep, n)] for a one-byte separator and [n >= 0]:
    at most [n] pieces, the last one being the unsplit remainder. *)
Fixpoint SplitN (s : string) (sep : ascii) (n : nat) : list string :=
  match n with
  | O => []
  | S O => [s]
  | S n' =>
    match cut sep s with
    | Some (a, b) => a :: SplitN b sep n'
    | None => [s]
    end
  end.

(** [strings.Map]: every rune of [s] is replaced by its image, and
    dropped when its image is negative; invalid bytes are read as
    [RuneError]. *)
Definition Map (mapping : Z -> Z) (s : string) : string :=
  GoUtf8.encode (List.filter (fun r => 0 <=? r) (map mapping (GoUtf8.runes s))).

Section WithTables.
Context `{GoTables}.

(** [unicode.ToLower] *)
Definition unicode_ToLower (r : Z) : Z :=
  if r <=? 127
  then (if (65 <=? r) && (r <=? 90) then r + 32 else r)
  else lower_table r.

(** [strings.ToLower]: ASCII-only strings are lower-cased bytewise,
    all others rune by rune. *)
Definition ToLower (s : string) : string :=
  if string_forallb is_ascii s
  then string_map ascii_lower s
  else Map unicode_ToLower s.
End WithTables.

End GoStrings.

(** ** strconv *)
Module GoStrconv.

(** [strconv.ParseBool] accepts exactly twelve spellings. *)
Definition ParseBool (str : string) : option bool :=
  if existsb (String.eqb str) ["1"; "t"; "T"; "true"; "TRUE"; "True"]
  then Some true
  else if existsb (String.eqb str) ["0"; "f"; "F"; "false"; "FALSE"; "False"]
  then Some false
  else None.

(** A run of decimal digits and nothing else. *)
Fixpoint digits (acc : Z) (s : string) : option Z :=
  match s with
  | EmptyString => Some acc
  | String c r =>
    if is_digit c then digits (acc * 10 + digit_val c) r else None
  end.

(** [strconv.ParseInt(s, 10, bitSize)]: an optional sign and at least
    one digit; [None] for a syntax error and for a value out of the
    range of a [bitSize]-bit signed integer. *)
Definition ParseInt (s : string) (bitSize : Z) : option Z :=
  match s with
  | EmptyString => None
  | String c r =>
    let neg := chr 45 c in
    let body := if chr 43 c || chr 45 c then r else s in
    match body with
    | EmptyString => None
    | _ =>
      match digits 0 body with
      | None => None
      | Some un =>
        let cutoff := 2 ^ (bitSize - 1) in
        if negb neg && (cutoff <=? un) then None
        else if neg && (cutoff <? un) then None
        else Some (if neg then - un else un)
      end
    end
  end.

(** The size of Go's [int] on the 64-bit platforms. *)
Definition intSize : Z := 64.

(** [strconv.Atoi]: its fast path and [ParseInt(s, 10, 0)] accept the
    same strings with the same results. *)
Definition Atoi (s : string) : option Z := ParseInt s intSize.

(** *** ParseFloat *)

Definition prec : Z := 53.
Definition emax : Z := 1024.

Definition is_inf_or_nan (f : spec_float) : bool :=
  match f with
  | S754_infinity _ | S754_nan => true
  | _ => false
  end.

Fixpoint commonPrefixLenIgnoreCase (s prefix : string) : nat :=
  match prefix, s with
  | String p prefix', String c s' =>
    if Ascii.eqb (ascii_lower c) p
    then S (commonPrefixLenIgnoreCase s' prefix')
    else O
  | _, _ => O
  end.

(** [special]: the infinities, with an optional sign, and NaN, without;
    the result and the number of bytes read. *)
Definition special (s : string) : option (spec_float * nat) :=
  let inf (neg : bool) (nsign : nat) (body : string) :=
    let n := commonPrefixLenIgnoreCase body "infinity" in
    let n := if (3 <? n)%nat && (n <? 8)%nat then 3%nat else n in
    if (n =? 3)%nat || (n =? 8)%nat
    then Some (S754_infinity neg, (nsign + n)%nat)
    else None in
  match s with
  | EmptyString => None
  | String c r =>
    if chr 43 c || chr 45 c then inf (chr 45 c) 1%nat r
    else if chr 105 c || chr 73 c then inf false 0%nat s
    else if chr 110 c || chr 78 c then
      if (commonPrefixLenIgnoreCase s "nan" =? 3)%nat
      then Some (S754_nan, 3%nat) else None
    else None
  end.

(** The state of [readFloat] while it reads the mantissa.  The
    mantissa is kept exact: where Go stops after 19 digits and records
    that it truncated, the digits are all accumulated here. *)
Record mantissa : Type := {
  mant : Z;            (* the digits read, leading zeros apart *)
  nd : Z;              (* how many *)
  dp : Z;              (* position of the point among them *)
  sawdot : bool;
  sawdigits : bool
}.

Definition is_hex_letter (c : ascii) : bool := between 97 (lower_bit c) 102.

Fixpoint read_mantissa (hex : bool) (st : mantissa) (s : string)
  : mantissa * string :=
  match s with
  | EmptyString => (st, s)
  | String c r =>
    if chr 95 c then read_mantissa hex st r
    else if chr 46 c then
      if sawdot st then (st, s)
      else read_mantissa hex
        {| mant := mant st; nd := nd st; dp := nd st; sawdot := true;
           sawdigits := sawdigits st |} r
    else if is_digit c then
      if chr 48 c && (nd st =? 0) then
        read_mantissa hex
          {| mant := mant st; nd := nd st; dp := dp st - 1; sawdot := sawdot st;
             sawdigits := true |} r
      else
        read_mantissa hex
          {| mant := mant st * (if hex then 16 else 10) + digit_val c;
             nd := nd st + 1; dp := dp st; sawdot := sawdot st;
             sawdigits := true |} r
    else if hex && is_hex_letter c then
      read_mantissa hex
        {| mant := mant st * 16 + (byte_val (lower_bit c) - 97 + 10);
           nd := nd st + 1; dp := dp st; sawdot := sawdot st;
           sawdigits := true |} r
    else (st, s)
  end.

(** The digits of the exponent; beyond 10000 further digits are
    ignored, as in Go. *)
Fixpoint read_exponent (e : Z) (s : string) : Z * string :=
  match s with
  | EmptyString => (e, s)
  | String c r =>
    if chr 95 c then read_exponent e r
    else if is_digit c
    then read_exponent (if e <? 10000 then e * 10 + digit_val c else e) r
    else (e, s)
  end.

(** [underscoreOK]: underscores only between digits, or between the
    base prefix and a digit.  It holds of every string without an
    underscore, so it is checked without recording whether one was
    read.  [saw] is the last character seen: 48 a digit, 95 an
    underscore, 94 the beginning, 33 anything else. *)
Fixpoint underscore_loop (hex : bool) (saw : Z) (s : string) : bool :=
  match s with
  | EmptyString => negb (saw =? 95)
  | String c r =>
    if is_digit c || (hex && is_hex_letter c) then underscore_loop hex 48 r
    else if chr 95 c then
      if saw =? 48 then underscore_loop hex 95 r else false
    else if saw =? 95 then false
    else underscore_loop hex 33 r
  end.

Definition underscoreOK (s : string) : bool :=
  let s :=
    match s with
    | String c r => if chr 45 c || chr 43 c then r else s
    | _ => s
    end in
  match s with
  | String c0 (String c1 r) =>
    let l := byte_val (lower_bit c1) in
    if chr 48 c0 && ((l =? 98) || (l =? 111) || (l =? 120))
    then underscore_loop (l =? 120) 48 r
    else underscore_loop false 94 s
  | _ => underscore_loop false 94 s
  end.

(** What [readFloat] returns: sign, mantissa, exponent of the base
    (10, or 2 for a hexadecimal mantissa), and the unread rest. *)
Record parsed : Type := {
  p_neg : bool;
  p_mant : Z;
  p_exp : Z;
  p_hex : bool;
  p_rest : string
}.

Definition readFloat (s : string) : option parsed :=
  match s with
  | EmptyString => None
  | String c r =>
    let neg := chr 45 c in
    let s1 := if chr 43 c || chr 45 c then r else s in
    let hex :=
      match s1 with
      | String c0 (String c1 (String _ _)) => chr 48 c0 && chr 120 (lower_bit c1)
      | _ => false
      end in
    let s2 := if hex then GoStrings.drop_bytes 2 s1 else s1 in
    let '(m, s3) :=
      read_mantissa hex
        {| mant := 0; nd := 0; dp := 0; sawdot := false; sawdigits := false |} s2 in
    if negb (sawdigits m) then None
    else
      let dp0 := if sawdot m then dp m else nd m in
      let dp1 := if hex then dp0 * 4 else dp0 in
      let nd1 := if hex then nd m * 4 else nd m in
      let finish (dp2 : Z) (rest : string) :=
        Some {| p_neg := neg; p_mant := mant m;
                p_exp := if mant m =? 0 then 0 else dp2 - nd1;
                p_hex := hex; p_rest := rest |} in
      let expChar := if hex then 112 else 101 in
      match s3 with
      | String ce r3 =>
        if chr expChar (lower_bit ce) then
          match r3 with
          | EmptyString => None
          | String cs r4 =>
            let esign := if chr 45 cs then -1 else 1 in
            let s5 := if chr 43 cs || chr 45 cs then r4 else r3 in
            match s5 with
            | String cd _ =>
              if is_digit cd then
                let '(e, rest) := read_exponent 0 s5 in
                finish (dp1 + e * esign) rest
              else None
            | EmptyString => None
            end
          end
        else if hex then None
        else finish dp1 s3
      | EmptyString => if hex then None else finish dp1 s3
      end
  end.

(** The [float64] nearest to [m * 10 ^ e], ties to even. *)
Definition decimal_to_float (neg : bool) (m e : Z) : spec_float :=
  match m with
  | Z0 => S754_zero neg
  | Zpos p =>
    if 0 <=? e
    then binary_normalize prec emax (cond_Zopp neg (m * 10 ^ e)) 0 false
    else SFdiv prec emax (S754_finite neg p 0)
                         (S754_finite false (Z.to_pos (10 ^ (- e))) 0)
  | Zneg _ => S754_nan
  end.

(** The [float64] nearest to [m * 2 ^ e], ties to even. *)
Definition binary_to_float (neg : bool) (m e : Z) : spec_float :=
  match m with
  | Z0 => S754_zero neg
  | _ => binary_normalize prec emax (cond_Zopp neg m) e false
  end.

(** [strconv.ParseFloat(s, 64)]: [None] for a syntax error and for a
    value that rounds to an infinity (Go's range error).  The strings
    "inf", "infinity" and "nan" yield the special values without error. *)
Definition ParseFloat (s : string) : option spec_float :=
  match special s with
  | Some (f, n) => if (n =? String.length s)%nat then Some f else None
  | None =>
    match readFloat s with
    | None => None
    | Some p =>
      match p_rest p with
      | EmptyString =>
        if underscoreOK s then
          let f := if p_hex p
                   then binary_to_float (p_neg p) (p_mant p) (p_exp p)
                   else decimal_to_float (p_neg p) (p_mant p) (p_exp p) in
          if is_inf_or_nan f then None else Some f
        else None
      | _ => None
      end
    end
  end.

End GoStrconv.

(** ** path/filepath, on a Unix system *)
Module GoFilepath.

(** The elements of a path between its separators. *)
Fixpoint elements (s : string) : list string :=
  match s with
  | EmptyString => [EmptyString]
  | String c r =>
    if chr 47 c then EmptyString :: elements r
    else match elements r with
         | x :: xs => String c x :: xs
         | [] => [String c EmptyString]
         end
  end.

Fixpoint join_with (sep : string) (l : list string) : string :=
  match l with
  | [] => EmptyString
  | [x] => x
  | x :: rest => x +:+ sep +:+ join_with sep rest
  end.

(** One element of the path, applied to the stack of elements kept so
    far (last one first). *)
Definition clean_step (rooted : bool) (stack : list string) (e : string)
  : list string :=
  if String.eqb e "" || String.eqb e "." then stack
  else if String.eqb e ".." then
    match stack with
    | top :: below =>
      if String.eqb top ".."
      then (if rooted then stack else e :: stack)
      else below
    | [] => if rooted then [] else [e]
    end
  else e :: stack.

(** [filepath.Clean]: the shortest equivalent path, by dropping empty
    and [.] elements and resolving [..] lexically. *)
Definition Clean (path : string) : string :=
  match path with
  | EmptyString => "."
  | String c _ =>
    let rooted := chr 47 c in
    let kept := rev (fold_left (clean_step rooted) (elements path) []) in
    let body := join_with "/" kept in
    if rooted then "/" +:+ body
    else if String.eqb body "" then "." else body
  end.

(** [filepath.Join]: leading empty elements are ignored, the others are
    joined by the separator and cleaned. *)
Fixpoint Join (elem : list string) : string :=
  match elem with
  | [] => EmptyString
  | e :: rest =>
    if String.eqb e "" then Join rest else Clean (join_with "/" elem)
  end.

(** The part of [path] up to and including its last separator. *)
Fixpoint dir_part (path : string) : string :=
  match path with
  | EmptyString => EmptyString
  | String c r =>
    let d := dir_part r in
    if String.eqb d "" then (if chr 47 c then String c EmptyString else EmptyString)
    else String c d
  end.

(** [filepath.Dir] *)
Definition Dir (path : string) : string := Clean (dir_part path).

End GoFilepath.

(** ** Go values

    What an [interface{}] of the overlay can hold: [nil], a [bool], an
    [int] (from [strconv.Atoi]), a [float64], a [string], and the
    [[]interface{}] and [map[string]interface{}] that decoding a JSON file
    produces.  A nested map is kept as an association list with distinct
    keys. *)
Inductive value : Type :=
  | VNil
  | VBool (b : bool)
  | VInt (n : Z)
  | VFloat (f : spec_float)
  | VString (s : string)
  | VArray (elems : list value)
  | VObject (members : list (string * value)).

(** [m[k] = v] on an association list. *)
Fixpoint alist_set {A : Type} (k : string) (v : A) (l : list (string * A))
  : list (string * A) :=
  match l with
  | [] => [(k, v)]
  | (k', v') :: rest =>
    if String.eqb k k' then (k, v) :: rest else (k', v') :: alist_set k v rest
  end.

Definition quote_char : ascii := byte_of 34.

(** A string between double quotes, for writing JSON text. *)
Definition quoted (s : string) : string :=
  String quote_char (s +:+ String quote_char EmptyString).

(** ** encoding/json *)
Module GoJson.

(** *** Reading JSON text *)

(** A JSON document.  A number keeps its literal text: how it is
    converted depends on the Go type it is stored into. *)
Inductive json : Type :=
  | JNull
  | JBool (b : bool)
  | JNumber (lit : string)
  | JString (s : string)
  | JArray (elems : list json)
  | JObject (members : list (string * json)).

(** The outcome of reading a prefix of a text. *)
Inductive parse (A : Type) : Type :=
  | Parsed (a : A) (rest : string)
  | Invalid
  | Exhausted.
Arguments Parsed {A} a rest.
Arguments Invalid {A}.
Arguments Exhausted {A}.

Definition is_space (c : ascii) : bool :=
  chr 32 c || chr 9 c || chr 13 c || chr 10 c.

Fixpoint skip_space (s : string) : string :=
  match s with
  | String c r => if is_space c then skip_space r else s
  | EmptyString => s
  end.

Definition hex_val (c : ascii) : option Z :=
  if is_digit c then Some (digit_val c)
  else if between 97 c 102 then Some (byte_val c - 87)
  else if between 65 c 70 then Some (byte_val c - 55)
  else None.

(** [getu4]: the code unit of a [\uXXXX] escape at the head of [s]. *)
Definition getu4 (s : string) : option (Z * string) :=
  match s with
  | String b (String u (String h1 (String h2 (String h3 (String h4 r))))) =>
    if chr 92 b && chr 117 u then
      match hex_val h1, hex_val h2, hex_val h3, hex_val h4 with
      | Some a, Some b, Some c, Some d =>
        Some (((a * 16 + b) * 16 + c) * 16 + d, r)
      | _, _, _, _ => None
      end
    else None
  | _ => None
  end.

(** The character a two-byte escape stands for. *)
Definition escape_char (e : ascii) : option ascii :=
  if chr 34 e || chr 92 e || chr 47 e then Some e
  else if chr 98 e then Some (byte_of 8)
  else if chr 102 e then Some (byte_of 12)
  else if chr 110 e then Some (byte_of 10)
  else if chr 114 e then Some (byte_of 13)
  else if chr 116 e then Some (byte_of 9)
  else None.

(** [utf16.DecodeRune] *)
Definition surrogate_pair (r1 r2 : Z) : option Z :=
  if (55296 <=? r1) && (r1 <? 56320) && (56320 <=? r2) && (r2 <? 57344)
  then Some (65536 + (r1 - 55296) * 1024 + (r2 - 56320))
  else None.

Definition push (pre : string) (p : parse string) : parse string :=
  match p with
  | Parsed s rest => Parsed (pre +:+ s) rest
  | other => other
  end.

(** A string literal after its opening quote: the string it denotes
    and the text after its closing quote.  Control characters are
    refused, escapes are resolved, and bytes that are not UTF-8 are
    replaced by U+FFFD, as the scanner and [unquote] do. *)
Fixpoint read_string (fuel : nat) (s : string) : parse string :=
  match fuel with
  | O => Exhausted
  | S fuel' =>
    match s with
    | EmptyString => Invalid
    | String c r =>
      if chr 34 c then Parsed EmptyString r
      else if chr 92 c then
        match r with
        | EmptyString => Invalid
        | String e r1 =>
          if chr 117 e then
            match getu4 s with
            | None => Invalid
            | Some (rr, r2) =>
              if GoUtf8.is_surrogate rr then
                match getu4 r2 with
                | Some (rr1, r3) =>
                  match surrogate_pair rr rr1 with
                  | Some dec => push (GoUtf8.EncodeRune dec) (read_string fuel' r3)
                  | None => push (GoUtf8.EncodeRune GoUtf8.RuneError) (read_string fuel' r2)
                  end
                | None => push (GoUtf8.EncodeRune GoUtf8.RuneError) (read_string fuel' r2)
                end
              else push (GoUtf8.EncodeRune rr) (read_string fuel' r2)
            end
          else
            match escape_char e with
            | Some ch => push (String ch EmptyString) (read_string fuel' r1)
            | None => Invalid
            end
        end
      else if byte_val c <? 32 then Invalid
      else if is_ascii c then push (String c EmptyString) (read_string fuel' r)
      else
        match GoUtf8.DecodeRune s with
        | Some (rr, rest) => push (GoUtf8.EncodeRune rr) (read_string fuel' rest)
        | None => Invalid
        end
    end
  end.

Fixpoint take_digits (s : string) : string * string :=
  match s with
  | String c r =>
    if is_digit c
    then let '(d, rest) := take_digits r in (String c d, rest)
    else (EmptyString, s)
  | EmptyString => (EmptyString, s)
  end.

(** A number literal: an optional minus sign; a zero, or a digit from 1
    to 9 and any digits; optionally a point and at least one digit;
    optionally an exponent: e or E, an optional sign, at least one digit. *)
Definition read_number (s : string) : parse string :=
  let '(sign, s1) :=
    match s with
    | String c r => if chr 45 c then (String c EmptyString, r) else (EmptyString, s)
    | EmptyString => (EmptyString, s)
    end in
  let int_part :=
    match s1 with
    | String c r =>
      if chr 48 c then Some (String c EmptyString, r)
      else if between 49 c 57 then Some (take_digits s1)
      else None
    | EmptyString => None
    end in
  match int_part with
  | None => Invalid
  | Some (int, s2) =>
    let frac_part :=
      match s2 with
      | String c r =>
        if chr 46 c then
          let '(d, rest) := take_digits r in
          if String.eqb d EmptyString then None else Some (String c d, rest)
        else Some (EmptyString, s2)
      | EmptyString => Some (EmptyString, s2)
      end in
    match frac_part with
    | None => Invalid
    | Some (frac, s3) =>
      let mantissa := sign +:+ int +:+ frac in
      match s3 with
      | String c r =>
        if chr 101 c || chr 69 c then
          let '(esign, s4) :=
            match r with
            | String cs r' =>
              if chr 43 cs || chr 45 cs
              then (String cs EmptyString, r') else (EmptyString, r)
            | EmptyString => (EmptyString, r)
            end in
          let '(d, rest) := take_digits s4 in
          if String.eqb d EmptyString then Invalid
          else Parsed (mantissa +:+ String c esign +:+ d) rest
        else Parsed mantissa s3
      | EmptyString => Parsed mantissa s3
      end
    end
  end.

(** A literal name. *)
Definition read_name (name : string) (j : json) (s : string) : parse json :=
  if GoStrings.HasPrefix s name
  then Parsed j (GoStrings.drop_bytes (String.length name) s)
  else Invalid.

Definition maxNestingDepth : Z := 10000.

(** One JSON value at the head of [s], after optional white space.
    [depth] counts the arrays and objects that are open. *)
Fixpoint read_value (fuel : nat) (depth : Z) (s : string) {struct fuel}
  : parse json :=
  match fuel with
  | O => Exhausted
  | S fuel' =>
    match skip_space s with
    | EmptyString => Invalid
    | String c r =>
      if chr 123 c then
        if maxNestingDepth <? depth + 1 then Invalid
        else match skip_space r with
             | String c' r' =>
               if chr 125 c' then Parsed (JObject []) r'
               else read_members fuel' (depth + 1) r []
             | EmptyString => Invalid
             end
      else if chr 91 c then
        if maxNestingDepth <? depth + 1 then Invalid
        else match skip_space r with
             | String c' r' =>
               if chr 93 c' then Parsed (JArray []) r'
               else read_elements fuel' (depth + 1) r []
             | EmptyString => Invalid
             end
      else if chr 34 c then
        match read_string (S (String.length r)) r with
        | Parsed str rest => Parsed (JString str) rest
        | Invalid => Invalid
        | Exhausted => Exhausted
        end
      else if chr 45 c || is_digit c then
        match read_number (String c r) with
        | Parsed lit rest => Parsed (JNumber lit) rest
        | Invalid => Invalid
        | Exhausted => Exhausted
        end
      else if chr 116 c then read_name "true" (JBool true) (String c r)
      else if chr 102 c then read_name "false" (JBool false) (String c r)
      else if chr 110 c then read_name "null" JNull (String c r)
      else Invalid
    end
  end

(** The elements of an array that is open, [acc] being those read (last
    one first); ends after the closing bracket. *)
with read_elements (fuel : nat) (depth : Z) (s : string) (acc : list json)
  {struct fuel} : parse json :=
  match fuel with
  | O => Exhausted
  | S fuel' =>
    match read_value fuel' depth s with
    | Parsed v rest =>
      match skip_space rest with
      | String c r =>
        if chr 44 c then read_elements fuel' depth r (v :: acc)
        else if chr 93 c then Parsed (JArray (rev (v :: acc))) r
        else Invalid
      | EmptyString => Invalid
      end
    | Invalid => Invalid
    | Exhausted => Exhausted
    end
  end

(** The members of an object that is open; ends after the closing brace. *)
with read_members (fuel : nat) (depth : Z) (s : string)
  (acc : list (string * json)) {struct fuel} : parse json :=
  match fuel with
  | O => Exhausted
  | S fuel' =>
    match skip_space s with
    | String q r =>
      if chr 34 q then
        match read_string (S (String.length r)) r with
        | Parsed key rest =>
          match skip_space rest with
          | String colon r1 =>
            if chr 58 colon then
              match read_value fuel' depth r1 with
              | Parsed v rest1 =>
                match skip_space rest1 with
                | String c r2 =>
                  if chr 44 c then read_members fuel' depth r2 ((key, v) :: acc)
                  else if chr 125 c then Parsed (JObject (rev ((key, v) :: acc))) r2
                  else Invalid
                | EmptyString => Invalid
                end
              | Invalid => Invalid
              | Exhausted => Exhausted
              end
            else Invalid
          | EmptyString => Invalid
          end
        | Invalid => Invalid
        | Exhausted => Exhausted
        end
      else Invalid
    | EmptyString => Invalid
    end
  end.

(** A whole text: one value, with white space around it and nothing
    else.  The fuel is enough for every text (see [read_text_total]). *)
Definition read_text (data : string) : parse json :=
  match read_value (2 * String.length data + 1) 0 data with
  | Parsed j rest =>
    match skip_space rest with
    | EmptyString => Parsed j EmptyString
    | String _ _ => Invalid
    end
  | other => other
  end.

(** *** Decoding into Go values *)

(** Decoding into an [interface{}]: numbers become [float64], and a
    number a [float64] cannot hold is an error; of the members of an
    object with the same key the last one stays. *)
Fixpoint to_any (j : json) : result value :=
  match j with
  | JNull => Ok VNil
  | JBool b => Ok (VBool b)
  | JNumber lit =>
    match GoStrconv.ParseFloat lit with
    | Some f => Ok (VFloat f)
    | None => Err UnmarshalTypeError
    end
  | JString s => Ok (VString s)
  | JArray elems =>
    try vs <- (fix each (l : list json) : result (list value) :=
                 match l with
                 | [] => Ok []
                 | x :: rest =>
                   try v <- to_any x; try vs <- each rest; Ok (v :: vs)
                 end) elems;
    Ok (VArray vs)
  | JObject members =>
    try kvs <- (fix each (l : list (string * json)) (acc : list (string * value))
                  : result (list (string * value)) :=
                  match l with
                  | [] => Ok acc
                  | (k, x) :: rest =>
                    try v <- to_any x; each rest (alist_set k v acc)
                  end) members [];
    Ok (VObject kvs)
  end.

(** [json.Unmarshal(data, &m)] for [var m map[string]interface{}]: an
    object fills a new map, [null] leaves [m] nil ([None]), and any
    other value is an error, as is a text that is not JSON. *)
Definition Unmarshal_map (data : string) : result (option (gmap string value)) :=
  match read_text data with
  | Parsed (JObject members) _ =>
    try v <- to_any (JObject members);
    match v with
    | VObject kvs => Ok (Some (list_to_map kvs))
    | _ => Err UnmarshalTypeError
    end
  | Parsed JNull _ => Ok None
  | Parsed _ _ => Err UnmarshalTypeError
  | Invalid | Exhausted => Err SyntaxError
  end.

(** *** Schemas

    The type parameter [T] of the loader, as far as it is modelled:
    [bool], [int], [float64], [string], and structs of such fields, each
    field with its [json] tag. *)
Inductive gotype : Type :=
  | TBool
  | TInt
  | TFloat64
  | TString
  | TStruct (fields : list (string * gotype)).

Inductive govalue : Type :=
  | GBool (b : bool)
  | GInt (n : Z)
  | GFloat (f : spec_float)
  | GString (s : string)
  | GStruct (fields : list (string * govalue)).

(** The zero value of a type. *)
Fixpoint zero (t : gotype) : govalue :=
  match t with
  | TBool => GBool false
  | TInt => GInt 0
  | TFloat64 => GFloat (S754_zero false)
  | TString => GString EmptyString
  | TStruct fields =>
    GStruct ((fix each (l : list (string * gotype)) :=
                match l with
                | [] => []
                | (name, t') :: rest => (name, zero t') :: each rest
                end) fields)
  end.

Fixpoint field_get {A : Type} (name : string) (l : list (string * A)) : option A :=
  match l with
  | [] => None
  | (k, v) :: rest => if String.eqb k name then Some v else field_get name rest
  end.

Definition count_name {A : Type} (name : string) (l : list (string * A)) : nat :=
  List.length (List.filter (fun kv => String.eqb (fst kv) name) l).

(** Two fields of a struct with the same tag hide each other. *)
Definition visible (fields : list (string * gotype)) : list (string * gotype) :=
  List.filter (fun kv => Nat.eqb (count_name (fst kv) fields) 1) fields.

Section WithTables.
Context `{GoTables}.

(** [foldName]: equal on two names exactly when they are equal under
    simple case folding. *)
Fixpoint foldName_fuel (fuel : nat) (s : string) : string :=
  match fuel with
  | O => EmptyString
  | S fuel' =>
    match s with
    | EmptyString => EmptyString
    | String c r =>
      if is_ascii c then String (ascii_upper c) (foldName_fuel fuel' r)
      else match GoUtf8.DecodeRune s with
           | Some (rr, rest) =>
             GoUtf8.EncodeRune (fold_table rr) +:+ foldName_fuel fuel' rest
           | None => EmptyString
           end
    end
  end.

Definition foldName (s : string) : string := foldName_fuel (String.length s) s.

(** The field a key of the document is stored into: the one with
    that very name, and failing that the first one with that name
    up to case. *)
Definition find_field (fields : list (string * gotype)) (key : string)
  : option (string * gotype) :=
  match List.find (fun kv => String.eqb (fst kv) key) (visible fields) with
  | Some f => Some f
  | None =>
    List.find (fun kv => String.eqb (foldName (fst kv)) (foldName key))
              (visible fields)
  end.

(** Decoding a document into a value [cur] of type [t].  [null]
    changes nothing; a member of an object that matches no field is
    skipped; a value of the wrong kind, and a number the field cannot
    hold, is an error. *)
Fixpoint decode (t : gotype) (cur : govalue) (j : json) {struct j}
  : result govalue :=
  match j with
  | JNull => Ok cur
  | JBool b =>
    match t with TBool => Ok (GBool b) | _ => Err UnmarshalTypeError end
  | JNumber lit =>
    match t with
    | TInt =>
      match GoStrconv.ParseInt lit 64 with
      | Some n => Ok (GInt n)
      | None => Err UnmarshalTypeError
      end
    | TFloat64 =>
      match GoStrconv.ParseFloat lit with
      | Some f => Ok (GFloat f)
      | None => Err UnmarshalTypeError
      end
    | _ => Err UnmarshalTypeError
    end
  | JString s =>
    match t with TString => Ok (GString s) | _ => Err UnmarshalTypeError end
  | JArray _ => Err UnmarshalTypeError
  | JObject members =>
    match t with
    | TStruct fields =>
      let current := match cur with GStruct l => l | _ => [] end in
      try l <- (fix each (ms : list (string * json)) (acc : list (string * govalue))
                  : result (list (string * govalue)) :=
                  match ms with
                  | [] => Ok acc
                  | (key, x) :: rest =>
                    match find_field fields key with
                    | None => each rest acc
                    | Some (name, t') =>
                      let old := match field_get name acc with
                                 | Some v => v
                                 | None => zero t'
                                 end in
                      try v <- decode t' old x;
                      each rest (alist_set name v acc)
                    end
                  end) members current;
      Ok (GStruct l)
    | _ => Err UnmarshalTypeError
    end
  end.

(** [var result T; json.Unmarshal(data, &result)] *)
Definition Unmarshal (data : string) (t : gotype) : result govalue :=
  match read_text data with
  | Parsed j _ => decode t (zero t) j
  | Invalid | Exhausted => Err SyntaxError
  end.

(** *** Writing JSON text *)

Definition hex_digit (n : Z) : ascii :=
  byte_of (if n <? 10 then 48 + n else 87 + n).

(** The escape [\uXXXX] of a code unit. *)
Definition u_escape (n : Z) : string :=
  String (byte_of 92) (String (byte_of 117)
    (String (hex_digit (n / 4096)) (String (hex_digit ((n / 256) mod 16))
      (String (hex_digit ((n / 16) mod 16)) (String (hex_digit (n mod 16))
        EmptyString))))).

Definition escape2 (c : Z) : string :=
  String (byte_of 92) (String (byte_of c) EmptyString).

(** The text of one ASCII character inside a string literal, with the
    escaping of HTML characters that [json.Marshal] applies. *)
Definition write_ascii (c : ascii) : string :=
  if chr 34 c || chr 92 c then String (byte_of 92) (String c EmptyString)
  else if chr 8 c then escape2 98
  else if chr 12 c then escape2 102
  else if chr 10 c then escape2 110
  else if chr 13 c then escape2 114
  else if chr 9 c then escape2 116
  else if (byte_val c <? 32) || chr 60 c || chr 62 c || chr 38 c
  then u_escape (byte_val c)
  else String c EmptyString.

Fixpoint write_chars (fuel : nat) (s : string) : string :=
  match fuel with
  | O => EmptyString
  | S fuel' =>
    match s with
    | EmptyString => EmptyString
    | String c r =>
      if is_ascii c then write_ascii c +:+ write_chars fuel' r
      else match GoUtf8.DecodeRune s with
           | Some (rr, rest) =>
             (if (rr =? GoUtf8.RuneError)
                 && (S (String.length rest) =? String.length s)%nat
              then u_escape GoUtf8.RuneError
              else if (rr =? 8232) || (rr =? 8233) then u_escape rr
              else GoUtf8.EncodeRune rr)
             +:+ write_chars fuel' rest
           | None => EmptyString
           end
    end
  end.

(** A Go string as a JSON string literal. *)
Definition write_string (s : string) : string :=
  quoted (write_chars (String.length s) s).

(** Sorting the members of a map by key, as the encoder does. *)
Fixpoint insert_sorted {A : Type} (kv : string * A) (l : list (string * A))
  : list (string * A) :=
  match l with
  | [] => [kv]
  | kv' :: rest =>
    if String.leb (fst kv) (fst kv') then kv :: l
    else kv' :: insert_sorted kv rest
  end.

Definition sort_members {A : Type} (l : list (string * A)) : list (string * A) :=
  fold_right insert_sorted [] l.

Definition write_member (kv : string * string) : string :=
  write_string (fst kv) +:+ ":" +:+ snd kv.

Definition write_object (texts : list (string * string)) : string :=
  "{" +:+ GoFilepath.join_with "," (map write_member (sort_members texts)) +:+ "}".

Definition write_array (texts : list string) : string :=
  "[" +:+ GoFilepath.join_with "," texts +:+ "]".

(** The JSON text of a Go value.  The only values without one are the
    [float64] infinities and NaN. *)
Fixpoint encode (v : value) : result string :=
  match v with
  | VNil => Ok "null"
  | VBool b => Ok (if b then "true" else "false")
  | VInt n => Ok (NilZero.string_of_int (Z.to_int n))
  | VFloat f =>
    if GoStrconv.is_inf_or_nan f then Err UnsupportedValueError
    else Ok (float_text f)
  | VString s => Ok (write_string s)
  | VArray elems =>
    try texts <- (fix each (l : list value) : result (list string) :=
                    match l with
                    | [] => Ok []
                    | x :: rest =>
                      try t <- encode x; try ts <- each rest; Ok (t :: ts)
                    end) elems;
    Ok (write_array texts)
  | VObject members =>
    try texts <- (fix each (l : list (string * value))
                    : result (list (string * string)) :=
                    match l with
                    | [] => Ok []
                    | (k, x) :: rest =>
                      try t <- encode x; try ts <- each rest; Ok ((k, t) :: ts)
                    end) members;
    Ok (write_object texts)
  end.

(** [json.Marshal(m)] for a [map[string]interface{}] that is not nil *)
Definition Marshal (m : gmap string value) : result string :=
  encode (VObject (map_to_list m)).
End WithTables.

End GoJson.

(** ** os: what the loader sees of the machine *)

(** The outcome of [os.ReadFile]: the bytes of the file, an error for
    which [os.IsNotExist] holds, or any other error. *)
Inductive read_result : Type :=
  | FileData (data : string)
  | NotExist
  | ReadFailed.

Record OS : Type := {
  (** [os.Executable()]: the path of the running program, if it is known *)
  Executable : option string;
  (** [os.ReadFile] *)
  ReadFile : string -> read_result
}.

(** ** package appsettings *)
Module appsettings.
Import GoStrings GoStrconv GoFilepath GoJson.

(** [AppSettings[T]]: a nil slice and a nil pointer are [None]; the
    type parameter is the field [T]. *)
Record AppSettings : Type := {
  T : gotype;
  withArgs : option (list string);
  withEnvVars : option (list string);
  withEnvironment : option string;
  withConfigDirectory : option string
}.

Definition New (T : gotype) : AppSettings :=
  {| T := T; withArgs := None; withEnvVars := None;
     withEnvironment := None; withConfigDirectory := None |}.

Definition WithArgs (args : list string) (a : AppSettings) : AppSettings :=
  {| T := T a; withArgs := Some args; withEnvVars := withEnvVars a;
     withEnvironment := withEnvironment a;
     withConfigDirectory := withConfigDirectory a |}.

Definition WithEnvVars (env : list string) (a : AppSettings) : AppSettings :=
  {| T := T a; withArgs := withArgs a; withEnvVars := Some env;
     withEnvironment := withEnvironment a;
     withConfigDirectory := withConfigDirectory a |}.

Definition WithEnvironment (environment : string) (a : AppSettings) : AppSettings :=
  {| T := T a; withArgs := withArgs a; withEnvVars := withEnvVars a;
     withEnvironment := Some environment;
     withConfigDirectory := withConfigDirectory a |}.

Definition WithConfigDirectory (configDirectory : string) (a : AppSettings)
  : AppSettings :=
  {| T := T a; withArgs := withArgs a; withEnvVars := withEnvVars a;
     withEnvironment := withEnvironment a;
     withConfigDirectory := Some configDirectory |}.

(** [fmt.Errorf(context + ": %w", err)] on the error of a result *)
Definition wrap {A : Type} (context : string) (r : result A) : result A :=
  match r with
  | Ok a => Ok a
  | Err e => Err (Wrap context e)
  end.

(** [getWD]: the directory of the running executable *)
Definition getWD (os : OS) : result string :=
  match Executable os with
  | Some ex => Ok (Dir ex)
  | None => Err ErrExecutable
  end.

(** [getConfigDirectory]: the configured directory, as it is, and
    failing that the directory of the executable *)
Definition getConfigDirectory (os : OS) (a : AppSettings) : result string :=
  match withConfigDirectory a with
  | Some dir => Ok dir
  | None => getWD os
  end.

(** [loadConfigFile]: the members of the JSON object in the file are
    stored into [configMap]; a read that reports a missing file changes
    nothing, and every other failure of the read is returned. *)
Definition loadConfigFile (os : OS) (filePath : string)
  (configMap : gmap string value) : result (gmap string value) :=
  match ReadFile os filePath with
  | NotExist => Ok configMap
  | ReadFailed => Err ErrRead
  | FileData data =>
    try fileConfig <- Unmarshal_map data;
    match fileConfig with
    | Some entries =>
      Ok (map_fold (fun key val m => <[key := val]> m) configMap entries)
    | None => Ok configMap
    end
  end.

(** [parseValue]: a [bool], else an [int], else a [float64], else the
    string itself *)
Definition parseValue (raw : string) : value :=
  match ParseBool raw with
  | Some boolVal => VBool boolVal
  | None =>
    match Atoi raw with
    | Some intVal => VInt intVal
    | None =>
      match ParseFloat raw with
      | Some floatVal => VFloat floatVal
      | None => VString raw
      end
    end
  end.

Section WithTables.
Context `{GoTables}.

(** The body of the loop of [loadEnvVars] *)
Definition envVar_step (configMap : gmap string value) (envVar : string)
  : gmap string value :=
  match SplitN envVar "=" 2 with
  | [name; raw] => <[ToLower name := parseValue raw]> configMap
  | _ => configMap
  end.

Definition loadEnvVars (a : AppSettings) (configMap : gmap string value)
  : result (gmap string value) :=
  match withEnvVars a with
  | None => Ok configMap
  | Some envVars => Ok (fold_left envVar_step envVars configMap)
  end.

(** The body of the loop of [loadArgs], at index [i] of [args] *)
Definition arg_step (args : list string) (configMap : gmap string value)
  (i : nat) : gmap string value :=
  match args !! i with
  | None => configMap
  | Some arg =>
    if HasPrefix arg "--" then
      let key := ToLower (TrimPrefix arg "--") in
      match args !! (i + 1)%nat with
      | Some next =>
        if negb (HasPrefix next "--")
        then <[key := parseValue next]> configMap
        else <[key := VBool true]> configMap
      | None => <[key := VBool true]> configMap
      end
    else configMap
  end.

Definition loadArgs (a : AppSettings) (configMap : gmap string value)
  : result (gmap string value) :=
  match withArgs a with
  | None => Ok configMap
  | Some args =>
    Ok (fold_left (arg_step args) (seq 0 (List.length args)) configMap)
  end.

(** [unmarshalToType]: JSON text of the map, decoded into [T] *)
Definition unmarshalToType (a : AppSettings) (configMap : gmap string value)
  : result govalue :=
  try jsonData <- Marshal configMap;
  Unmarshal jsonData (T a).

Definition envConfigName (environment : string) : string :=
  "config." +:+ environment +:+ ".json".

(** [Load] *)
Definition Load (os : OS) (a : AppSettings) : result govalue :=
  let configMap : gmap string value := ∅ in
  try configDir <- wrap "failed to get config directory" (getConfigDirectory os a);
  let baseConfigPath := Join [configDir; "config.json"] in
  try configMap <- wrap "failed to load base config"
                     (loadConfigFile os baseConfigPath configMap);
  try configMap <-
    match withEnvironment a with
    | Some environment =>
      let envConfigPath := Join [configDir; envConfigName environment] in
      wrap "failed to load env config" (loadConfigFile os envConfigPath configMap)
    | None => Ok configMap
    end;
  try configMap <- wrap "failed to load env vars" (loadEnvVars a configMap);
  try configMap <- wrap "failed to load args" (loadArgs a configMap);
  wrap "failed to unmarshal config" (unmarshalToType a configMap).
End WithTables.

End appsettings.

(** * Notions used in the statements *)

Import GoStrings GoStrconv GoFilepath GoJson appsettings.

(** The text [data] is a JSON object at its top level. *)
Definition is_object_text (data : string) : Prop :=
  exists members, read_text data = Parsed (JObject members) EmptyString.

(** A document that is an array, a string, a number or a boolean. *)
Definition not_a_map (j : json) : bool :=
  match j with
  | JObject _ | JNull => false
  | _ => true
  end.

(** The value a flag at index [i] of [args] gets: the inferred next
    token, unless there is none or it is a flag itself. *)
Definition flag_value (args : list string) (i : nat) : value :=
  match args !! (i + 1)%nat with
  | Some next => if HasPrefix next "--" then VBool true else parseValue next
  | None => VBool true
  end.

(** The byte [=] does not occur in [s]. *)
Definition no_separator (s : string) : bool :=
  string_forallb (fun c => negb (Ascii.eqb c "=")) s.

(** The value is a boolean, an integer, a float or a string. *)
Definition is_scalar (v : value) : bool :=
  match v with
  | VBool _ | VInt _ | VFloat _ | VString _ => true
  | VNil | VArray _ | VObject _ => false
  end.

(** The token [raw] is not inferred as a NaN or an infinity. *)
Definition finite_inferred (raw : string) : bool :=
  match parseValue raw with
  | VFloat f => negb (is_inf_or_nan f)
  | _ => true
  end.

(** The spellings, in lower case, of the tokens that [strconv] reads as
    a NaN or an infinity. *)
Definition special_tokens : list string :=
  ["nan"; "inf"; "+inf"; "-inf"; "infinity"; "+infinity"; "-infinity"].

(** The value tokens of the environment variables: what follows the
    first [=] of an entry. *)
Definition env_value (envVars : list string) (raw : string) : Prop :=
  exists name, no_separator name = true /\ name +:+ "=" +:+ raw ∈ envVars.

(** The value tokens of the arguments: a token that follows a flag and
    is not a flag itself. *)
Definition arg_value (args : list string) (raw : string) : Prop :=
  exists i X,
    args !! i = Some ("--" +:+ X) /\ args !! (i + 1)%nat = Some raw
    /\ HasPrefix raw "--" = false.

(** A number literal begins with a digit, or with a minus sign and a
    digit. *)
Definition begins_number (lit : string) : bool :=
  match lit with
  | String c r =>
    is_digit c
    || (chr 45 c && match r with String d _ => is_digit d | EmptyString => false end)
  | EmptyString => false
  end.

(** Every number literal of the document begins so. *)
Fixpoint numbers_begin (j : json) : bool :=
  match j with
  | JNumber lit => begins_number lit
  | JArray elems => forallb numbers_begin elems
  | JObject members => forallb (fun kv => numbers_begin (snd kv)) members
  | _ => true
  end.

(** The key of the specification, for an ASCII name: the letters A to Z
    are replaced by a to z, and every other byte stays as it is. *)
Definition lowercase (s : string) : string :=
  string_map (fun c => if between 65 c 90 then byte_of (byte_val c + 32) else c) s.

(** The value inference of the specification: the boolean parse, then
    the parse of a signed integer in base 10, then the parse of a float
    of 64 bits, and otherwise the token itself. *)
Definition inferred (raw : string) : value :=
  match ParseBool raw with
  | Some b => VBool b
  | None =>
    match Atoi raw with
    | Some n => VInt n
    | None =>
      match ParseFloat raw with
      | Some f => VFloat f
      | None => VString raw
      end
    end
  end.

(** The [float64] values 8080 and 8090. *)
Definition float_8080 : spec_float := S754_finite false 8884053952430080 (-40).
Definition float_8090 : spec_float := S754_finite false 8895049068707840 (-40).

(** ** Examples of inputs

    The examples are written in ASCII and encode no float, so they never
    consult the tables; they are stated for the tables under which no
    rune above U+007F has a case. *)

Definition plain_tables : GoTables :=
  {| lower_table := fun r => r;
     fold_table := fun r => r;
     float_text := fun _ => "0" |}.

(** The schema of the tests of the package, [TestConfig]. *)
Definition TestConfig : list (string * gotype) :=
  [("databaseURL", TString); ("port", TInt); ("debugMode", TBool);
   ("timeout", TFloat64); ("name", TString)].

(** A machine with a base file and a file for the environment [dev]. *)
Definition layered_os : OS :=
  {| Executable := None;
     ReadFile := fun path =>
       if String.eqb path "/etc/app/config.json"
       then FileData ("{" +:+ quoted "port" +:+ ": 8080}")
       else if String.eqb path "/etc/app/config.dev.json"
       then FileData ("{" +:+ quoted "port" +:+ ": 8090}")
       else NotExist |}.

(** A machine without any file. *)
Definition empty_os : OS :=
  {| Executable := None; ReadFile := fun _ => NotExist |}.

(** A machine on which every file has the given content. *)
Definition os_with (data : string) : OS :=
  {| Executable := None; ReadFile := fun _ => FileData data |}.

(** A machine without config files, on which [/etc/hostname] is a
    regular file: a read below it fails, and not with a missing file
    (the error is that the path is not a directory). *)
Definition file_as_directory_os : OS :=
  {| Executable := None;
     ReadFile := fun path =>
       if String.eqb path "/etc/hostname" then FileData "host"
       else if HasPrefix path "/etc/hostname/" then ReadFailed
       else NotExist |}.

(** The [float64] nearest to [n / d]. *)
Definition ratio (n : Z) (d : positive) : spec_float :=
  SFdiv prec emax (binary_normalize prec emax n 0 false) (S754_finite false d 0).

(** A JSON object of the given members, each a key and the text of its
    value. *)
Definition object_text (members : list (string * string)) : string :=
  "{" +:+ join_with "," (map (fun kv => quoted (fst kv) +:+ ":" +:+ snd kv) members)
      +:+ "}".

(** A machine with the given files and no others. *)
Definition os_of (files : list (string * string)) : OS :=
  {| Executable := None;
     ReadFile := fun path =>
       match field_get path files with
       | Some data => FileData data
       | None => NotExist
       end |}.

Section OverlayOfLoad.
Context `{GoTables}.

(** The overlay that [Load] hands to the projector. *)
Definition overlay (os : OS) (a : AppSettings) : result (gmap string value) :=
  try configDir <- wrap "failed to get config directory" (getConfigDirectory os a);
  try configMap <- wrap "failed to load base config"
                     (loadConfigFile os (Join [configDir; "config.json"]) ∅);
  try configMap <-
    match withEnvironment a with
    | Some environment =>
      wrap "failed to load env config"
        (loadConfigFile os (Join [configDir; envConfigName environment]) configMap)
    | None => Ok configMap
    end;
  try configMap <- wrap "failed to load env vars" (loadEnvVars a configMap);
  wrap "failed to load args" (loadArgs a configMap).
End OverlayOfLoad.

(** ** Notions used in the further properties *)

(** The errors [Load] can return. *)
Definition load_errors : list error :=
  [Wrap "failed to get config directory" ErrExecutable;
   Wrap "failed to load base config" ErrRead;
   Wrap "failed to load base config" SyntaxError;
   Wrap "failed to load base config" UnmarshalTypeError;
   Wrap "failed to load env config" ErrRead;
   Wrap "failed to load env config" SyntaxError;
   Wrap "failed to load env config" UnmarshalTypeError;
   Wrap "failed to unmarshal config" UnsupportedValueError;
   Wrap "failed to unmarshal config" SyntaxError;
   Wrap "failed to unmarshal config" UnmarshalTypeError].

(** The decimal text of an integer, as [encoding/json] and [strconv.Itoa]
    write it. *)
Definition int_text (n : Z) : string := NilZero.string_of_int (Z.to_int n).

(** The [float64] nearest to an integer. *)
Definition float_of_int (n : Z) : spec_float := binary_normalize prec emax n 0 false.

(** The first byte of a token that [strconv] may read as a number. *)
Definition starts_number (c : ascii) : bool :=
  is_digit c || chr 43 c || chr 45 c || chr 46 c || chr 95 c
  || chr 105 c || chr 73 c || chr 110 c || chr 78 c.

(** The spellings of [true] that [strconv.ParseBool] accepts. *)
Definition true_spellings : list string := ["1"; "t"; "T"; "true"; "TRUE"; "True"].

(** The spellings of [false]. *)
Definition false_spellings : list string := ["0"; "f"; "F"; "false"; "FALSE"; "False"].

(** The byte after a value inside an object: a comma or a closing brace. *)
Definition closes_value (c : ascii) : bool := chr 44 c || chr 125 c.

(** The parts of [read_number].  The integer part: a zero, or a digit
    from 1 to 9 and any digits. *)
Definition number_int (s1 : string) : option (string * string) :=
  match s1 with
  | String c r =>
    if chr 48 c then Some (String c EmptyString, r)
    else if between 49 c 57 then Some (take_digits s1)
    else None
  | EmptyString => None
  end.

(** The fraction: a point and at least one digit, or nothing. *)
Definition number_frac (s2 : string) : option (string * string) :=
  match s2 with
  | String c r =>
    if chr 46 c then
      let '(d, rest) := take_digits r in
      if String.eqb d EmptyString then None else Some (String c d, rest)
    else Some (EmptyString, s2)
  | EmptyString => Some (EmptyString, s2)
  end.

(** The exponent, after the [mantissa] read so far. *)
Definition number_exp (mantissa s3 : string) : parse string :=
  match s3 with
  | String c r =>
    if chr 101 c || chr 69 c then
      let '(esign, s4) :=
        match r with
        | String cs r' =>
          if chr 43 cs || chr 45 cs
          then (String cs EmptyString, r') else (EmptyString, r)
        | EmptyString => (EmptyString, r)
        end in
      let '(d, rest) := take_digits s4 in
      if String.eqb d EmptyString then Invalid
      else Parsed (mantissa +:+ String c esign +:+ d) rest
    else Parsed mantissa s3
  | EmptyString => Parsed mantissa s3
  end.

(** A number literal after its sign. *)
Definition number_body (sign s1 : string) : parse string :=
  match number_int s1 with
  | None => Invalid
  | Some (int, s2) =>
    match number_frac s2 with
    | None => Invalid
    | Some (frac, s3) => number_exp (sign +:+ int +:+ frac) s3
    end
  end.

(** The text is a number literal of JSON, and nothing else. *)
Definition number_literal (lit : string) : bool :=
  match read_number lit with
  | Parsed _ EmptyString => true
  | _ => false
  end.

(** The order of the members in the text of a map: by their keys, byte
    by byte. *)
Definition key_le {A : Type} (x y : string * A) : Prop :=
  String.leb (fst x) (fst y) = true.

(** The value is of another kind than the field: a boolean for a field
    that is not [bool], a number for a [bool], a [string] or a struct, a
    string for a field that is not [string]. *)
Definition mismatched (v : value) (t : gotype) : bool :=
  match v, t with
  | VBool _, (TInt | TFloat64 | TString | TStruct _) => true
  | (VInt _ | VFloat _), (TBool | TString | TStruct _) => true
  | VString _, (TBool | TInt | TFloat64 | TStruct _) => true
  | _, _ => false
  end.

(** The members of an object stored one after the other into a map. *)
Fixpoint to_any_members (l : list (string * json)) (acc : gmap string value)
  : result (gmap string value) :=
  match l with
  | [] => Ok acc
  | (k, x) :: rest => try v <- to_any x; to_any_members rest (<[k := v]> acc)
  end.

(** The byte [/] does not occur in [s]. *)
Definition no_slash (s : string) : bool :=
  string_forallb (fun c => negb (chr 47 c)) s.

(** A value that a JSON file holds as it is: [nil], a boolean, or a
    string of ASCII bytes. *)
Definition text_value (v : value) : bool :=
  match v with
  | VNil | VBool _ => true
  | VString s => string_forallb is_ascii s
  | VInt _ | VFloat _ | VArray _ | VObject _ => false
  end.

Section ProjectionNotions.
Context `{GoTables}.

(** A value of the overlay that is not nested and is written in ASCII:
    [nil], a boolean, an integer, a string of ASCII bytes, or a finite
    float whose text is a number literal. *)
Definition plain_value (v : value) : bool :=
  match v with
  | VNil | VBool _ | VInt _ => true
  | VString s => string_forallb is_ascii s
  | VFloat f => negb (is_inf_or_nan f) && number_literal (float_text f)
  | VArray _ | VObject _ => false
  end.

(** The document that the text of a plain value is read as. *)
Definition json_of (v : value) : json :=
  match v with
  | VBool b => JBool b
  | VInt n => JNumber (int_text n)
  | VFloat f => JNumber (float_text f)
  | VString s => JString s
  | VNil | VArray _ | VObject _ => JNull
  end.

(** A member of the overlay with a key in ASCII and a plain value. *)
Definition plain_member (kv : string * value) : bool :=
  string_forallb is_ascii (fst kv) && plain_value (snd kv).

(** The member of the document that a member of the overlay is read as. *)
Definition json_member (kv : string * value) : string * json :=
  (fst kv, json_of (snd kv)).

(** The text of a value that can be encoded. *)
Definition text_of (v : value) : string :=
  match encode v with
  | Ok text => text
  | Err _ => EmptyString
  end.

(** A member of the overlay with the text of its value. *)
Definition text_member (kv : string * value) : string * string :=
  (fst kv, text_of (snd kv)).

(** The loop of [decode] over the members of an object. *)
Fixpoint decode_fields (fields : list (string * gotype))
  (ms : list (string * json)) (acc : list (string * govalue))
  : result (list (string * govalue)) :=
  match ms with
  | [] => Ok acc
  | (key, x) :: rest =>
    match find_field fields key with
    | None => decode_fields fields rest acc
    | Some (name, t') =>
      let old := match field_get name acc with
                 | Some v => v
                 | None => zero t'
                 end in
      try v <- decode t' old x;
      decode_fields fields rest (alist_set name v acc)
    end
  end.

(** The fields of the zero value of a struct. *)
Definition zero_fields (fields : list (string * gotype)) : list (string * govalue) :=
  map (fun nt => (fst nt, zero (snd nt))) fields.

(** Every key of the overlay is written in ASCII and every value is plain. *)
Definition plain_overlay (m : gmap string value) : Prop :=
  map_Forall (fun k v => plain_member (k, v) = true) m.

(** The members of the overlay in the order of their keys, as documents. *)
Definition overlay_members (m : gmap string value) : list (string * json) :=
  map json_member (sort_members (map_to_list m)).

(** The key [k] is stored into the field [tag]. *)
Definition targets (fields : list (string * gotype)) (k tag : string) : bool :=
  match find_field fields k with
  | Some (name, _) => String.eqb name tag
  | None => false
  end.

(** The value of the key can be stored into the field the key matches,
    if there is one. *)
Definition fits (fields : list (string * gotype)) (kv : string * value) : bool :=
  match find_field fields (fst kv) with
  | Some (_, t) => is_ok (decode t (zero t) (json_of (snd kv)))
  | None => true
  end.
End ProjectionNotions.

(** ** Loaders as objects

    [New] returns a pointer to a new [AppSettings], and each setter
    assigns one field of its receiver and returns the receiver.  The
    objects are kept in a store, by their addresses. *)
Module Pointers.

(** [New[T]()]: a new object at an address that is not in use *)
Definition New (T : gotype) (s : gmap positive AppSettings)
  : positive * gmap positive AppSettings :=
  let p := fresh (dom s) in (p, <[p := appsettings.New T]> s).

(** [a.field = value; return a] *)
Definition assign (f : AppSettings -> AppSettings) (a : positive)
  (s : gmap positive AppSettings) : positive * gmap positive AppSettings :=
  (a, alter f a s).

Definition WithArgs (args : list string) := assign (appsettings.WithArgs args).
Definition WithEnvVars (env : list string) := assign (appsettings.WithEnvVars env).
Definition WithEnvironment (environment : string) :=
  assign (appsettings.WithEnvironment environment).
Definition WithConfigDirectory (configDirectory : string) :=
  assign (appsettings.WithConfigDirectory configDirectory).

(** [a.Load()], for an address in use *)
Definition Load `{GoTables} (os : OS) (a : positive) (s : gmap positive AppSettings)
  : option (result govalue) :=
  appsettings.Load os <$> s !! a.

End Pointers.

(** ** More examples of inputs *)

(** A machine on which the executable is known, with the files of
    [layered_os] and one more. *)
Definition crowded_os : OS :=
  {| Executable := Some "/usr/local/bin/app";
     ReadFile := fun path =>
       if String.eqb path "/etc/app/notes.json" then FileData "[]"
       else ReadFile layered_os path |}.

(** A loader with a directory and one environment variable. *)
Definition port_loader : AppSettings :=
  WithEnvVars ["PORT=3000"] (WithConfigDirectory "/etc/app" (New (TStruct TestConfig))).

(** A machine whose base file spells the key of the name with a capital. *)
Definition capital_os : OS :=
  os_of [("/etc/app/config.json", object_text [("Name", quoted "base")])].

(** A machine whose two files give the name under two spellings. *)
Definition two_spellings_os : OS :=
  os_of [("/etc/app/config.json", object_text [("name", quoted "base")]);
         ("/etc/app/config.dev.json", object_text [("Name", quoted "dev")])].

(** * Properties *)

(** ** Strings *)

Lemma append_cons c (s t : string) : String c s +:+ t = String c (s +:+ t).
Proof. reflexivity. Qed.

Lemma append_nil (t : string) : EmptyString +:+ t = t.
Proof. reflexivity. Qed.

Lemma flag_token X : "--" +:+ X = String "-" (String "-" X).
Proof. reflexivity. Qed.

Lemma HasPrefix_nil s : HasPrefix s EmptyString = true.
Proof. by destruct s. Qed.

Lemma HasPrefix_split s prefix :
  HasPrefix s prefix = true -> s = prefix +:+ TrimPrefix s prefix.
Proof.
  intros Hp. unfold TrimPrefix. rewrite Hp. revert s Hp.
  induction prefix as [|p prefix' IH]; intros s Hp; [done|].
  destruct s as [|c s']; [done|]. simpl in *.
  apply andb_true_iff in Hp as [Hc Hp].
  apply Ascii.eqb_eq in Hc as ->. rewrite append_cons. f_equal. by apply IH.
Qed.

Lemma append_assoc (a b c : string) : (a +:+ b) +:+ c = a +:+ (b +:+ c).
Proof. induction a as [|x a IH]; [done|]. by rewrite !append_cons, IH. Qed.

(** ** The readers consume their input: fuel is never exhausted *)

Lemma DecodeRune_shorter s r rest :
  GoUtf8.DecodeRune s = Some (r, rest) ->
  (String.length rest < String.length s)%nat.
Proof.
  unfold GoUtf8.DecodeRune. intros Hd.
  repeat (case_match; simplify_eq/=); lia.
Qed.

Lemma getu4_shorter s n rest :
  getu4 s = Some (n, rest) -> (String.length rest < String.length s)%nat.
Proof.
  unfold getu4. intros Hg.
  repeat (case_match; simplify_eq/=); lia.
Qed.

Lemma skip_space_length s :
  (String.length (skip_space s) <= String.length s)%nat.
Proof.
  induction s as [|c r IH]; simpl; [lia|].
  destruct (is_space c); simpl; lia.
Qed.

Lemma push_parsed pre p str rest :
  push pre p = Parsed str rest -> exists str', p = Parsed str' rest.
Proof. destruct p; simpl; intros; simplify_eq; eauto. Qed.

Lemma push_exhausted pre p : push pre p = Exhausted -> p = Exhausted.
Proof. by destruct p. Qed.

#[local] Arguments push : simpl never.

Lemma read_string_shorter fuel : forall s str rest,
  read_string fuel s = Parsed str rest ->
  (String.length rest < String.length s)%nat.
Proof.
  induction fuel as [|fuel IH]; intros s str rest; simpl; [done|].
  intros Hr.
  repeat (case_match; simplify_eq/=); try lia;
    try (apply push_parsed in Hr as [? Hr]; apply IH in Hr);
    repeat match goal with
           | Hg : getu4 _ = Some _ |- _ => apply getu4_shorter in Hg
           | Hd : GoUtf8.DecodeRune _ = Some _ |- _ => apply DecodeRune_shorter in Hd
           end; simpl in *; lia.
Qed.

Lemma read_string_total fuel : forall s,
  (String.length s < fuel)%nat -> read_string fuel s <> Exhausted.
Proof.
  induction fuel as [|fuel IH]; intros s Hlen; [lia|]. simpl.
  repeat (case_match; simplify_eq/=); try done;
    intros Hr%push_exhausted; revert Hr; apply IH;
    repeat match goal with
           | Hg : getu4 _ = Some _ |- _ => apply getu4_shorter in Hg
           | Hd : GoUtf8.DecodeRune _ = Some _ |- _ => apply DecodeRune_shorter in Hd
           end; simpl in *; lia.
Qed.

Lemma take_digits_length s d rest :
  take_digits s = (d, rest) ->
  (String.length d + String.length rest = String.length s)%nat.
Proof.
  revert d rest. induction s as [|c r IH]; intros d rest; simpl.
  - by intros [= <- <-].
  - destruct (is_digit c); [|by intros [= <- <-]].
    destruct (take_digits r) as [d' rest'] eqn:E. intros [= <- <-].
    specialize (IH _ _ eq_refl). simpl. lia.
Qed.

Lemma take_digits_nonempty s d rest :
  take_digits s = (d, rest) -> String.eqb d EmptyString = false ->
  (String.length rest < String.length s)%nat.
Proof.
  intros E%take_digits_length Hd. destruct d; [done|]. simpl in E. lia.
Qed.

Lemma nonzero_digit c : between 49 c 57 = true -> is_digit c = true.
Proof.
  unfold is_digit, between. rewrite !andb_true_iff, !Z.leb_le. lia.
Qed.

Lemma read_number_shorter s lit rest :
  read_number s = Parsed lit rest ->
  (String.length rest < String.length s)%nat.
Proof.
  unfold read_number. intros Hr.
  repeat (case_match; simplify_eq/=);
    repeat match goal with
           | Ht : take_digits _ = _ |- _ =>
             first [ eapply take_digits_nonempty in Ht; [|eassumption]
                   | apply take_digits_length in Ht ]
           | Hb : between 49 ?c 57 = true, Hd : is_digit ?c = false |- _ =>
             rewrite (nonzero_digit c Hb) in Hd; discriminate Hd
           end; simpl in *; lia.
Qed.

Lemma read_name_shorter name j s j' rest :
  name <> EmptyString ->
  read_name name j s = Parsed j' rest ->
  (String.length rest < String.length s)%nat.
Proof.
  unfold read_name. intros Hname.
  destruct (HasPrefix s name) eqn:Hp; [|done]. intros [= _ <-].
  clear j j'. revert s Hp.
  induction name as [|p name' IH]; [done|]. intros [|c s'] Hp; [done|].
  simpl in *. apply andb_true_iff in Hp as [_ Hp].
  destruct name' as [|p' name'']; simpl; [lia|].
  specialize (IH ltac:(done) s' Hp). simpl in IH. lia.
Qed.

#[local] Arguments read_string : simpl never.
#[local] Arguments read_number : simpl never.
#[local] Arguments read_name : simpl never.
#[local] Arguments skip_space : simpl never.

Ltac shorter_facts :=
  repeat match goal with
         | Hs : skip_space ?s = _ |- _ =>
           let Hl := fresh "Hl" in
           pose proof (skip_space_length s) as Hl; rewrite Hs in Hl; clear Hs
         | Hs : read_string _ _ = Parsed _ _ |- _ => apply read_string_shorter in Hs
         | Hs : read_number _ = Parsed _ _ |- _ => apply read_number_shorter in Hs
         | Hs : read_name _ _ _ = Parsed _ _ |- _ =>
           apply read_name_shorter in Hs; [|done]
         end.

Lemma read_value_shorter fuel :
  (forall depth s j rest,
      read_value fuel depth s = Parsed j rest ->
      (String.length rest < String.length s)%nat)
  /\ (forall depth s acc j rest,
         read_elements fuel depth s acc = Parsed j rest ->
         (String.length rest < String.length s)%nat)
  /\ (forall depth s acc j rest,
         read_members fuel depth s acc = Parsed j rest ->
         (String.length rest < String.length s)%nat).
Proof.
  induction fuel as [|fuel (IHv & IHe & IHm)]; [by repeat split|].
  repeat split.
  - intros depth s j rest Hr. simpl in Hr.
    repeat (case_match; simplify_eq);
      repeat match goal with
             | Hx : read_elements fuel _ _ _ = Parsed _ _ |- _ => apply IHe in Hx
             | Hx : read_members fuel _ _ _ = Parsed _ _ |- _ => apply IHm in Hx
             end;
      shorter_facts; cbn [String.length] in *; lia.
  - intros depth s acc j rest Hr. simpl in Hr.
    repeat (case_match; simplify_eq);
      repeat match goal with
             | Hx : read_elements fuel _ _ _ = Parsed _ _ |- _ => apply IHe in Hx
             | Hx : read_value fuel _ _ = Parsed _ _ |- _ => apply IHv in Hx
             end;
      shorter_facts; cbn [String.length] in *; lia.
  - intros depth s acc j rest Hr. simpl in Hr.
    repeat (case_match; simplify_eq);
      repeat match goal with
             | Hx : read_members fuel _ _ _ = Parsed _ _ |- _ => apply IHm in Hx
             | Hx : read_value fuel _ _ = Parsed _ _ |- _ => apply IHv in Hx
             end;
      shorter_facts; cbn [String.length] in *; lia.
Qed.

Lemma read_value_total fuel :
  (forall depth s,
      (2 * String.length s + 1 <= fuel)%nat ->
      read_value fuel depth s <> Exhausted)
  /\ (forall depth s acc,
         (2 * String.length s + 2 <= fuel)%nat ->
         read_elements fuel depth s acc <> Exhausted)
  /\ (forall depth s acc,
         (2 * String.length s + 2 <= fuel)%nat ->
         read_members fuel depth s acc <> Exhausted).
Proof.
  induction fuel as [|fuel (IHv & IHe & IHm)]; [repeat split; intros; lia|].
  repeat split.
  - intros depth s Hfuel. simpl.
    repeat (case_match; simplify_eq); try done;
      try (first [apply IHe | apply IHm]);
      try match goal with
          | Hx : read_string (S (String.length ?r)) ?r = Exhausted |- _ =>
            by destruct (read_string_total (S (String.length r)) r ltac:(lia))
          | Hx : read_number _ = Exhausted |- _ =>
            unfold read_number in Hx; repeat (case_match; simplify_eq)
          end;
      shorter_facts; cbn [String.length] in *; try lia.
    all: unfold read_name; by case_match.
  - intros depth s acc Hfuel. simpl.
    repeat (case_match; simplify_eq); try done;
      try match goal with
          | Hx : read_value fuel ?d ?s = Exhausted |- _ =>
            by destruct (IHv d s ltac:(lia))
          end.
    apply IHe.
    repeat match goal with
           | Hx : read_value fuel _ _ = Parsed _ _ |- _ =>
             apply (proj1 (read_value_shorter fuel)) in Hx
           end;
      shorter_facts; cbn [String.length] in *; lia.
  - intros depth s acc Hfuel. simpl.
    repeat (case_match; simplify_eq); try done;
      try match goal with
          | Hx : read_string (S (String.length ?r)) ?r = Exhausted |- _ =>
            by destruct (read_string_total (S (String.length r)) r ltac:(lia))
          end.
    + apply IHm.
      repeat match goal with
             | Hx : read_value fuel _ _ = Parsed _ _ |- _ =>
               apply (proj1 (read_value_shorter fuel)) in Hx
             end;
        shorter_facts; cbn [String.length] in *; lia.
    + match goal with
      | Hx : read_value fuel ?d ?s = Exhausted |- _ =>
        destruct (IHv d s); [|done]
      end.
      shorter_facts; cbn [String.length] in *; lia.
Qed.

(** The fuel of [read_text] is enough for every text. *)
Lemma read_text_total data : read_text data <> Exhausted.
Proof.
  unfold read_text.
  destruct (read_value _ _ _) as [j rest| |] eqn:E; [by case_match|done|].
  by destruct (proj1 (read_value_total (2 * String.length data + 1)) 0 data).
Qed.

Lemma runes_fuel_enough f1 : forall f2 s,
  (String.length s <= f1)%nat -> (String.length s <= f2)%nat ->
  GoUtf8.runes_fuel f1 s = GoUtf8.runes_fuel f2 s.
Proof.
  induction f1 as [|f1 IH]; intros [|f2] s H1 H2; simpl; try done.
  - destruct s; [done|simpl in *; lia].
  - destruct s; [done|simpl in *; lia].
  - destruct (GoUtf8.DecodeRune s) as [[r rest]|] eqn:E; [|done].
    apply DecodeRune_shorter in E. f_equal. apply IH; lia.
Qed.

Section FuelWithTables.
Context `{GoTables}.

Lemma foldName_fuel_enough f1 : forall f2 s,
  (String.length s <= f1)%nat -> (String.length s <= f2)%nat ->
  foldName_fuel f1 s = foldName_fuel f2 s.
Proof.
  induction f1 as [|f1 IH]; intros [|f2] s H1 H2; simpl; try done.
  - destruct s; [done|simpl in *; lia].
  - destruct s; [done|simpl in *; lia].
  - destruct s as [|c r]; [done|]. destruct (is_ascii c).
    + f_equal. apply IH; simpl in *; lia.
    + destruct (GoUtf8.DecodeRune _) as [[rr rest]|] eqn:E; [|done].
      apply DecodeRune_shorter in E. f_equal. apply IH; simpl in *; lia.
Qed.

Lemma write_chars_enough f1 : forall f2 s,
  (String.length s <= f1)%nat -> (String.length s <= f2)%nat ->
  write_chars f1 s = write_chars f2 s.
Proof.
  induction f1 as [|f1 IH]; intros [|f2] s H1 H2; simpl; try done.
  - destruct s; [done|simpl in *; lia].
  - destruct s; [done|simpl in *; lia].
  - destruct s as [|c r]; [done|]. destruct (is_ascii c).
    + f_equal. apply IH; simpl in *; lia.
    + destruct (GoUtf8.DecodeRune _) as [[rr rest]|] eqn:E; [|done].
      apply DecodeRune_shorter in E. f_equal. apply IH; simpl in *; lia.
Qed.
End FuelWithTables.

(** ** Lower-casing rune by rune *)

Lemma ascii_not_between lo c hi :
  is_ascii c = true -> 128 <= lo -> between lo c hi = false.
Proof.
  unfold is_ascii, between. intros Hc%Z.ltb_lt Hlo.
  apply andb_false_iff. left. apply Z.leb_gt. lia.
Qed.

Lemma ascii_not_cont c : is_ascii c = true -> GoUtf8.is_cont c = false.
Proof. intros Hc. by apply ascii_not_between. Qed.

(** An ASCII byte ends the rune before it: what is read at the head of
    [a] does not depend on what follows that byte. *)
Lemma DecodeRune_app a c b r rest :
  is_ascii c = true ->
  GoUtf8.DecodeRune a = Some (r, rest) ->
  GoUtf8.DecodeRune (a +:+ String c b) = Some (r, rest +:+ String c b).
Proof.
  intros Hc.
  pose proof (ascii_not_cont c Hc) as Hcont.
  assert (forall lo hi, 128 <= lo -> between lo c hi = false) as Hbt
      by (intros; by apply ascii_not_between).
  destruct a as [|b0 [|b1 [|b2 [|b3 r3]]]]; [done|..];
    unfold GoUtf8.DecodeRune; rewrite ?append_cons, ?append_nil;
    intros Hd;
    repeat (case_match; simplify_eq/=);
    rewrite ?append_cons, ?append_nil in *; simplify_eq/=;
    rewrite ?Hcont, ?andb_false_r in *; try done;
    try (rewrite Hbt in * by (repeat case_match; lia); done).
Qed.

Lemma DecodeRune_some c s :
  exists r rest, GoUtf8.DecodeRune (String c s) = Some (r, rest).
Proof. unfold GoUtf8.DecodeRune. repeat case_match; eauto. Qed.

Lemma DecodeRune_ascii c r :
  is_ascii c = true -> GoUtf8.DecodeRune (String c r) = Some (byte_val c, r).
Proof. unfold is_ascii. intros Hc. simpl. by rewrite Hc. Qed.

Lemma runes_fuel_app fuel : forall a c b,
  is_ascii c = true ->
  (String.length a <= fuel)%nat ->
  GoUtf8.runes_fuel (fuel + S (String.length b)) (a +:+ String c b)
  = GoUtf8.runes_fuel fuel a ++ byte_val c :: GoUtf8.runes b.
Proof.
  induction fuel as [|fuel IH]; intros a c b Hc Hlen.
  - destruct a; [|simpl in Hlen; lia]. rewrite append_nil.
    change (0 + S (String.length b))%nat with (S (String.length b)).
    cbn [GoUtf8.runes_fuel]. by rewrite DecodeRune_ascii.
  - destruct a as [|b0 r0].
    + rewrite append_nil.
      change (S fuel + S (String.length b))%nat
        with (S (fuel + S (String.length b))).
      cbn [GoUtf8.runes_fuel]. rewrite DecodeRune_ascii by done.
      simpl. f_equal. apply runes_fuel_enough; lia.
    + change (S fuel + S (String.length b))%nat
        with (S (fuel + S (String.length b))).
      cbn [GoUtf8.runes_fuel].
      destruct (DecodeRune_some b0 r0) as (r & rest & E). rewrite E.
      rewrite (DecodeRune_app _ c b _ _ Hc E).
      apply DecodeRune_shorter in E. simpl in E, Hlen.
      rewrite IH by (done || lia). done.
Qed.

Lemma runes_app a c b :
  is_ascii c = true ->
  GoUtf8.runes (a +:+ String c b)
  = GoUtf8.runes a ++ byte_val c :: GoUtf8.runes b.
Proof.
  intros Hc. unfold GoUtf8.runes at 1 2.
  rewrite <- (runes_fuel_app (String.length a)) by done.
  apply runes_fuel_enough.
  - done.
  - clear. induction a as [|x a IH]; [rewrite append_nil; simpl; lia|].
    rewrite append_cons. simpl in *. lia.
Qed.

Lemma encode_app l1 l2 :
  GoUtf8.encode (l1 ++ l2) = GoUtf8.encode l1 +:+ GoUtf8.encode l2.
Proof.
  induction l1 as [|r l1 IH]; [done|].
  simpl. by rewrite IH, append_assoc.
Qed.

Lemma runes_ascii s :
  string_forallb is_ascii s = true -> GoUtf8.runes s = map byte_val (list_ascii_of_string s).
Proof.
  unfold GoUtf8.runes. induction s as [|c r IH]; [done|].
  simpl string_forallb. intros [Hc Hr]%andb_true_iff.
  cbn [String.length GoUtf8.runes_fuel]. rewrite DecodeRune_ascii by done.
  simpl. by rewrite IH.
Qed.

Section LowerCasing.
Context `{GoTables}.

Lemma lower_ascii_rune c :
  is_ascii c = true ->
  GoUtf8.encode (List.filter (fun r => 0 <=? r) [unicode_ToLower (byte_val c)])
  = String (ascii_lower c) EmptyString.
Proof. by destruct c as [[] [] [] [] [] [] [] []]. Qed.

Lemma Map_ascii s :
  string_forallb is_ascii s = true ->
  Map unicode_ToLower s = string_map ascii_lower s.
Proof.
  intros Hs. unfold Map. rewrite runes_ascii by done.
  induction s as [|c r IH]; [done|].
  simpl in Hs. apply andb_true_iff in Hs as [Hc Hr].
  cbn [list_ascii_of_string map string_map].
  change (?x :: ?l) with ([x] ++ l) at 1.
  rewrite List.filter_app, encode_app, lower_ascii_rune by done.
  rewrite append_cons, append_nil. f_equal. by apply IH.
Qed.

(** The two paths of [strings.ToLower] agree. *)
Lemma ToLower_Map s : ToLower s = Map unicode_ToLower s.
Proof.
  unfold ToLower. destruct (string_forallb is_ascii s) eqn:E; [|done].
  by rewrite Map_ascii.
Qed.

(** Lower-casing works on each side of an ASCII byte apart. *)
Lemma ToLower_app a c b :
  is_ascii c = true ->
  ToLower (a +:+ String c b) = ToLower a +:+ String (ascii_lower c) (ToLower b).
Proof.
  intros Hc. rewrite !ToLower_Map. unfold Map.
  rewrite runes_app by done.
  change (byte_val c :: ?l) with ([byte_val c] ++ l).
  rewrite !map_app, !List.filter_app, !encode_app. cbn [map].
  by rewrite lower_ascii_rune.
Qed.
End LowerCasing.

(** ** Value inference *)

(** C2: [parseValue] tries a boolean, then a signed decimal integer,
    then a 64-bit float, and otherwise returns its input; "true" is
    [true], "False" is [false], "0" is the boolean [false], "123" is the
    integer 123, "-45.6" is the float nearest to -45.6, and "hello", the
    empty string and "123abc" are themselves. *)
Theorem parseValue_inference :
  (forall s,
      parseValue s =
      match ParseBool s, Atoi s, ParseFloat s with
      | Some b, _, _ => VBool b
      | None, Some n, _ => VInt n
      | None, None, Some f => VFloat f
      | None, None, None => VString s
      end)
  /\ parseValue "true" = VBool true
  /\ parseValue "False" = VBool false
  /\ parseValue "0" = VBool false
  /\ parseValue "123" = VInt 123
  /\ parseValue "-45.6" = VFloat (S754_finite true 6417629469002957 (-47))
  /\ SFdiv prec emax (S754_finite true 456 0) (S754_finite false 10 0)
     = S754_finite true 6417629469002957 (-47)
  /\ 2 * Z.abs (10 * 6417629469002957 - 456 * 2 ^ 47) <= 10
  /\ parseValue "hello" = VString "hello"
  /\ parseValue "" = VString ""
  /\ parseValue "123abc" = VString "123abc".
Proof.
  split.
  - intros s. unfold parseValue.
    destruct (ParseBool s), (Atoi s), (ParseFloat s); reflexivity.
  - repeat split; try (vm_compute; reflexivity).
    vm_compute. discriminate.
Qed.

(** ** The file loader *)

Lemma read_text_rest data j rest :
  read_text data = Parsed j rest -> rest = EmptyString.
Proof.
  unfold read_text.
  destruct (read_value _ _ _) as [j' r| |]; [|done..].
  destruct (skip_space r); [|done]. by intros [= _ <-].
Qed.

Lemma Unmarshal_map_not_json data :
  (forall j, read_text data <> Parsed j EmptyString) ->
  Unmarshal_map data = Err SyntaxError.
Proof.
  intros Hno. unfold Unmarshal_map.
  destruct (read_text data) as [j rest| |] eqn:E; [|done..].
  pose proof (read_text_rest _ _ _ E) as ->. by destruct (Hno j).
Qed.

Lemma Unmarshal_map_not_a_map data j :
  read_text data = Parsed j EmptyString -> not_a_map j = true ->
  Unmarshal_map data = Err UnmarshalTypeError.
Proof.
  intros E Hj. unfold Unmarshal_map. rewrite E. by destruct j.
Qed.

Lemma Unmarshal_map_null data :
  read_text data = Parsed JNull EmptyString -> Unmarshal_map data = Ok None.
Proof. intros E. unfold Unmarshal_map. by rewrite E. Qed.

(** C10: a config file whose whole content is the literal [null] is
    accepted by [loadConfigFile] and leaves the overlay as it was: the
    text decodes into a nil map, while an array, a string and a number at
    the top level are refused. *)
Theorem loadConfigFile_null :
  (forall os filePath (m : gmap string value),
      ReadFile os filePath = FileData "null" ->
      loadConfigFile os filePath m = Ok m)
  /\ Unmarshal_map "null" = Ok None
  /\ Unmarshal_map "[]" = Err UnmarshalTypeError
  /\ Unmarshal_map (quoted "text") = Err UnmarshalTypeError
  /\ Unmarshal_map "8080" = Err UnmarshalTypeError.
Proof.
  split; [|repeat split; vm_compute; reflexivity].
  intros os filePath m Hfile. unfold loadConfigFile. rewrite Hfile.
  by rewrite (Unmarshal_map_null "null").
Qed.

Section FileLoader.
Context `{GoTables}.

Lemma Load_base_error os a dir e :
  getConfigDirectory os a = Ok dir ->
  loadConfigFile os (Join [dir; "config.json"]) ∅ = Err e ->
  Load os a = Err (Wrap "failed to load base config" e).
Proof.
  intros Hdir Hbase. unfold Load.
  rewrite Hdir. cbn [wrap bind]. by rewrite Hbase.
Qed.

Lemma Load_env_error os a dir environment m e :
  getConfigDirectory os a = Ok dir ->
  loadConfigFile os (Join [dir; "config.json"]) ∅ = Ok m ->
  withEnvironment a = Some environment ->
  loadConfigFile os (Join [dir; envConfigName environment]) m = Err e ->
  Load os a = Err (Wrap "failed to load env config" e).
Proof.
  intros Hdir Hbase Henv Hfile. unfold Load.
  rewrite Hdir. cbn [wrap bind]. rewrite Hbase. cbn [wrap bind].
  rewrite Henv. by rewrite Hfile.
Qed.

(** C5, as amended: [loadConfigFile] returns the overlay unchanged
    when the read fails with an error for which [os.IsNotExist] holds;
    it returns the error of the read when the read fails in any other
    way, whether a file exists at the path or not; it returns an error
    when the bytes of the file are not JSON text, and when they are a
    JSON array, string, number or boolean (the literal [null] is
    accepted); and such an error in the base file or in the environment
    file makes [Load] return that error, wrapped, and no result. *)
Theorem loadConfigFile_outcomes os filePath (m : gmap string value) :
  (ReadFile os filePath = NotExist -> loadConfigFile os filePath m = Ok m)
  /\ (ReadFile os filePath = ReadFailed ->
      loadConfigFile os filePath m = Err ErrRead)
  /\ (forall data,
         ReadFile os filePath = FileData data ->
         (forall j, read_text data <> Parsed j EmptyString) ->
         loadConfigFile os filePath m = Err SyntaxError)
  /\ (forall data j,
         ReadFile os filePath = FileData data ->
         read_text data = Parsed j EmptyString -> not_a_map j = true ->
         loadConfigFile os filePath m = Err UnmarshalTypeError)
  /\ (forall a dir e,
         getConfigDirectory os a = Ok dir ->
         loadConfigFile os (Join [dir; "config.json"]) ∅ = Err e ->
         Load os a = Err (Wrap "failed to load base config" e))
  /\ (forall a dir environment m1 e,
         getConfigDirectory os a = Ok dir ->
         loadConfigFile os (Join [dir; "config.json"]) ∅ = Ok m1 ->
         withEnvironment a = Some environment ->
         loadConfigFile os (Join [dir; envConfigName environment]) m1 = Err e ->
         Load os a = Err (Wrap "failed to load env config" e)).
Proof.
  repeat split.
  - intros Hfile. unfold loadConfigFile. by rewrite Hfile.
  - intros Hfile. unfold loadConfigFile. by rewrite Hfile.
  - intros data Hfile Hno. unfold loadConfigFile. rewrite Hfile.
    by rewrite Unmarshal_map_not_json.
  - intros data j Hfile Hj Hkind. unfold loadConfigFile. rewrite Hfile.
    by rewrite (Unmarshal_map_not_a_map data j).
  - apply Load_base_error.
  - apply Load_env_error.
Qed.
End FileLoader.

(** ** The overlay only grows *)

Section Overlay.
Context `{GoTables}.

(** The loop of [loadConfigFile] is a union in which the file wins. *)
Lemma merge_entries (entries configMap : gmap string value) :
  map_fold (fun key val m => <[key := val]> m) configMap entries
  = entries ∪ configMap.
Proof.
  apply (map_fold_weak_ind
           (fun r (m : gmap string value) => r = m ∪ configMap)).
  - by rewrite (left_id_L ∅ (∪)).
  - intros i x m r _ ->. by rewrite insert_union_l.
Qed.

Lemma loadConfigFile_dom os filePath (m m' : gmap string value) :
  loadConfigFile os filePath m = Ok m' -> dom m ⊆ dom m'.
Proof.
  unfold loadConfigFile.
  destruct (ReadFile os filePath) as [data| |]; [|by intros [= ->]|done].
  destruct (Unmarshal_map data) as [[entries|]|]; simpl; [| |done].
  - intros [= <-]. rewrite merge_entries, dom_union_L. set_solver.
  - by intros [= ->].
Qed.

Lemma envVar_step_dom (m : gmap string value) envVar :
  dom m ⊆ dom (envVar_step m envVar).
Proof.
  unfold envVar_step.
  destruct (SplitN envVar "=" 2) as [|name [|raw [|? ?]]]; try done.
  rewrite dom_insert_L. set_solver.
Qed.

Lemma fold_envVars_dom envVars (m : gmap string value) :
  dom m ⊆ dom (fold_left envVar_step envVars m).
Proof.
  revert m. induction envVars as [|e rest IH]; intros m; simpl; [done|].
  etrans; [apply (envVar_step_dom m e)|apply IH].
Qed.

Lemma arg_step_dom args (m : gmap string value) i :
  dom m ⊆ dom (arg_step args m i).
Proof.
  unfold arg_step.
  destruct (args !! i) as [arg|]; [|done].
  destruct (HasPrefix arg "--"); [|done].
  destruct (args !! (i + 1)%nat) as [next|];
    [destruct (negb (HasPrefix next "--"))|];
    rewrite dom_insert_L; set_solver.
Qed.

Lemma fold_args_dom args idx (m : gmap string value) :
  dom m ⊆ dom (fold_left (arg_step args) idx m).
Proof.
  revert m. induction idx as [|i rest IH]; intros m; simpl; [done|].
  etrans; [apply (arg_step_dom args m i)|apply IH].
Qed.

(** C8: no stage of the pipeline removes a key.  Whenever the file
    load, the environment-variable overlay or the argument overlay
    returns an overlay, its keys include the keys of the overlay the
    stage was given. *)
Theorem stages_keep_keys :
  (forall os filePath (m m' : gmap string value),
      loadConfigFile os filePath m = Ok m' -> dom m ⊆ dom m')
  /\ (forall a (m : gmap string value),
         exists m', loadEnvVars a m = Ok m' /\ dom m ⊆ dom m')
  /\ (forall a (m : gmap string value),
         exists m', loadArgs a m = Ok m' /\ dom m ⊆ dom m').
Proof.
  split; [|split].
  - apply loadConfigFile_dom.
  - intros a m. unfold loadEnvVars.
    destruct (withEnvVars a) as [envVars|]; eexists; split; try done.
    apply fold_envVars_dom.
  - intros a m. unfold loadArgs.
    destruct (withArgs a) as [args|]; eexists; split; try done.
    apply fold_args_dom.
Qed.
End Overlay.

(** ** The argument and environment-variable overlays *)

Lemma cut_at_separator name raw :
  no_separator name = true ->
  cut "=" (name +:+ String "=" raw) = Some (name, raw).
Proof.
  induction name as [|c name' IH]; [done|]. rewrite append_cons. simpl.
  intros [Hc Hn]%andb_true_iff. apply negb_true_iff in Hc. rewrite Hc.
  by rewrite IH.
Qed.

Lemma cut_no_separator s : no_separator s = true -> cut "=" s = None.
Proof.
  induction s as [|c r IH]; simpl; [done|].
  intros [Hc Hn]%andb_true_iff. apply negb_true_iff in Hc. rewrite Hc.
  by rewrite IH.
Qed.

(** The inference of [parseValue] is the one the specification words. *)
Lemma parseValue_inferred raw : parseValue raw = inferred raw.
Proof. reflexivity. Qed.

Section SourceOverlays.
Context `{GoTables}.

(** On an ASCII name [strings.ToLower] is the lower-casing of the
    specification. *)
Lemma ToLower_lowercase X :
  string_forallb is_ascii X = true -> ToLower X = lowercase X.
Proof. intros HX. unfold ToLower. by rewrite HX. Qed.

Lemma arg_step_flag args (m : gmap string value) i X :
  args !! i = Some ("--" +:+ X) ->
  arg_step args m i = <[ToLower X := flag_value args i]> m.
Proof.
  intros Hi. unfold arg_step, flag_value, TrimPrefix.
  rewrite Hi, flag_token. simpl. rewrite HasPrefix_nil.
  destruct (args !! (i + 1)%nat) as [next|]; [|done].
  by destruct (HasPrefix next "--").
Qed.

Lemma arg_step_inert args (m : gmap string value) i arg :
  args !! i = Some arg -> HasPrefix arg "--" = false ->
  arg_step args m i = m.
Proof. intros Hi Hp. unfold arg_step. by rewrite Hi, Hp. Qed.

Lemma arg_step_other args (m : gmap string value) j k :
  (forall X, args !! j = Some ("--" +:+ X) -> ToLower X <> k) ->
  arg_step args m j !! k = m !! k.
Proof.
  intros Hk. destruct (args !! j) as [arg|] eqn:Hj;
    [|by unfold arg_step; rewrite Hj].
  destruct (HasPrefix arg "--") eqn:Hp;
    [|by rewrite (arg_step_inert args m j arg)].
  apply HasPrefix_split in Hp.
  remember (TrimPrefix arg "--") as X eqn:HX. clear HX. subst arg.
  rewrite (arg_step_flag args m j _ Hj).
  apply lookup_insert_ne. by apply Hk.
Qed.

Lemma fold_args_other args idx (m : gmap string value) k :
  (forall j X, j ∈ idx -> args !! j = Some ("--" +:+ X) -> ToLower X <> k) ->
  fold_left (arg_step args) idx m !! k = m !! k.
Proof.
  revert m. induction idx as [|j rest IH]; intros m Hk; simpl; [done|].
  rewrite IH by (intros j' X Hj'; apply Hk; by right).
  apply arg_step_other. intros X. apply Hk. by left.
Qed.

(** C6: in every argument list, a token [--X] followed by a token that
    is not a flag stores [lowercase(X)] with the inferred value of that
    token, and a token [--X] followed by a flag or by nothing stores
    [lowercase(X)] with [true]; a token that is not a flag stores
    nothing.  The overlay that [loadArgs] returns maps [lowercase(X)]
    to that value unless a later flag names the same key, and leaves
    every key that no flag names as it was.  The key is [ToLower X],
    which for an ASCII name is [X] with the letters A to Z replaced by
    a to z, and the value is [parseValue Y], which is the boolean, else
    the integer, else the float that [Y] spells, else [Y] itself; so
    for an ASCII name the stored entry is the one of the specification,
    as on the list [--PORT 3000 stray --Debug --Rate 1.5 --Verbose]. *)
Theorem loadArgs_flags (args : list string) (a : AppSettings)
  (m : gmap string value) :
  (forall i X Y m0,
      args !! i = Some ("--" +:+ X) -> args !! (i + 1)%nat = Some Y ->
      HasPrefix Y "--" = false ->
      arg_step args m0 i = <[ToLower X := parseValue Y]> m0)
  /\ (forall i X Y m0,
         args !! i = Some ("--" +:+ X) -> args !! (i + 1)%nat = Some Y ->
         HasPrefix Y "--" = true ->
         arg_step args m0 i = <[ToLower X := VBool true]> m0)
  /\ (forall i X m0,
         args !! i = Some ("--" +:+ X) -> args !! (i + 1)%nat = None ->
         arg_step args m0 i = <[ToLower X := VBool true]> m0)
  /\ (forall i arg m0,
         args !! i = Some arg -> HasPrefix arg "--" = false ->
         arg_step args m0 i = m0)
  /\ (exists m',
         loadArgs (WithArgs args a) m = Ok m'
         /\ (forall i X,
                args !! i = Some ("--" +:+ X) ->
                (forall j X', (i < j)%nat -> args !! j = Some ("--" +:+ X') ->
                              ToLower X' <> ToLower X) ->
                m' !! ToLower X = Some (flag_value args i))
         /\ (forall k,
                (forall i X, args !! i = Some ("--" +:+ X) -> ToLower X <> k) ->
                m' !! k = m !! k))
  /\ (forall X, string_forallb is_ascii X = true -> ToLower X = lowercase X)
  /\ (forall Y, parseValue Y = inferred Y)
  /\ (forall i X Y m0,
         string_forallb is_ascii X = true ->
         args !! i = Some ("--" +:+ X) -> args !! (i + 1)%nat = Some Y ->
         HasPrefix Y "--" = false ->
         arg_step args m0 i = <[lowercase X := inferred Y]> m0)
  /\ (forall i X m0,
         string_forallb is_ascii X = true ->
         args !! i = Some ("--" +:+ X) ->
         (forall Y, args !! (i + 1)%nat = Some Y -> HasPrefix Y "--" = true) ->
         arg_step args m0 i = <[lowercase X := VBool true]> m0)
  /\ loadArgs
       (WithArgs ["--PORT"; "3000"; "stray"; "--Debug"; "--Rate"; "1.5"; "--Verbose"]
          a) ∅
     = Ok {[ "port" := VInt 3000; "debug" := VBool true;
             "rate" := VFloat (ratio 15 10); "verbose" := VBool true ]}.
Proof.
  split; [|split; [|split; [|split; [|split; [|split; [|split; [|split; [|split]]]]]]]];
    [| | | | |apply ToLower_lowercase|apply parseValue_inferred| | |].
  6: { intros i X Y m0 HX Hi Hn HY. rewrite (arg_step_flag _ _ _ _ Hi).
       unfold flag_value. by rewrite Hn, HY, ToLower_lowercase. }
  6: { intros i X m0 HX Hi Hn. rewrite (arg_step_flag _ _ _ _ Hi).
       unfold flag_value. rewrite ToLower_lowercase by done.
       destruct (args !! (i + 1)%nat) as [Y|]; [|done].
       by rewrite (Hn Y eq_refl). }
  6: { vm_compute. reflexivity. }
  - intros i X Y m0 Hi Hn HY. rewrite (arg_step_flag _ _ _ _ Hi).
    unfold flag_value. by rewrite Hn, HY.
  - intros i X Y m0 Hi Hn HY. rewrite (arg_step_flag _ _ _ _ Hi).
    unfold flag_value. by rewrite Hn, HY.
  - intros i X m0 Hi Hn. rewrite (arg_step_flag _ _ _ _ Hi).
    unfold flag_value. by rewrite Hn.
  - intros i arg m0. apply arg_step_inert.
  - unfold loadArgs. simpl. eexists. split; [done|]. split.
    + intros i X Hi Hlater.
      assert (i < List.length args)%nat as Hlen by (by eapply lookup_lt_Some).
      replace (List.length args) with (i + S (List.length args - S i))%nat by lia.
      rewrite seq_app, fold_left_app. simpl.
      rewrite fold_args_other.
      * rewrite (arg_step_flag _ _ _ _ Hi). apply lookup_insert_eq.
      * intros j X' Hj%list_elem_of_In%in_seq. apply Hlater. lia.
    + intros k Hk. apply fold_args_other. intros j X _. apply Hk.
Qed.

Lemma envVar_step_entry (m : gmap string value) name raw :
  no_separator name = true ->
  envVar_step m (name +:+ String "=" raw)
  = <[ToLower name := parseValue raw]> m.
Proof.
  intros Hn. unfold envVar_step. simpl. by rewrite cut_at_separator.
Qed.

Lemma envVar_step_skip (m : gmap string value) envVar :
  no_separator envVar = true -> envVar_step m envVar = m.
Proof.
  intros Hn. unfold envVar_step. simpl. by rewrite cut_no_separator.
Qed.

Lemma envVar_step_other (m : gmap string value) envVar k :
  (forall name raw, no_separator name = true ->
                    envVar = name +:+ String "=" raw -> ToLower name <> k) ->
  envVar_step m envVar !! k = m !! k.
Proof.
  intros Hk. unfold envVar_step. simpl.
  destruct (cut "=" envVar) as [[name raw]|] eqn:E; [|done].
  apply lookup_insert_ne.
  assert (no_separator name = true /\ envVar = name +:+ String "=" raw)
    as [Hn ->]; [|by eapply Hk].
  clear Hk. revert name E. induction envVar as [|c r IH]; intros name; [done|].
  simpl. destruct (Ascii.eqb c "=") eqn:Hc.
  - intros [= <- <-]. apply Ascii.eqb_eq in Hc as ->. done.
  - destruct (cut "=" r) as [[a b]|]; [|done]. intros [= <- <-].
    destruct (IH a eq_refl) as [Ha ->]. split; [|done].
    unfold no_separator in *. simpl. by rewrite Hc, Ha.
Qed.

Lemma fold_envVars_other envVars (m : gmap string value) k :
  (forall e name raw, e ∈ envVars -> no_separator name = true ->
                      e = name +:+ String "=" raw -> ToLower name <> k) ->
  fold_left envVar_step envVars m !! k = m !! k.
Proof.
  revert m. induction envVars as [|e rest IH]; intros m Hk; simpl; [done|].
  rewrite IH by (intros e' name raw He'; apply Hk; by right).
  apply envVar_step_other. intros name raw. apply Hk. by left.
Qed.

(** C7: in every list of environment variables, an entry [NAME=VALUE]
    stores the key [lowercase(NAME)] with the inferred [VALUE], an
    entry without [=] stores nothing, and [loadEnvVars] never returns
    an error.  The overlay it returns maps [lowercase(NAME)] to that
    value unless a later entry names the same key, and leaves every
    key that no entry names as it was.  The lower-casing of an ASCII
    name changes its upper-case letters only, and in every name the
    underscores and hyphens stay where they are.  The key is
    [ToLower NAME], which for an ASCII name is [NAME] with the letters
    A to Z replaced by a to z, and the value is [parseValue VALUE],
    which is the boolean, else the integer, else the float that [VALUE]
    spells, else [VALUE] itself; so for an ASCII name the stored entry
    is the one of the specification, as on the entries [PORT=3000],
    [DEBUG=true], [TIMEOUT=30.5], [DATABASE_URL=postgres], [MAX-CONN=],
    of which [INVALID_VAR] stores nothing. *)
Theorem loadEnvVars_entries (envVars : list string) (a : AppSettings)
  (m : gmap string value) :
  (forall name raw m0,
      no_separator name = true ->
      envVar_step m0 (name +:+ "=" +:+ raw)
      = <[ToLower name := parseValue raw]> m0)
  /\ (forall envVar m0, no_separator envVar = true -> envVar_step m0 envVar = m0)
  /\ (forall a' m0, exists m', loadEnvVars a' m0 = Ok m')
  /\ (exists m',
         loadEnvVars (WithEnvVars envVars a) m = Ok m'
         /\ (forall i name raw,
                envVars !! i = Some (name +:+ "=" +:+ raw) ->
                no_separator name = true ->
                (forall j name' raw',
                    (i < j)%nat ->
                    envVars !! j = Some (name' +:+ "=" +:+ raw') ->
                    no_separator name' = true ->
                    ToLower name' <> ToLower name) ->
                m' !! ToLower name = Some (parseValue raw))
         /\ (forall k,
                (forall i name raw,
                    envVars !! i = Some (name +:+ "=" +:+ raw) ->
                    no_separator name = true -> ToLower name <> k) ->
                m' !! k = m !! k))
  /\ (forall x y, ToLower (x +:+ "_" +:+ y) = ToLower x +:+ "_" +:+ ToLower y)
  /\ (forall x y, ToLower (x +:+ "-" +:+ y) = ToLower x +:+ "-" +:+ ToLower y)
  /\ (forall name,
         string_forallb is_ascii name = true ->
         ToLower name = string_map ascii_lower name)
  /\ (forall c, is_upper c = false -> ascii_lower c = c)
  /\ (forall c, is_upper c = true -> byte_val (ascii_lower c) = byte_val c + 32)
  /\ (forall name, string_forallb is_ascii name = true -> ToLower name = lowercase name)
  /\ (forall raw, parseValue raw = inferred raw)
  /\ (forall name raw m0,
         string_forallb is_ascii name = true -> no_separator name = true ->
         envVar_step m0 (name +:+ "=" +:+ raw)
         = <[lowercase name := inferred raw]> m0)
  /\ loadEnvVars
       (WithEnvVars ["PORT=3000"; "DEBUG=true"; "TIMEOUT=30.5";
                     "DATABASE_URL=postgres"; "INVALID_VAR"; "MAX-CONN="] a) ∅
     = Ok {[ "port" := VInt 3000; "debug" := VBool true;
             "timeout" := VFloat (ratio 305 10);
             "database_url" := VString "postgres";
             "max-conn" := VString "" ]}.
Proof.
  split; [|split; [|split; [|split; [|split; [|split; [|split; [|split;
    [|split; [|split; [|split; [|split]]]]]]]]]]];
    [| | | | | | | | |apply ToLower_lowercase|apply parseValue_inferred| |].
  10: { intros name raw m0 Ha Hn.
        change (name +:+ "=" +:+ raw) with (name +:+ String "=" raw).
        by rewrite envVar_step_entry, ToLower_lowercase. }
  10: { vm_compute. reflexivity. }
  9: { intros c Hc. unfold ascii_lower. rewrite Hc.
       unfold is_upper, between in Hc.
       unfold byte_val, byte_of. rewrite N_ascii_embedding.
       - fold (byte_val c). pose proof (N_ascii_bounded c). unfold byte_val in *. lia.
       - pose proof (N_ascii_bounded c). unfold byte_val in *. lia. }
  - intros name raw m0. apply envVar_step_entry.
  - intros envVar m0. apply envVar_step_skip.
  - intros a' m0. unfold loadEnvVars. destruct (withEnvVars a'); eauto.
  - unfold loadEnvVars. simpl. eexists. split; [done|]. split.
    + intros i name raw Hi Hname Hlater.
      rewrite <- (take_drop_middle envVars i _ Hi), fold_left_app. simpl.
      rewrite fold_envVars_other.
      * change (name +:+ "=" +:+ raw) with (name +:+ String "=" raw).
        rewrite envVar_step_entry by done. apply lookup_insert_eq.
      * intros e name' raw' [j Hj]%list_elem_of_lookup Hname' ->.
        rewrite lookup_drop in Hj.
        apply (Hlater (S i + j)%nat name' raw'); [lia|done..].
    + intros k Hk. apply fold_envVars_other.
      intros e name raw [i Hi]%list_elem_of_lookup Hname ->.
      by apply (Hk i name raw).
  - intros x y. apply (ToLower_app x "_" y). reflexivity.
  - intros x y. apply (ToLower_app x "-" y). reflexivity.
  - intros name Hascii. unfold ToLower. by rewrite Hascii.
  - intros c Hc. unfold ascii_lower. by rewrite Hc.
Qed.
End SourceOverlays.

(** ** What the projector can encode *)

Lemma parseValue_scalar raw : is_scalar (parseValue raw) = true.
Proof.
  unfold parseValue.
  by destruct (ParseBool raw), (Atoi raw), (ParseFloat raw).
Qed.

Lemma ParseFloat_special s f :
  ParseFloat s = Some f -> is_inf_or_nan f = true ->
  special s = Some (f, String.length s).
Proof.
  unfold ParseFloat.
  destruct (special s) as [[f' n]|].
  - destruct (n =? String.length s)%nat eqn:E; [|done].
    apply Nat.eqb_eq in E as ->. by intros [= ->].
  - destruct (readFloat s) as [p|]; [|done].
    destruct (p_rest p); [|done]. destruct (underscoreOK s); [|done].
    destruct (is_inf_or_nan _) eqn:E; [done|]. intros [= <-]. congruence.
Qed.

Lemma parseValue_special s f :
  parseValue s = VFloat f -> is_inf_or_nan f = true ->
  special s = Some (f, String.length s).
Proof.
  unfold parseValue.
  destruct (ParseBool s); [done|]. destruct (Atoi s); [done|].
  destruct (ParseFloat s) as [f'|] eqn:E; [|done].
  intros [= ->]. by apply ParseFloat_special.
Qed.

Lemma chr_inv n c : chr n c = true -> c = byte_of n.
Proof.
  unfold chr, byte_of, byte_val. intros E%Z.eqb_eq. subst n.
  by rewrite N2Z.id, ascii_N_embedding.
Qed.

Lemma lowered_letter_no_digit c p :
  Ascii.eqb (ascii_lower c) p = true -> is_digit p = false ->
  is_digit c = false.
Proof.
  intros E%Ascii.eqb_eq Hp. subst p. revert Hp.
  by destruct c as [[] [] [] [] [] [] [] []].
Qed.

Lemma common_prefix_head s prefix :
  (0 < commonPrefixLenIgnoreCase s prefix)%nat ->
  exists c r p prefix',
    s = String c r /\ prefix = String p prefix'
    /\ Ascii.eqb (ascii_lower c) p = true.
Proof.
  destruct prefix as [|p prefix'], s as [|c r]; simpl; try lia.
  destruct (Ascii.eqb (ascii_lower c) p) eqn:E; [|lia]. intros _.
  by exists c, r, p, prefix'.
Qed.

Lemma digits_letter acc c r : is_digit c = false -> digits acc (String c r) = None.
Proof. intros E. simpl. by rewrite E. Qed.

Lemma special_inferred raw f :
  special raw = Some (f, String.length raw) ->
  parseValue raw = VFloat f /\ is_inf_or_nan f = true.
Proof.
  intros Hs.
  assert (ParseFloat raw = Some f) as HF.
  { unfold ParseFloat. by rewrite Hs, Nat.eqb_refl. }
  assert (is_inf_or_nan f = true /\ ParseBool raw = None /\ Atoi raw = None)
    as (Hf & HB & HA);
    [|by unfold parseValue; rewrite HB, HA, HF].
  clear HF. unfold special in Hs. destruct raw as [|c r]; [done|].
  destruct (chr 43 c || chr 45 c) eqn:Hsign.
  - destruct (_ || _) eqn:Hn in Hs; [|done]. injection Hs as <- _.
    assert (0 < commonPrefixLenIgnoreCase r "infinity")%nat as Hpos.
    { repeat case_match; apply orb_true_iff in Hn as [?%Nat.eqb_eq|?%Nat.eqb_eq];
        try lia.
      all: match goal with
           | E : ((3 <? _)%nat && _) = true |- _ =>
             apply andb_true_iff in E as [?%Nat.ltb_lt _]; lia
           end. }
    apply common_prefix_head in Hpos as (c' & r' & p & prefix' & -> & [= <- _] & Hc').
    apply lowered_letter_no_digit in Hc'; [|done].
    split; [done|].
    apply orb_true_iff in Hsign as [->%chr_inv | ->%chr_inv];
      (split; [reflexivity|]); unfold Atoi, ParseInt; simpl;
      by rewrite Hc'.
  - destruct (chr 105 c || chr 73 c) eqn:Hi.
    + destruct (_ || _) eqn:Hn in Hs; [|done]. injection Hs as <- _.
      split; [done|].
      apply orb_true_iff in Hi as [->%chr_inv | ->%chr_inv];
        by (split; reflexivity).
    + destruct (chr 110 c || chr 78 c) eqn:Hnan; [|done].
      destruct (_ =? 3)%nat; [|done]. injection Hs as <- _.
      split; [done|].
      apply orb_true_iff in Hnan as [->%chr_inv | ->%chr_inv];
        by (split; reflexivity).
Qed.

Lemma lowered_letter c p :
  is_lower p = true -> p = ascii_lower c ->
  c = p \/ c = byte_of (byte_val p - 32).
Proof.
  intros Hp ->. revert Hp.
  destruct c as [[] [] [] [] [] [] [] []]; vm_compute; intros;
    first [by left | by right | done].
Qed.

Lemma lowered_sign c p :
  chr 43 p || chr 45 p = true -> p = ascii_lower c -> c = p.
Proof.
  intros Hp ->. revert Hp. by destruct c as [[] [] [] [] [] [] [] []].
Qed.

Lemma special_spelled raw :
  (exists f, special raw = Some (f, String.length raw))
  <-> In (string_map ascii_lower raw) special_tokens.
Proof.
  split.
  - intros [f Hs]. unfold special in Hs.
    destruct raw as [|c0 [|c1 [|c2 [|c3 [|c4 [|c5 [|c6 [|c7 [|c8 [|c9 r]]]]]]]]]];
      cbn in Hs;
      repeat (case_match; simplify_eq/=);
      repeat match goal with
             | E : (_ =? _)%char = true |- _ => apply Ascii.eqb_eq in E
             | E : chr _ _ || chr _ _ = true |- _ =>
               apply orb_true_iff in E as [E%chr_inv|E%chr_inv]; subst
             end;
      simpl; try lia;
      repeat match goal with E : ascii_lower _ = _ |- _ => rewrite E; clear E end;
      try tauto; done.
  - unfold special_tokens. simpl.
    intros Hin.
    destruct raw as [|c0 [|c1 [|c2 [|c3 [|c4 [|c5 [|c6 [|c7 [|c8 [|c9 r]]]]]]]]]];
      simpl in Hin;
      repeat (destruct Hin as [Hin|Hin]; [try discriminate Hin|]); try done;
      injection Hin as ?; subst;
      repeat match goal with
             | E : ?p = ascii_lower ?c |- _ =>
               first [ apply (lowered_sign c p eq_refl) in E; subst c
                     | apply (lowered_letter c p eq_refl) in E as [E|E];
                       vm_compute in E; subst c ]
             end;
      vm_compute; eauto.
Qed.

Lemma finite_inferred_spelled raw :
  finite_inferred raw = false
  <-> In (string_map ascii_lower raw) special_tokens.
Proof.
  rewrite <- special_spelled. unfold finite_inferred. split.
  - destruct (parseValue raw) as [| | |f| | |] eqn:E; try done.
    intros Hf%negb_false_iff. exists f. by apply parseValue_special.
  - intros [f [-> ->]%special_inferred]. done.
Qed.

(** Induction on documents, through their lists. *)
Lemma json_nested_ind (P : json -> Prop) :
  P JNull -> (forall b, P (JBool b)) -> (forall lit, P (JNumber lit)) ->
  (forall s, P (JString s)) ->
  (forall elems, Forall P elems -> P (JArray elems)) ->
  (forall members, Forall (fun kv => P (snd kv)) members -> P (JObject members)) ->
  forall j, P j.
Proof.
  intros Hn Hb Hl Hs Ha Ho. fix IH 1. intros [|b|lit|s|elems|members].
  - exact Hn.
  - apply Hb.
  - apply Hl.
  - apply Hs.
  - apply Ha.
    exact ((fix each (l : list json) : Forall P l :=
              match l with
              | [] => List.Forall_nil P
              | x :: rest => List.Forall_cons P x rest (IH x) (each rest)
              end) elems).
  - apply Ho.
    exact ((fix each (l : list (string * json))
              : Forall (fun kv => P (snd kv)) l :=
              match l with
              | [] => List.Forall_nil _
              | kv :: rest => List.Forall_cons _ kv rest (IH (snd kv)) (each rest)
              end) members).
Qed.


(** A number of a document begins with a digit or with a minus sign and
    a digit, so it is never read as a NaN or an infinity. *)
Lemma take_digits_head c r d rest :
  is_digit c = true -> take_digits (String c r) = (d, rest) ->
  exists d', d = String c d'.
Proof.
  intros Hc. simpl. rewrite Hc. destruct (take_digits r) as [d' rest'].
  intros [= <- <-]. by exists d'.
Qed.

Lemma read_number_begins s lit rest :
  read_number s = Parsed lit rest -> begins_number lit = true.
Proof.
  unfold read_number.
  assert (forall s1,
    match
      match s1 with
      | String c r =>
        if chr 48 c then Some (String c EmptyString, r)
        else if between 49 c 57 then Some (take_digits s1)
        else None
      | EmptyString => None
      end
    with
    | Some (int, s2) =>
      exists c t, int = String c t /\ is_digit c = true
    | None => True
    end) as Hint.
  { intros [|c r]; [done|].
    destruct (chr 48 c) eqn:E0.
    - exists c, EmptyString. split; [done|].
      unfold is_digit, between, chr in *. lia.
    - destruct (between 49 c 57) eqn:E1; [|done].
      assert (is_digit c = true) as Hd by (unfold is_digit, between in *; lia).
      destruct (take_digits (String c r)) as [d rest'] eqn:Et.
      destruct (take_digits_head _ _ _ _ Hd Et) as [d' ->]. by exists c, d'. }
  assert (forall sign int,
    (sign = EmptyString \/ sign = String (byte_of 45) EmptyString) ->
    (exists c t, int = String c t /\ is_digit c = true) ->
    forall t, begins_number (sign +:+ int +:+ t) = true) as Hb.
  { intros sign int [-> | ->] (c & t' & -> & Hc) t; simpl; rewrite Hc; done. }
  destruct s as [|c0 s0].
  - done.
  - destruct (chr 45 c0) eqn:E45.
    + apply chr_inv in E45 as ->.
      specialize (Hint s0).
      destruct (match s0 with
                | String c r =>
                  if chr 48 c then Some (String c EmptyString, r)
                  else if between 49 c 57 then Some (take_digits s0)
                  else None
                | EmptyString => None
                end) as [[int s2]|]; [|done].
      pose proof (Hb _ int (or_intror eq_refl) Hint) as Hlit.
      repeat (case_match; simplify_eq); intros; simplify_eq;
        rewrite ?append_assoc; first [apply Hlit | apply (Hlit EmptyString)].
    + specialize (Hint (String c0 s0)).
      destruct (if chr 48 c0 then Some (String c0 EmptyString, s0)
                else if between 49 c0 57 then Some (take_digits (String c0 s0))
                else None) as [[int s2]|]; [|done].
      pose proof (Hb _ int (or_introl eq_refl) Hint) as Hlit.
      repeat (case_match; simplify_eq); intros; simplify_eq;
        rewrite ?append_assoc; first [apply Hlit | apply (Hlit EmptyString)].
Qed.

Lemma special_begins lit : begins_number lit = true -> special lit = None.
Proof.
  destruct lit as [|c r]; [done|]. unfold special, begins_number.
  intros [Hc|[Hc Hr]%andb_true_iff]%orb_true_iff.
  - assert (chr 43 c = false /\ chr 45 c = false /\ chr 105 c = false
            /\ chr 73 c = false /\ chr 110 c = false /\ chr 78 c = false)
      as (-> & -> & -> & -> & -> & ->); [|done].
    unfold is_digit, between, chr in *. lia.
  - rewrite Hc, orb_true_r. destruct r as [|d r']; [done|].
    cbn [commonPrefixLenIgnoreCase].
    destruct (Ascii.eqb (ascii_lower d) "i") eqn:E; [|done].
    apply lowered_letter_no_digit in E; [congruence|done].
Qed.

Lemma ParseFloat_begins lit f :
  begins_number lit = true -> ParseFloat lit = Some f -> is_inf_or_nan f = false.
Proof.
  intros Hs%special_begins. unfold ParseFloat. rewrite Hs.
  destruct (readFloat lit) as [p|]; [|done].
  destruct (p_rest p); [|done]. destruct (underscoreOK lit); [|done].
  destruct (is_inf_or_nan _) eqn:E; [done|]. by intros [= <-].
Qed.

Lemma forallb_rev {A : Type} (f : A -> bool) l : forallb f (rev l) = forallb f l.
Proof.
  induction l as [|x l IH]; simpl; [done|].
  by rewrite forallb_app, IH, andb_comm; simpl; rewrite andb_true_r.
Qed.

Lemma read_name_numbers name j s j' rest :
  numbers_begin j = true -> read_name name j s = Parsed j' rest ->
  numbers_begin j' = true.
Proof. unfold read_name. case_match; [|done]. by intros ? [= <- _]. Qed.

Lemma read_value_numbers fuel :
  (forall depth s j rest,
      read_value fuel depth s = Parsed j rest -> numbers_begin j = true)
  /\ (forall depth s acc j rest,
         forallb numbers_begin acc = true ->
         read_elements fuel depth s acc = Parsed j rest -> numbers_begin j = true)
  /\ (forall depth s acc j rest,
         forallb (fun kv => numbers_begin (snd kv)) acc = true ->
         read_members fuel depth s acc = Parsed j rest -> numbers_begin j = true).
Proof.
  induction fuel as [|fuel (IHv & IHe & IHm)]; [by repeat split|].
  repeat split.
  - intros depth s j rest Hr. simpl in Hr.
    repeat (case_match; simplify_eq); try done;
      try (by eapply IHe; [|eassumption]);
      try (by eapply IHm; [|eassumption]);
      try (by eapply read_name_numbers; [|eassumption]).
    simpl. by eapply read_number_begins.
  - intros depth s acc j rest Hacc Hr. simpl in Hr.
    repeat (case_match; simplify_eq).
    + eapply IHe; [|eassumption]. simpl. rewrite Hacc, andb_true_r. by eapply IHv.
    + cbn [numbers_begin]. rewrite forallb_app, forallb_rev, Hacc. simpl.
      rewrite andb_true_r. by eapply IHv.
  - intros depth s acc j rest Hacc Hr. simpl in Hr.
    repeat (case_match; simplify_eq).
    + eapply IHm; [|eassumption]. simpl. rewrite Hacc, andb_true_r. by eapply IHv.
    + cbn [numbers_begin]. rewrite forallb_app, forallb_rev, Hacc. simpl.
      rewrite andb_true_r. by eapply IHv.
Qed.

Lemma read_text_numbers data j rest :
  read_text data = Parsed j rest -> numbers_begin j = true.
Proof.
  unfold read_text.
  destruct (read_value _ _ _) as [j' r| |] eqn:E; [|done..].
  destruct (skip_space r); [|done]. intros [= <- _].
  by eapply (proj1 (read_value_numbers _)).
Qed.

Section Encoding.
Context `{GoTables}.

(** [Load] projects the overlay of its first four steps. *)
Lemma Load_overlay os a :
  Load os a
  = try configMap <- overlay os a;
    wrap "failed to unmarshal config" (unmarshalToType a configMap).
Proof.
  unfold Load, overlay.
  repeat match goal with
         | |- context [bind ?r _] =>
           lazymatch r with
           | bind _ _ => fail
           | _ => destruct r; cbn [bind]; try reflexivity
           end
         end.
Qed.

Lemma encode_float f :
  is_ok (encode (VFloat f)) = negb (is_inf_or_nan f).
Proof. simpl. by destruct (is_inf_or_nan f). Qed.

Lemma encode_scalar v :
  is_scalar v = true ->
  is_ok (encode v) = match v with
                     | VFloat f => negb (is_inf_or_nan f)
                     | _ => true
                     end.
Proof. destruct v; try done. intros _. apply encode_float. Qed.

Lemma finite_inferred_encode raw :
  finite_inferred raw = true -> is_ok (encode (parseValue raw)) = true.
Proof.
  unfold finite_inferred. intros Hf.
  rewrite encode_scalar by apply parseValue_scalar.
  by destruct (parseValue raw).
Qed.

Lemma encode_object_ok members :
  is_ok (encode (VObject members))
  = forallb (fun kv => is_ok (encode (snd kv))) members.
Proof.
  cbn [encode].
  induction members as [|[k v] rest IH]; [done|].
  cbn [forallb snd]. destruct (encode v) as [t|e]; [|done].
  cbn [bind is_ok andb]. rewrite <- IH.
  by match goal with
     | |- context [?each rest] =>
       is_fix each; destruct (each rest)
     end.
Qed.

(** [json.Marshal] succeeds exactly on the overlays all of whose values
    can be encoded. *)
Lemma Marshal_ok (m : gmap string value) :
  is_ok (Marshal m) = true
  <-> map_Forall (fun _ v => is_ok (encode v) = true) m.
Proof.
  unfold Marshal. rewrite encode_object_ok, forallb_forall.
  rewrite map_Forall_to_list, Forall_forall. split.
  - intros Hall [k v] Hin. apply (Hall (k, v)). by apply list_elem_of_In.
  - intros Hall [k v] Hin. apply (Hall (k, v)). by apply list_elem_of_In.
Qed.

Lemma cut_inv s name raw :
  cut "=" s = Some (name, raw) ->
  no_separator name = true /\ s = name +:+ "=" +:+ raw.
Proof.
  revert name. induction s as [|c r IH]; intros name; [done|].
  simpl. destruct (Ascii.eqb c "=") eqn:Hc.
  - intros [= <- <-]. apply Ascii.eqb_eq in Hc as ->. done.
  - destruct (cut "=" r) as [[a b]|]; [|done]. intros [= <- <-].
    destruct (IH a eq_refl) as [Ha ->]. split; [|done].
    unfold no_separator in *. simpl. by rewrite Hc, Ha.
Qed.

Lemma encode_array_ok elems :
  is_ok (encode (VArray elems)) = forallb (fun v => is_ok (encode v)) elems.
Proof.
  cbn [encode].
  induction elems as [|v rest IH]; [done|].
  cbn [forallb]. destruct (encode v) as [t|e]; [|done].
  cbn [bind is_ok andb]. rewrite <- IH.
  by match goal with
     | |- context [?each rest] =>
       is_fix each; destruct (each rest)
     end.
Qed.

Lemma alist_set_forallb {A : Type} (f : A -> bool) k v l :
  f v = true -> forallb (fun kv => f (snd kv)) l = true ->
  forallb (fun kv => f (snd kv)) (alist_set k v l) = true.
Proof.
  intros Hv. induction l as [|[k' v'] rest IH]; simpl.
  - by rewrite Hv.
  - intros [Hv' Hrest]%andb_true_iff. destruct (String.eqb k k'); simpl.
    + by rewrite Hv, Hrest.
    + by rewrite Hv', IH.
Qed.

(** What a file holds can be written back: its numbers are finite. *)
Lemma to_any_encodable j :
  numbers_begin j = true ->
  forall v, to_any j = Ok v -> is_ok (encode v) = true.
Proof.
  induction j as [|b|lit|s|elems IH|members IH] using json_nested_ind;
    intros Hj v; cbn [to_any].
  - by intros [= <-].
  - by intros [= <-].
  - destruct (ParseFloat lit) as [f|] eqn:E; [|done]. intros [= <-].
    rewrite encode_float. by rewrite (ParseFloat_begins lit f).
  - by intros [= <-].
  - match goal with
    | |- bind (?each elems) _ = _ -> _ =>
      assert (forall vs, each elems = Ok vs ->
                forallb (fun v => is_ok (encode v)) vs = true) as Hall
    end.
    { cbn [numbers_begin] in Hj. clear v.
      induction elems as [|x rest IHrest]; intros vs; [by intros [= <-]|].
      apply Forall_cons in IH as [Hx Hrest].
      simpl in Hj. apply andb_true_iff in Hj as [Hjx Hjrest].
      destruct (to_any x) as [vx|] eqn:Ex; [|done]. cbn [bind].
      match goal with
      | |- bind (?each rest) _ = _ -> _ => destruct (each rest) as [vr|] eqn:Er
      end; [|done].
      intros [= <-]. simpl. rewrite (Hx Hjx vx eq_refl). by apply IHrest. }
    match goal with
    | |- bind (?each elems) _ = _ -> _ => destruct (each elems) as [vs|]
    end; [|done].
    intros [= <-]. rewrite encode_array_ok. by apply Hall.
  - match goal with
    | |- bind (?each members []) _ = _ -> _ =>
      assert (forall acc kvs,
                forallb (fun kv => is_ok (encode (snd kv))) acc = true ->
                each members acc = Ok kvs ->
                forallb (fun kv => is_ok (encode (snd kv))) kvs = true) as Hall
    end.
    { cbn [numbers_begin] in Hj. clear v.
      induction members as [|[k x] rest IHrest]; intros acc kvs Hacc;
        [by intros [= <-]|].
      apply Forall_cons in IH as [Hx Hrest].
      simpl in Hj. apply andb_true_iff in Hj as [Hjx Hjrest].
      destruct (to_any x) as [vx|] eqn:Ex; [|done]. cbn [bind].
      apply IHrest; [done..|].
      apply (alist_set_forallb (fun v => is_ok (encode v))); [|done].
      by apply (Hx Hjx). }
    match goal with
    | |- bind (?each members []) _ = _ -> _ =>
      destruct (each members []) as [kvs|] eqn:E
    end; [|done].
    intros [= <-]. rewrite encode_object_ok. by apply (Hall [] kvs).
Qed.

Lemma Unmarshal_map_encodable data entries :
  Unmarshal_map data = Ok (Some entries) ->
  map_Forall (fun _ v => is_ok (encode v) = true) entries.
Proof.
  unfold Unmarshal_map.
  destruct (read_text data) as [j rest| |] eqn:Er; [|done..].
  apply read_text_numbers in Er.
  destruct j as [| | | | |members]; try done.
  destruct (to_any (JObject members)) as [v|] eqn:Ev; [|done]. cbn [bind].
  pose proof (to_any_encodable _ Er v Ev) as Hv.
  destruct v as [| | | | | |kvs]; try done. intros [= <-].
  rewrite encode_object_ok, forallb_forall in Hv.
  intros k x Hk. apply elem_of_list_to_map_2 in Hk.
  apply (Hv (k, x)). by apply list_elem_of_In.
Qed.

Lemma loadConfigFile_encodable os filePath (m m' : gmap string value) :
  map_Forall (fun _ v => is_ok (encode v) = true) m ->
  loadConfigFile os filePath m = Ok m' ->
  map_Forall (fun _ v => is_ok (encode v) = true) m'.
Proof.
  intros Hm. unfold loadConfigFile.
  destruct (ReadFile os filePath) as [data| |]; [|by intros [= <-]|done].
  destruct (Unmarshal_map data) as [[entries|]|] eqn:E; simpl; [| |done].
  - intros [= <-]. rewrite merge_entries.
    apply map_Forall_union_2; [|done]. by eapply Unmarshal_map_encodable.
  - by intros [= <-].
Qed.

Lemma envVar_step_encodable (m : gmap string value) envVars envVar :
  envVar ∈ envVars ->
  (forall raw, env_value envVars raw -> finite_inferred raw = true) ->
  map_Forall (fun _ v => is_ok (encode v) = true) m ->
  map_Forall (fun _ v => is_ok (encode v) = true) (envVar_step m envVar).
Proof.
  intros Hin Hraw Hm. unfold envVar_step. simpl.
  destruct (cut "=" envVar) as [[name raw]|] eqn:E; [|done].
  apply cut_inv in E as [Hname ->].
  apply map_Forall_insert_2; [|done].
  apply finite_inferred_encode, Hraw. by exists name.
Qed.

Lemma arg_step_encodable args (m : gmap string value) i :
  (forall raw, arg_value args raw -> finite_inferred raw = true) ->
  map_Forall (fun _ v => is_ok (encode v) = true) m ->
  map_Forall (fun _ v => is_ok (encode v) = true) (arg_step args m i).
Proof.
  intros Hraw Hm. unfold arg_step.
  destruct (args !! i) as [arg|] eqn:Hi; [|done].
  destruct (HasPrefix arg "--") eqn:Hp; [|done].
  destruct (args !! (i + 1)%nat) as [next|] eqn:Hnext;
    [destruct (HasPrefix next "--") eqn:Hn|];
    apply map_Forall_insert_2; try done.
  apply finite_inferred_encode, Hraw.
  exists i, (TrimPrefix arg "--"). by rewrite <- HasPrefix_split.
Qed.

Lemma loadEnvVars_encodable a (m m' : gmap string value) :
  (forall raw, env_value (default [] (withEnvVars a)) raw ->
               finite_inferred raw = true) ->
  map_Forall (fun _ v => is_ok (encode v) = true) m ->
  loadEnvVars a m = Ok m' ->
  map_Forall (fun _ v => is_ok (encode v) = true) m'.
Proof.
  intros Hraw Hm. unfold loadEnvVars.
  destruct (withEnvVars a) as [envVars|]; [|by intros [= <-]].
  intros [= <-]. simpl in Hraw.
  assert (forall l, l ⊆ envVars ->
            map_Forall (fun _ v => is_ok (encode v) = true)
              (fold_left envVar_step l m)) as Hfold; [|by apply Hfold].
  intros l. revert m Hm.
  induction l as [|e rest IH]; intros m Hm Hsub; simpl; [done|].
  apply IH; [|set_solver].
  apply (envVar_step_encodable m envVars); [set_solver|done..].
Qed.

Lemma loadArgs_encodable a (m m' : gmap string value) :
  (forall raw, arg_value (default [] (withArgs a)) raw ->
               finite_inferred raw = true) ->
  map_Forall (fun _ v => is_ok (encode v) = true) m ->
  loadArgs a m = Ok m' ->
  map_Forall (fun _ v => is_ok (encode v) = true) m'.
Proof.
  intros Hraw Hm. unfold loadArgs.
  destruct (withArgs a) as [args|]; [|by intros [= <-]].
  intros [= <-]. simpl in Hraw.
  generalize (seq 0 (List.length args)). intros idx. revert m Hm.
  induction idx as [|i rest IH]; intros m Hm; simpl; [done|].
  apply IH. by apply arg_step_encodable.
Qed.

Lemma overlay_encodable os a (m : gmap string value) :
  (forall raw, env_value (default [] (withEnvVars a)) raw ->
               finite_inferred raw = true) ->
  (forall raw, arg_value (default [] (withArgs a)) raw ->
               finite_inferred raw = true) ->
  overlay os a = Ok m ->
  map_Forall (fun _ v => is_ok (encode v) = true) m.
Proof.
  intros Hvars Hargs. unfold overlay.
  destruct (getConfigDirectory os a) as [dir|]; [|done]. cbn [wrap bind].
  destruct (loadConfigFile os _ ∅) as [m1|] eqn:E1; [|done]. cbn [wrap bind].
  apply loadConfigFile_encodable in E1; [|apply map_Forall_empty].
  assert (forall m2,
    match withEnvironment a with
    | Some environment =>
      wrap "failed to load env config"
        (loadConfigFile os (Join [dir; envConfigName environment]) m1)
    | None => Ok m1
    end = Ok m2 -> map_Forall (fun _ v => is_ok (encode v) = true) m2) as H2.
  { intros m2. destruct (withEnvironment a) as [environment|]; [|by intros [= <-]].
    destruct (loadConfigFile os _ m1) as [m2'|] eqn:E2; [|done].
    intros [= <-]. by eapply loadConfigFile_encodable. }
  destruct (match withEnvironment a with Some _ => _ | None => _ end)
    as [m2|]; [|done].
  specialize (H2 m2 eq_refl). cbn [wrap bind].
  destruct (loadEnvVars a m2) as [m3|] eqn:E3; [|done]. cbn [wrap bind].
  apply loadEnvVars_encodable in E3; [|done..].
  destruct (loadArgs a m3) as [m4|] eqn:E4; [|done]. cbn [wrap].
  intros [= <-]. by eapply loadArgs_encodable.
Qed.

(** C4, as amended: the values that the environment-variable and
    argument stages store are booleans, integers, floats and strings;
    of these [json.Marshal] refuses exactly the floats NaN and the
    infinities, which value inference yields for exactly the tokens
    that [strconv] reads as special values: nan, inf and infinity in
    any case, the infinities with an optional sign.  [Marshal] succeeds
    exactly on the overlays all of whose values can be encoded, and
    what [loadConfigFile] adds from a file can be encoded.  So for every
    machine and every loader none of whose value tokens (what follows
    the first [=] of an entry; a token that follows a flag and is not a
    flag) is inferred as NaN or an infinity, the marshal step of
    [unmarshalToType] succeeds on the overlay that [Load] hands to it,
    and [Load] returns what the decoding of that text returns. *)
Theorem marshal_step_succeeds :
  (forall raw, is_scalar (parseValue raw) = true)
  /\ (forall v, is_scalar v = true ->
                is_ok (encode v) = match v with
                                   | VFloat f => negb (is_inf_or_nan f)
                                   | _ => true
                                   end)
  /\ (forall raw f,
         parseValue raw = VFloat f /\ is_inf_or_nan f = true
         <-> special raw = Some (f, String.length raw))
  /\ (forall raw,
         finite_inferred raw = false
         <-> In (string_map ascii_lower raw) special_tokens)
  /\ (forall m : gmap string value,
         is_ok (Marshal m) = true
         <-> map_Forall (fun _ v => is_ok (encode v) = true) m)
  /\ (forall os filePath (m m' : gmap string value),
         map_Forall (fun _ v => is_ok (encode v) = true) m ->
         loadConfigFile os filePath m = Ok m' ->
         map_Forall (fun _ v => is_ok (encode v) = true) m')
  /\ (forall a (m m' : gmap string value),
         (forall raw, env_value (default [] (withEnvVars a)) raw ->
                      finite_inferred raw = true) ->
         map_Forall (fun _ v => is_ok (encode v) = true) m ->
         loadEnvVars a m = Ok m' ->
         map_Forall (fun _ v => is_ok (encode v) = true) m')
  /\ (forall a (m m' : gmap string value),
         (forall raw, arg_value (default [] (withArgs a)) raw ->
                      finite_inferred raw = true) ->
         map_Forall (fun _ v => is_ok (encode v) = true) m ->
         loadArgs a m = Ok m' ->
         map_Forall (fun _ v => is_ok (encode v) = true) m')
  /\ (forall os a,
         (forall raw, env_value (default [] (withEnvVars a)) raw ->
                      finite_inferred raw = true) ->
         (forall raw, arg_value (default [] (withArgs a)) raw ->
                      finite_inferred raw = true) ->
         forall m, overlay os a = Ok m ->
         exists jsonData,
           Marshal m = Ok jsonData
           /\ Load os a
              = wrap "failed to unmarshal config" (Unmarshal jsonData (T a))).
Proof.
  split; [apply parseValue_scalar|].
  split; [apply encode_scalar|].
  split.
  { intros raw f. split; [intros [Hv Hf]; by apply parseValue_special|].
    apply special_inferred. }
  split; [apply finite_inferred_spelled|].
  split; [apply Marshal_ok|].
  split; [apply loadConfigFile_encodable|].
  split; [apply loadEnvVars_encodable|].
  split; [apply loadArgs_encodable|].
  intros os a Hvars Hargs m Hm.
  pose proof (overlay_encodable os a m Hvars Hargs Hm) as Henc.
  apply Marshal_ok in Henc.
  destruct (Marshal m) as [jsonData|] eqn:E; [|done].
  exists jsonData. split; [done|].
  rewrite Load_overlay, Hm. cbn [bind]. unfold unmarshalToType. by rewrite E.
Qed.
End Encoding.

(** ** Matching keys to fields *)

Lemma ascii_upper_lower c : ascii_upper (ascii_lower c) = ascii_upper c.
Proof. by destruct c as [[] [] [] [] [] [] [] []]. Qed.

Lemma is_ascii_lower c : is_ascii (ascii_lower c) = is_ascii c.
Proof. by destruct c as [[] [] [] [] [] [] [] []]. Qed.

Lemma string_map_map f g s :
  string_map f (string_map g s) = string_map (fun c => f (g c)) s.
Proof. induction s as [|c r IH]; simpl; by rewrite ?IH. Qed.

Lemma string_map_ext f g s :
  (forall c, f c = g c) -> string_map f s = string_map g s.
Proof. intros E. induction s as [|c r IH]; simpl; by rewrite ?IH, ?E. Qed.

Lemma string_map_length f s : String.length (string_map f s) = String.length s.
Proof. induction s as [|c r IH]; simpl; by rewrite ?IH. Qed.

Lemma lowered_is_ascii s :
  string_forallb is_ascii s = true ->
  string_forallb is_ascii (string_map ascii_lower s) = true.
Proof.
  induction s as [|c r IH]; simpl; [done|].
  intros [Hc Hr]%andb_true_iff. by rewrite is_ascii_lower, Hc, IH.
Qed.

Section Matching.
Context `{GoTables}.

Lemma foldName_fuel_ascii fuel : forall s,
  (String.length s <= fuel)%nat ->
  string_forallb is_ascii s = true ->
  foldName_fuel fuel s = string_map ascii_upper s.
Proof.
  induction fuel as [|fuel IH]; intros [|c r] Hlen; simpl in *; try done; try lia.
  intros [Hc Hr]%andb_true_iff. rewrite Hc. f_equal. apply IH; [lia|done].
Qed.

Lemma foldName_ascii s :
  string_forallb is_ascii s = true -> foldName s = string_map ascii_upper s.
Proof. intros Hs. by apply foldName_fuel_ascii. Qed.

(** A lower-cased ASCII name folds like every tag that differs from it
    by case only. *)
Lemma foldName_lowered X tag :
  string_forallb is_ascii X = true -> string_forallb is_ascii tag = true ->
  string_map ascii_lower X = string_map ascii_lower tag ->
  foldName (ToLower X) = foldName tag.
Proof.
  intros HX Htag Hlow. unfold ToLower. rewrite HX.
  rewrite foldName_ascii by by apply lowered_is_ascii.
  rewrite foldName_ascii by done.
  rewrite Hlow, string_map_map. apply string_map_ext, ascii_upper_lower.
Qed.

Lemma visible_single tag t : visible [(tag, t)] = [(tag, t)].
Proof.
  unfold visible, count_name. simpl. by rewrite String.eqb_refl.
Qed.

Lemma find_field_exact fields key t :
  In (key, t) (visible fields) ->
  exists t', find_field fields key = Some (key, t').
Proof.
  intros Hin. unfold find_field.
  destruct (find _ (visible fields)) as [[k t']|] eqn:E.
  - apply find_some in E as [_ Hk]. simpl in Hk.
    apply String.eqb_eq in Hk as ->. eauto.
  - eapply find_none in E; [|exact Hin]. simpl in E.
    by rewrite String.eqb_refl in E.
Qed.

Lemma find_field_folded fields key :
  (forall t, ~ In (key, t) (visible fields)) ->
  find_field fields key
  = find (fun kv => String.eqb (foldName (fst kv)) (foldName key))
         (visible fields).
Proof.
  intros Hno. unfold find_field.
  destruct (find (fun kv => String.eqb (fst kv) key) (visible fields))
    as [[k t]|] eqn:E; [|done].
  apply find_some in E as [Hin Hk]. simpl in Hk.
  apply String.eqb_eq in Hk as ->. by destruct (Hno t).
Qed.

Lemma find_field_single tag t X :
  string_forallb is_ascii X = true -> string_forallb is_ascii tag = true ->
  string_map ascii_lower X = string_map ascii_lower tag ->
  find_field [(tag, t)] (ToLower X) = Some (tag, t).
Proof.
  intros HX Htag Hlow. unfold find_field. rewrite visible_single. simpl.
  destruct (String.eqb tag (ToLower X)); [done|].
  by rewrite (foldName_lowered X tag), String.eqb_refl.
Qed.

(** C3, as amended: the projection stores a key of the overlay into
    the field whose tag is that key, and failing that into the first
    field whose tag is that key up to case.  So the lower-cased key of
    an ASCII environment variable or flag name fills the field whose
    tag differs from the name by case only, whether that tag has
    upper-case letters or not. *)
Theorem projection_matches_up_to_case :
  (forall fields key t,
      In (key, t) (visible fields) ->
      exists t', find_field fields key = Some (key, t'))
  /\ (forall fields key,
         (forall t, ~ In (key, t) (visible fields)) ->
         find_field fields key
         = find (fun kv => String.eqb (foldName (fst kv)) (foldName key))
                (visible fields))
  /\ (forall X tag,
         string_forallb is_ascii X = true ->
         string_forallb is_ascii tag = true ->
         string_map ascii_lower X = string_map ascii_lower tag ->
         foldName (ToLower X) = foldName tag)
  /\ (forall X tag text,
         string_forallb is_ascii X = true ->
         string_forallb is_ascii tag = true ->
         string_map ascii_lower X = string_map ascii_lower tag ->
         decode (TStruct [(tag, TString)]) (zero (TStruct [(tag, TString)]))
                (JObject [(ToLower X, JString text)])
         = Ok (GStruct [(tag, GString text)])).
Proof.
  split; [apply find_field_exact|].
  split; [apply find_field_folded|].
  split; [apply foldName_lowered|].
  intros X tag text HX Htag Hlow. cbn [decode zero].
  rewrite find_field_single by done. cbn [decode field_get bind alist_set].
  by rewrite !String.eqb_refl.
Qed.
End Matching.

(** ** The whole load *)

Lemma field_get_alist_set {A : Type} name (v : A) l :
  field_get name (alist_set name v l) = Some v.
Proof.
  induction l as [|[k x] rest IH]; simpl.
  - by rewrite String.eqb_refl.
  - destruct (String.eqb name k) eqn:E; simpl.
    + by rewrite String.eqb_refl.
    + rewrite String.eqb_sym in E. by rewrite E.
Qed.

Lemma read_text_empty_object : read_text "{}" = Parsed (JObject []) EmptyString.
Proof. vm_compute. reflexivity. Qed.

Section WholeLoad.
Context `{GoTables}.

Lemma Marshal_empty : Marshal ∅ = Ok "{}".
Proof. unfold Marshal. by rewrite map_to_list_empty. Qed.

Lemma Unmarshal_empty_object fields :
  Unmarshal "{}" (TStruct fields) = Ok (zero (TStruct fields)).
Proof. unfold Unmarshal. by rewrite read_text_empty_object. Qed.

Lemma loadEnvVars_none a (m : gmap string value) :
  withEnvVars a = None \/ withEnvVars a = Some [] -> loadEnvVars a m = Ok m.
Proof. unfold loadEnvVars. by intros [-> | ->]. Qed.

Lemma loadArgs_none a (m : gmap string value) :
  withArgs a = None \/ withArgs a = Some [] -> loadArgs a m = Ok m.
Proof. unfold loadArgs. by intros [-> | ->]. Qed.

Lemma Unmarshal_empty_scalar t :
  match t with TStruct _ => False | _ => True end ->
  Unmarshal "{}" t = Err UnmarshalTypeError.
Proof. unfold Unmarshal. rewrite read_text_empty_object. by destruct t. Qed.

(** C9, as amended: a configured directory is returned as it is,
    whether it exists or not, so its absence is no error of the
    resolver.  When the directory is resolved, the read of each config
    file fails with a missing file ([os.IsNotExist]), and no
    environment variables and no arguments are configured, [Load]
    returns the zero value of the schema if the schema is a struct, and
    fails in the decoding if it is not.  That neither file exists is not
    enough: when the read of the base file, or of the environment file,
    fails in another way, as it does below a directory that is a
    regular file, [Load] returns that error. *)
Theorem Load_no_sources :
  (forall os dir a, getConfigDirectory os (WithConfigDirectory dir a) = Ok dir)
  /\ (forall os a dir,
         getConfigDirectory os a = Ok dir ->
         ReadFile os (Join [dir; "config.json"]) = NotExist ->
         (forall environment,
             withEnvironment a = Some environment ->
             ReadFile os (Join [dir; envConfigName environment]) = NotExist) ->
         (withEnvVars a = None \/ withEnvVars a = Some []) ->
         (withArgs a = None \/ withArgs a = Some []) ->
         Load os a
         = match T a with
           | TStruct _ => Ok (zero (T a))
           | _ => Err (Wrap "failed to unmarshal config" UnmarshalTypeError)
           end)
  /\ (forall os a dir,
         getConfigDirectory os a = Ok dir ->
         ReadFile os (Join [dir; "config.json"]) = ReadFailed ->
         Load os a = Err (Wrap "failed to load base config" ErrRead))
  /\ (forall os a dir environment,
         getConfigDirectory os a = Ok dir ->
         ReadFile os (Join [dir; "config.json"]) = NotExist ->
         withEnvironment a = Some environment ->
         ReadFile os (Join [dir; envConfigName environment]) = ReadFailed ->
         Load os a = Err (Wrap "failed to load env config" ErrRead)).
Proof.
  split; [done|]. split; [|split].
  - intros os a dir Hdir Hbase Henv Hvars Hargs.
    unfold Load. rewrite Hdir. cbn [wrap bind].
    unfold loadConfigFile at 1. rewrite Hbase. cbn [wrap bind].
    assert ((match withEnvironment a with
             | Some environment =>
               wrap "failed to load env config"
                 (loadConfigFile os (Join [dir; envConfigName environment]) ∅)
             | None => Ok ∅
             end) = Ok (∅ : gmap string value)) as ->.
    { destruct (withEnvironment a) as [environment|]; [|done].
      unfold loadConfigFile. by rewrite (Henv environment eq_refl). }
    cbn [wrap bind]. rewrite loadEnvVars_none by done. cbn [wrap bind].
    rewrite loadArgs_none by done. cbn [wrap bind].
    unfold unmarshalToType. rewrite Marshal_empty. cbn [bind].
    destruct (T a) as [| | | |fields] eqn:HT;
      [by rewrite Unmarshal_empty_scalar..|].
    by rewrite Unmarshal_empty_object.
  - intros os a dir Hdir Hbase. unfold Load. rewrite Hdir. cbn [wrap bind].
    unfold loadConfigFile. by rewrite Hbase.
  - intros os a dir environment Hdir Hbase Henv Hfile.
    unfold Load. rewrite Hdir. cbn [wrap bind].
    unfold loadConfigFile at 1. rewrite Hbase. cbn [wrap bind].
    rewrite Henv. unfold loadConfigFile. by rewrite Hfile.
Qed.

(** A stage adds its own layer on top of the overlay it is given. *)
Lemma loadConfigFile_layer os filePath (m F : gmap string value) :
  loadConfigFile os filePath ∅ = Ok F ->
  loadConfigFile os filePath m = Ok (F ∪ m).
Proof.
  unfold loadConfigFile.
  destruct (ReadFile os filePath) as [data| |]; [| |done].
  - destruct (Unmarshal_map data) as [[entries|]|]; simpl; [| |done].
    + rewrite !merge_entries. intros [= <-]. by rewrite (right_id_L ∅ (∪)).
    + intros [= <-]. by rewrite (left_id_L ∅ (∪)).
  - intros [= <-]. by rewrite (left_id_L ∅ (∪)).
Qed.

Lemma envVar_step_layer (m : gmap string value) envVar :
  envVar_step m envVar = envVar_step ∅ envVar ∪ m.
Proof.
  unfold envVar_step.
  destruct (SplitN envVar "=" 2) as [|name [|raw [|? ?]]];
    rewrite ?(left_id_L ∅ (∪)); try done.
  by rewrite <- insert_union_l, (left_id_L ∅ (∪)).
Qed.

Lemma fold_envVars_layer envVars (m : gmap string value) :
  fold_left envVar_step envVars m = fold_left envVar_step envVars ∅ ∪ m.
Proof.
  revert m. induction envVars as [|e rest IH]; intros m; simpl.
  - by rewrite (left_id_L ∅ (∪)).
  - rewrite IH, (IH (envVar_step ∅ e)), (envVar_step_layer m e).
    by rewrite (assoc_L (∪)).
Qed.

Lemma arg_step_layer args (m : gmap string value) i :
  arg_step args m i = arg_step args ∅ i ∪ m.
Proof.
  unfold arg_step.
  destruct (args !! i) as [arg|]; [|by rewrite (left_id_L ∅ (∪))].
  destruct (HasPrefix arg "--"); [|by rewrite (left_id_L ∅ (∪))].
  destruct (args !! (i + 1)%nat) as [next|];
    [destruct (negb (HasPrefix next "--"))|];
    by rewrite <- insert_union_l, (left_id_L ∅ (∪)).
Qed.

Lemma fold_args_layer args idx (m : gmap string value) :
  fold_left (arg_step args) idx m = fold_left (arg_step args) idx ∅ ∪ m.
Proof.
  revert m. induction idx as [|i rest IH]; intros m; simpl.
  - by rewrite (left_id_L ∅ (∪)).
  - rewrite IH, (IH (arg_step args ∅ i)), (arg_step_layer args m i).
    by rewrite (assoc_L (∪)).
Qed.

Lemma loadEnvVars_layer a (m V : gmap string value) :
  loadEnvVars a ∅ = Ok V -> loadEnvVars a m = Ok (V ∪ m).
Proof.
  unfold loadEnvVars. destruct (withEnvVars a) as [envVars|].
  - intros [= <-]. by rewrite fold_envVars_layer.
  - intros [= <-]. by rewrite (left_id_L ∅ (∪)).
Qed.

Lemma loadArgs_layer a (m A : gmap string value) :
  loadArgs a ∅ = Ok A -> loadArgs a m = Ok (A ∪ m).
Proof.
  unfold loadArgs. destruct (withArgs a) as [args|].
  - intros [= <-]. by rewrite fold_args_layer.
  - intros [= <-]. by rewrite (left_id_L ∅ (∪)).
Qed.

(** The overlay of [Load] is the union of the four layers, a later
    source hiding an earlier one. *)
Lemma overlay_layers os a dir (B E V A : gmap string value) :
  getConfigDirectory os a = Ok dir ->
  loadConfigFile os (Join [dir; "config.json"]) ∅ = Ok B ->
  match withEnvironment a with
  | Some environment =>
    loadConfigFile os (Join [dir; envConfigName environment]) ∅
  | None => Ok ∅
  end = Ok E ->
  loadEnvVars a ∅ = Ok V ->
  loadArgs a ∅ = Ok A ->
  overlay os a = Ok (A ∪ V ∪ E ∪ B).
Proof.
  intros Hdir HB HE HV HA. unfold overlay.
  rewrite Hdir. cbn [wrap bind]. rewrite HB. cbn [wrap bind].
  assert (match withEnvironment a with
          | Some environment =>
            wrap "failed to load env config"
              (loadConfigFile os (Join [dir; envConfigName environment]) B)
          | None => Ok B
          end = Ok (E ∪ B)) as ->.
  { destruct (withEnvironment a) as [environment|].
    - by rewrite (loadConfigFile_layer _ _ B E HE).
    - injection HE as <-. by rewrite (left_id_L ∅ (∪)). }
  cbn [wrap bind]. rewrite (loadEnvVars_layer a _ V HV). cbn [wrap bind].
  rewrite (loadArgs_layer a _ A HA). cbn [wrap].
  by rewrite !(assoc_L (∪)).
Qed.

Lemma layers_lookup (B E V A : gmap string value) k :
  (A ∪ V ∪ E ∪ B) !! k
  = match A !! k, V !! k, E !! k with
    | Some v, _, _ => Some v
    | None, Some v, _ => Some v
    | None, None, Some v => Some v
    | None, None, None => B !! k
    end.
Proof.
  rewrite !lookup_union.
  by destruct (A !! k), (V !! k), (E !! k), (B !! k).
Qed.

(** C1: the overlay that [Load] projects is the union of four layers,
    in which the arguments hide the environment variables, these hide
    the environment file, and this hides the base file: every later
    stage's write to a key overwrites the earlier stage's value.  With
    the base file [{"port": 8080}], the environment file
    [{"port": 8090}], the environment variable [PORT=9000] and the
    arguments [--port 3000], the port is 8080, then 8090, then 9000,
    then 3000, and [Load] returns a result whose port field is 3000. *)
Theorem Load_priority :
  (forall os a dir (B E V A : gmap string value),
      getConfigDirectory os a = Ok dir ->
      loadConfigFile os (Join [dir; "config.json"]) ∅ = Ok B ->
      match withEnvironment a with
      | Some environment =>
        loadConfigFile os (Join [dir; envConfigName environment]) ∅
      | None => Ok ∅
      end = Ok E ->
      loadEnvVars a ∅ = Ok V ->
      loadArgs a ∅ = Ok A ->
      overlay os a = Ok (A ∪ V ∪ E ∪ B)
      /\ Load os a
         = wrap "failed to unmarshal config"
             (unmarshalToType a (A ∪ V ∪ E ∪ B))
      /\ forall k,
          (A ∪ V ∪ E ∪ B) !! k
          = match A !! k, V !! k, E !! k with
            | Some v, _, _ => Some v
            | None, Some v, _ => Some v
            | None, None, Some v => Some v
            | None, None, None => B !! k
            end)
  /\ (forall os dir environment fields,
         let a := WithArgs ["--port"; "3000"]
                    (WithEnvVars ["PORT=9000"]
                       (WithEnvironment environment
                          (WithConfigDirectory dir (New (TStruct fields))))) in
         ReadFile os (Join [dir; "config.json"])
           = FileData ("{" +:+ quoted "port" +:+ ": 8080}") ->
         ReadFile os (Join [dir; envConfigName environment])
           = FileData ("{" +:+ quoted "port" +:+ ": 8090}") ->
         find_field fields "port" = Some ("port", TInt) ->
         loadConfigFile os (Join [dir; "config.json"]) ∅
           = Ok {[ "port" := VFloat float_8080 ]}
         /\ loadConfigFile os (Join [dir; envConfigName environment])
              {[ "port" := VFloat float_8080 ]}
            = Ok {[ "port" := VFloat float_8090 ]}
         /\ loadEnvVars a {[ "port" := VFloat float_8090 ]}
            = Ok {[ "port" := VInt 9000 ]}
         /\ loadArgs a {[ "port" := VInt 9000 ]} = Ok {[ "port" := VInt 3000 ]}
         /\ exists result,
             Load os a = Ok (GStruct result)
             /\ field_get "port" result = Some (GInt 3000)).
Proof.
  split.
  { intros os a dir B E V A Hdir HB HE HV HA.
    pose proof (overlay_layers os a dir B E V A Hdir HB HE HV HA) as Ho.
    split; [exact Ho|]. split; [|apply layers_lookup].
    by rewrite Load_overlay, Ho. }
  intros os dir environment fields a Hbase Henv Hport.
  assert (loadConfigFile os (Join [dir; "config.json"]) ∅
          = Ok {[ "port" := VFloat float_8080 ]}) as E1.
  { unfold loadConfigFile. rewrite Hbase. vm_compute. reflexivity. }
  assert (loadConfigFile os (Join [dir; envConfigName environment])
            {[ "port" := VFloat float_8080 ]}
          = Ok {[ "port" := VFloat float_8090 ]}) as E2.
  { unfold loadConfigFile. rewrite Henv. vm_compute. reflexivity. }
  assert (loadEnvVars a {[ "port" := VFloat float_8090 ]}
          = Ok {[ "port" := VInt 9000 ]}) as E3
      by (vm_compute; reflexivity).
  assert (loadArgs a {[ "port" := VInt 9000 ]} = Ok {[ "port" := VInt 3000 ]})
    as E4 by (vm_compute; reflexivity).
  subst a. repeat split; try done.
  unfold Load, getConfigDirectory.
  cbn [withConfigDirectory withEnvironment WithArgs WithEnvVars
       WithEnvironment WithConfigDirectory New wrap bind].
  rewrite E1. cbn [wrap bind]. rewrite E2. cbn [wrap bind].
  rewrite E3. cbn [wrap bind]. rewrite E4. cbn [wrap bind].
  unfold unmarshalToType.
  assert (Marshal {[ "port" := VInt 3000 ]}
          = Ok ("{" +:+ quoted "port" +:+ ":3000}")) as ->
      by (vm_compute; reflexivity).
  cbn [bind]. unfold Unmarshal.
  assert (read_text ("{" +:+ quoted "port" +:+ ":3000}")
          = Parsed (JObject [("port", JNumber "3000")]) EmptyString) as ->
      by (vm_compute; reflexivity).
  cbn [T WithArgs WithEnvVars WithEnvironment WithConfigDirectory New].
  cbn [decode]. rewrite Hport. cbn [decode].
  assert (ParseInt "3000" 64 = Some 3000) as -> by (vm_compute; reflexivity).
  cbn [bind wrap]. eexists. split; [reflexivity|].
  apply field_get_alist_set.
Qed.
End WholeLoad.

(** * Further properties of the loader *)

(** Induction on values, through their lists. *)
Lemma value_nested_ind (P : value -> Prop) :
  P VNil -> (forall b, P (VBool b)) -> (forall n, P (VInt n)) ->
  (forall f, P (VFloat f)) -> (forall s, P (VString s)) ->
  (forall elems, Forall P elems -> P (VArray elems)) ->
  (forall members, Forall (fun kv => P (snd kv)) members -> P (VObject members)) ->
  forall v, P v.
Proof.
  intros Hn Hb Hi Hf Hs Ha Ho. fix IH 1. intros [|b|n|f|s|elems|members].
  - exact Hn.
  - apply Hb.
  - apply Hi.
  - apply Hf.
  - apply Hs.
  - apply Ha.
    exact ((fix each (l : list value) : Forall P l :=
              match l with
              | [] => List.Forall_nil P
              | x :: rest => List.Forall_cons P x rest (IH x) (each rest)
              end) elems).
  - apply Ho.
    exact ((fix each (l : list (string * value))
              : Forall (fun kv => P (snd kv)) l :=
              match l with
              | [] => List.Forall_nil _
              | kv :: rest => List.Forall_cons _ kv rest (IH (snd kv)) (each rest)
              end) members).
Qed.

Lemma to_any_error j e : to_any j = Err e -> e = UnmarshalTypeError.
Proof.
  revert e. induction j as [|b|lit|s|elems IH|members IH] using json_nested_ind;
    intros e; simpl; try discriminate.
  - case_match; congruence.
  - match goal with |- context [?each elems] => is_fix each; set (f := each) end.
    assert (forall e', f elems = Err e' -> e' = UnmarshalTypeError) as Hf.
    { induction IH as [|x rest Hx _ IHrest]; simpl; [discriminate|].
      intros e'. destruct (to_any x) eqn:Ex; simpl; [|intros [= <-]; eauto].
      destruct (f rest); simpl; [discriminate|]. intros [= <-]. eauto. }
    destruct (f elems); simpl; [discriminate|]. intros [= <-]. eauto.
  - match goal with |- context [?each members []] => is_fix each; set (f := each) end.
    assert (forall acc e', f members acc = Err e' -> e' = UnmarshalTypeError) as Hf.
    { induction IH as [|[k x] rest Hx _ IHrest]; simpl; [discriminate|].
      intros acc e'. destruct (to_any x) eqn:Ex; simpl; [apply IHrest|].
      intros [= <-]. eauto. }
    destruct (f members []) eqn:Ef; simpl; [discriminate|]. intros [= <-]. eauto.
Qed.

Lemma Unmarshal_map_error data e :
  Unmarshal_map data = Err e -> e = SyntaxError \/ e = UnmarshalTypeError.
Proof.
  unfold Unmarshal_map. destruct (read_text data) as [j rest| |]; try (intros [= <-]; eauto).
  destruct j; try (intros [= <-]; eauto).
  destruct (to_any (JObject members)) eqn:Ea; simpl.
  - destruct a; intros [= <-]; eauto.
  - intros [= <-]. right. by eapply to_any_error.
Qed.

Lemma loadConfigFile_error os filePath (m : gmap string value) e :
  loadConfigFile os filePath m = Err e ->
  e = ErrRead \/ e = SyntaxError \/ e = UnmarshalTypeError.
Proof.
  unfold loadConfigFile. destruct (ReadFile os filePath); try (intros [= <-]; eauto); try done.
  destruct (Unmarshal_map data) as [[entries|]|e'] eqn:Eu; simpl; try done.
  intros [= <-]. apply Unmarshal_map_error in Eu. tauto.
Qed.

Section Errors.
Context `{GoTables}.

Lemma encode_error v e : encode v = Err e -> e = UnsupportedValueError.
Proof.
  revert e. induction v as [|b|n|f|s|elems IH|members IH] using value_nested_ind;
    intros e; simpl; try discriminate.
  - case_match; congruence.
  - match goal with |- context [?each elems] => is_fix each; set (g := each) end.
    assert (forall e', g elems = Err e' -> e' = UnsupportedValueError) as Hg.
    { induction IH as [|x rest Hx _ IHrest]; simpl; [discriminate|].
      intros e'. destruct (encode x) eqn:Ex; simpl; [|intros [= <-]; eauto].
      destruct (g rest); simpl; [discriminate|]. intros [= <-]. eauto. }
    destruct (g elems); simpl; [discriminate|]. intros [= <-]. eauto.
  - match goal with |- context [?each members] => is_fix each; set (g := each) end.
    assert (forall e', g members = Err e' -> e' = UnsupportedValueError) as Hg.
    { induction IH as [|[k x] rest Hx _ IHrest]; simpl; [discriminate|].
      intros e'. destruct (encode x) eqn:Ex; simpl; [|intros [= <-]; eauto].
      destruct (g rest); simpl; [discriminate|]. intros [= <-]. eauto. }
    destruct (g members); simpl; [discriminate|]. intros [= <-]. eauto.
Qed.

Lemma decode_error j : forall t cur e,
  decode t cur j = Err e -> e = UnmarshalTypeError.
Proof.
  induction j as [|b|lit|s|elems IH|members IH] using json_nested_ind;
    intros t cur e; simpl; try discriminate.
  - destruct t; congruence.
  - destruct t; try congruence; case_match; congruence.
  - destruct t; congruence.
  - congruence.
  - destruct t as [| | | |fields]; try congruence.
    match goal with |- context [?each members ?c] => is_fix each; set (g := each); generalize c end.
    assert (forall acc e', g members acc = Err e' -> e' = UnmarshalTypeError) as Hg.
    { induction IH as [|[k x] rest Hx _ IHrest]; simpl; [discriminate|].
      intros acc e'. destruct (find_field fields k) as [[name t']|]; [|apply IHrest].
      match goal with |- context [decode t' ?old x] => destruct (decode t' old x) eqn:Ed end;
        simpl; [apply IHrest|].
      intros [= <-]. eauto. }
    intros c. destruct (g members c) eqn:Eg; simpl; [discriminate|]. intros [= <-]. eauto.
Qed.

Lemma unmarshalToType_error a (m : gmap string value) e :
  unmarshalToType a m = Err e ->
  e = UnsupportedValueError \/ e = SyntaxError \/ e = UnmarshalTypeError.
Proof.
  unfold unmarshalToType, Marshal.
  destruct (encode (VObject (map_to_list m))) as [jsonData|e'] eqn:Ee; simpl.
  - unfold Unmarshal. destruct (read_text jsonData); try (intros [= <-]; eauto).
    intros Hd%decode_error. eauto.
  - intros [= <-]. apply encode_error in Ee. eauto.
Qed.

(** X1: every error of [Load] is one of ten: the context of the step
    that failed around the error of that step.  The steps that read the
    environment variables and the arguments never fail, so their contexts
    never occur. *)
Theorem Load_errors os a e : Load os a = Err e -> In e load_errors.
Proof.
  unfold Load, getConfigDirectory, getWD, load_errors.
  destruct (withConfigDirectory a) as [dir|];
    [|destruct (Executable os) as [ex|]; [|intros [= <-]; simpl; tauto]];
    cbn [wrap bind].
  all: match goal with
       | |- context [loadConfigFile ?o ?p ∅] =>
         destruct (loadConfigFile o p ∅) as [m1|e1] eqn:E1
       end; cbn [wrap bind];
    [|intros [= <-]; apply loadConfigFile_error in E1; simpl; intuition (subst; eauto 12)].
  all: destruct (withEnvironment a) as [environment|]; cbn [wrap bind].
  all: try match goal with
       | |- context [loadConfigFile ?o ?p ?m] =>
         destruct (loadConfigFile o p m) as [m2|e2] eqn:E2
       end; cbn [wrap bind];
    try (intros [= <-]; apply loadConfigFile_error in E2; simpl; intuition (subst; eauto 12)).
  all: unfold loadEnvVars, loadArgs;
    destruct (withEnvVars a), (withArgs a); cbn [wrap bind].
  all: match goal with
       | |- context [unmarshalToType ?x ?m] =>
         destruct (unmarshalToType x m) as [r|e3] eqn:E3
       end; cbn [wrap]; [discriminate|];
    intros [= <-]; apply unmarshalToType_error in E3; simpl; intuition (subst; eauto 12).
Qed.

Ltac later_steps :=
  repeat (cbn [wrap bind];
          match goal with
          | |- context [wrap ?c ?r] => destruct r
          | |- context [match withEnvironment ?x with _ => _ end] =>
            destruct (withEnvironment x)
          end; cbn [wrap bind]; try discriminate).

(** X2: [Load] fails at the directory exactly when no directory is
    configured and the path of the executable is unknown. *)
Theorem Load_directory_error os a e :
  Load os a = Err (Wrap "failed to get config directory" e)
  <-> withConfigDirectory a = None /\ Executable os = None /\ e = ErrExecutable.
Proof.
  split.
  - unfold Load, getConfigDirectory, getWD.
    destruct (withConfigDirectory a) as [dir|]; [later_steps|].
    destruct (Executable os) as [ex|]; [later_steps|].
    cbn [wrap bind]. by intros [= <-].
  - intros (Hd & Hx & ->). unfold Load, getConfigDirectory, getWD.
    by rewrite Hd, Hx.
Qed.

(** X3: [Load] sees of the machine the directory it resolves and the
    two files it looks for there, and nothing else. *)
Theorem Load_reads_two_files os os' a :
  getConfigDirectory os a = getConfigDirectory os' a ->
  (forall dir,
      getConfigDirectory os a = Ok dir ->
      ReadFile os (Join [dir; "config.json"])
      = ReadFile os' (Join [dir; "config.json"])
      /\ forall environment,
          withEnvironment a = Some environment ->
          ReadFile os (Join [dir; envConfigName environment])
          = ReadFile os' (Join [dir; envConfigName environment])) ->
  Load os a = Load os' a.
Proof.
  intros Hdir Hfiles. unfold Load. rewrite <- Hdir.
  destruct (getConfigDirectory os a) as [dir|e] eqn:Ed; [|done].
  cbn [wrap bind]. destruct (Hfiles dir eq_refl) as [Hbase Henv].
  unfold loadConfigFile. rewrite <- Hbase.
  destruct (withEnvironment a) as [environment|] eqn:Eenv; [|done].
  by rewrite <- (Henv environment eq_refl).
Qed.
End Errors.

(** ** Value inference *)

Lemma existsb_eqb s l : existsb (String.eqb s) l = true <-> In s l.
Proof.
  rewrite existsb_exists. split.
  - intros (x & Hin & ->%String.eqb_eq). done.
  - intros Hin. exists s. by rewrite String.eqb_refl.
Qed.

Lemma ParseBool_spellings raw b :
  ParseBool raw = Some b
  <-> In raw (if b then true_spellings else false_spellings).
Proof.
  unfold ParseBool. fold true_spellings false_spellings.
  destruct (existsb (String.eqb raw) true_spellings) eqn:Et.
  - apply existsb_eqb in Et. split.
    + by intros [= <-].
    + destruct b; [done|]. intros Hf. exfalso.
      simpl in Et, Hf. intuition congruence.
  - destruct (existsb (String.eqb raw) false_spellings) eqn:Ef.
    + apply existsb_eqb in Ef. split; [by intros [= <-]|].
      destruct b; [|done]. intros Ht%existsb_eqb. congruence.
    + split; [done|]. intros Hin. destruct b; apply existsb_eqb in Hin; congruence.
Qed.

(** X10: value inference yields a boolean for exactly twelve spellings;
    among them are [1] and [0], which are therefore never integers. *)
Theorem parseValue_bool raw b :
  parseValue raw = VBool b
  <-> In raw (if b then true_spellings else false_spellings).
Proof.
  rewrite <- ParseBool_spellings. unfold parseValue.
  destruct (ParseBool raw) as [b'|]; [split; congruence|].
  split; [|done]. repeat case_match; discriminate.
Qed.

Lemma digits_acc d : forall p,
  digits (Z.pos p) (NilEmpty.string_of_uint d)
  = Some (Z.pos (Pos.of_uint_acc d p)).
Proof.
  induction d; intros p; simpl; try done;
    rewrite <- IHd; f_equal;
    match goal with
    | |- context [digit_val ?c] =>
      let v := eval vm_compute in (digit_val c) in change (digit_val c) with v
    end; lia.
Qed.

Lemma digits_text d :
  digits 0 (NilEmpty.string_of_uint d) = Some (Z.of_N (Pos.of_uint d)).
Proof.
  induction d; simpl; try done; try apply digits_acc.
Qed.

Lemma digits_pos p :
  digits 0 (NilEmpty.string_of_uint (Pos.to_uint p)) = Some (Z.pos p).
Proof. by rewrite digits_text, DecimalPos.Unsigned.of_to. Qed.

Lemma uint_text_nonnil d : d <> Decimal.Nil -> NilZero.string_of_uint d = NilEmpty.string_of_uint d.
Proof. by destruct d. Qed.

Lemma uint_text_head d :
  d <> Decimal.Nil ->
  exists c r, NilEmpty.string_of_uint d = String c r /\ is_digit c = true.
Proof. destruct d; [done|..]; intros _; simpl; eauto. Qed.

Ltac bool_lia :=
  repeat match goal with
         | E : _ && _ = true |- _ => apply andb_true_iff in E as [? ?]
         | E : _ && _ = false |- _ => apply andb_false_iff in E as [?|?]
         end;
  repeat match goal with
         | E : (_ <=? _) = true |- _ => apply Z.leb_le in E
         | E : (_ <=? _) = false |- _ => apply Z.leb_gt in E
         | E : (_ <? _) = true |- _ => apply Z.ltb_lt in E
         | E : (_ <? _) = false |- _ => apply Z.ltb_ge in E
         end; lia.

Lemma ParseInt_int_text n :
  ParseInt (int_text n) 64
  = if (- 2 ^ 63 <=? n) && (n <? 2 ^ 63) then Some n else None.
Proof.
  destruct n as [|p|p]; [done|..]; unfold int_text; simpl Z.to_int;
    unfold NilZero.string_of_int;
    rewrite uint_text_nonnil by apply Unsigned.to_uint_nonnil;
    pose proof (digits_pos p) as Hd;
    destruct (uint_text_head (Pos.to_uint p) (Unsigned.to_uint_nonnil p))
      as (c & r & Ht & Hc); rewrite Ht in *.
  - unfold ParseInt.
    assert (chr 43 c = false /\ chr 45 c = false) as [-> ->].
    { unfold is_digit, between, chr in *. lia. }
    cbn [orb]. rewrite Hd. cbn [negb andb].
    change (2 ^ (64 - 1)) with 9223372036854775808.
    change (2 ^ 63) with 9223372036854775808.
    repeat case_match; try done; exfalso; bool_lia.
  - unfold ParseInt. cbn [chr byte_val]. 
    change (chr 45 "-") with true. change (chr 43 "-") with false. cbn [orb].
    rewrite Hd. cbn [negb andb].
    change (2 ^ (64 - 1)) with 9223372036854775808.
    change (2 ^ 63) with 9223372036854775808.
    repeat case_match; try done; exfalso; bool_lia.
Qed.

Lemma int_text_head n :
  exists c r, int_text n = String c r /\ (chr 45 c || is_digit c = true).
Proof.
  destruct n as [|p|p]; unfold int_text; simpl; eauto.
  rewrite uint_text_nonnil by apply Unsigned.to_uint_nonnil.
  destruct (uint_text_head (Pos.to_uint p) (Unsigned.to_uint_nonnil p))
    as (c & r & -> & Hc).
  exists c, r. by rewrite Hc, orb_true_r.
Qed.

Lemma ParseBool_int_text n : n <> 0 -> n <> 1 -> ParseBool (int_text n) = None.
Proof.
  intros H0 H1. destruct (ParseBool (int_text n)) as [b|] eqn:Eb; [|done].
  exfalso. apply ParseBool_spellings in Eb.
  assert (int_text n <> "0" /\ int_text n <> "1") as [Hn0 Hn1].
  { split; intros Ht; pose proof (ParseInt_int_text n) as Hn; rewrite Ht in Hn;
      [change (ParseInt "0" 64) with (Some 0) in Hn
      |change (ParseInt "1" 64) with (Some 1) in Hn];
      revert Hn; destruct (_ && _); congruence. }
  destruct (int_text_head n) as (c & r & Ht & Hc). rewrite Ht in *.
  destruct b; simpl in Eb;
    repeat (destruct Eb as [Eb|Eb]; [try congruence; injection Eb as <- _;
                                     vm_compute in Hc; discriminate|]); done.
Qed.

Lemma unorm_zero d l : Decimal.unorm d = Decimal.D0 l -> l = Decimal.Nil.
Proof. induction d; simpl; try done. by intros [= <-]. Qed.

Lemma to_uint_head p :
  exists c r,
    NilEmpty.string_of_uint (Pos.to_uint p) = String c r
    /\ between 49 c 57 = true.
Proof.
  assert (Decimal.unorm (Pos.to_uint p) = Pos.to_uint p) as Hn.
  { rewrite <- DecimalPos.Unsigned.to_of, DecimalPos.Unsigned.of_to. done. }
  pose proof (Unsigned.to_uint_nonzero p) as Hz.
  pose proof (Unsigned.to_uint_nonnil p) as Hnil.
  destruct (Pos.to_uint p) as [|l|l|l|l|l|l|l|l|l|l]; simpl; eauto.
  - done.
  - apply unorm_zero in Hn. congruence.
Qed.

(** ** The decimal text of an integer, read as a float *)

(** One digit of a mantissa that has begun. *)
Ltac mantissa_digit IH :=
  cbn [NilEmpty.string_of_uint read_mantissa];
  match goal with
  | |- context [is_digit ?c] =>
    change (chr 95 c) with false; change (chr 46 c) with false;
    change (is_digit c) with true;
    let z := eval vm_compute in (chr 48 c) in change (chr 48 c) with z;
    let v := eval vm_compute in (digit_val c) in change (digit_val c) with v
  end;
  cbn [mant nd dp sawdot sawdigits andb];
  repeat match goal with
         | |- context [?k =? 0] => replace (k =? 0) with false by lia
         end;
  cbn iota;
  match goal with
  | |- context [Z.pos ?p * 10 + ?v] =>
    let q := eval cbn in (Pos.of_uint_acc Decimal.Nil p) in
    first [ replace (Z.pos p * 10 + v) with (Z.pos (Z.to_pos v + 10 * p)) by lia
          | replace (Z.pos p * 10 + v) with (Z.pos (10 * p)) by lia ]
  end;
  rewrite IH by lia; simpl Pos.of_uint_acc; simpl Z.to_pos; do 2 f_equal; lia.

Lemma read_mantissa_digits d : forall p k,
  0 < k ->
  read_mantissa false
    {| mant := Z.pos p; nd := k; dp := 0; sawdot := false; sawdigits := true |}
    (NilEmpty.string_of_uint d)
  = ({| mant := Z.pos (Pos.of_uint_acc d p);
        nd := k + Z.of_nat (String.length (NilEmpty.string_of_uint d));
        dp := 0; sawdot := false; sawdigits := true |}, EmptyString).
Proof.
  induction d; intros p k Hk; simpl String.length;
    [simpl; do 2 f_equal; lia | mantissa_digit IHd ..].
Qed.

Lemma read_mantissa_uint p :
  exists len,
    0 < len
    /\ read_mantissa false
         {| mant := 0; nd := 0; dp := 0; sawdot := false; sawdigits := false |}
         (NilEmpty.string_of_uint (Pos.to_uint p))
       = ({| mant := Z.pos p; nd := len; dp := 0; sawdot := false;
             sawdigits := true |}, EmptyString).
Proof.
  pose proof (DecimalPos.Unsigned.of_to p) as Hof.
  destruct (to_uint_head p) as (c & r & Ht & Hc).
  destruct (Pos.to_uint p) as [|l|l|l|l|l|l|l|l|l|l]; try discriminate.
  1: { exfalso. simpl in Ht. injection Ht as <- _. done. }
  all: simpl in Hof; injection Hof as Hof.
  all: cbn [NilEmpty.string_of_uint read_mantissa];
    match goal with
    | |- context [is_digit ?c] =>
      change (chr 95 c) with false; change (chr 46 c) with false;
      change (is_digit c) with true; change (chr 48 c) with false;
      let v := eval vm_compute in (digit_val c) in change (digit_val c) with v
    end;
    cbn [mant nd dp sawdot sawdigits andb]; cbn iota;
    change (0 * 10 + ?v) with v; change (0 + 1) with 1;
    rewrite read_mantissa_digits by lia; rewrite Hof;
    eexists; split; [|reflexivity]; lia.
Qed.

Lemma underscore_digits d : forall saw,
  saw <> 95 -> underscore_loop false saw (NilEmpty.string_of_uint d) = true.
Proof.
  induction d; intros saw Hsaw; simpl;
    [by apply negb_true_iff, Z.eqb_neq | by apply IHd ..].
Qed.

Section UnsignedText.
Variable p : positive.
Let U := NilEmpty.string_of_uint (Pos.to_uint p).

Lemma uint_not_hex :
  match U with
  | String c0 (String c1 (String _ _)) => chr 48 c0 && chr 120 (lower_bit c1)
  | _ => false
  end = false.
Proof.
  subst U. destruct (to_uint_head p) as (c & r & -> & Hc).
  assert (chr 48 c = false) as Hz by (unfold between, chr in *; lia).
  destruct r as [|c1 [|c2 r2]]; try done. by rewrite Hz.
Qed.

Lemma underscoreOK_uint : underscoreOK U = true.
Proof.
  pose proof (underscore_digits (Pos.to_uint p) 94 ltac:(lia)) as Hu. fold U in Hu.
  destruct (to_uint_head p) as (c & r & Ht & Hc). fold U in Ht.
  assert (chr 48 c = false /\ chr 45 c = false /\ chr 43 c = false)
    as (Hz & Hm & Hp) by (unfold between, chr in *; lia).
  unfold underscoreOK. rewrite Ht in *. rewrite Hm, Hp. cbn [orb]. cbv zeta.
  destruct r as [|c1 r1]; [done|]. by rewrite Hz.
Qed.

Lemma underscoreOK_negative : underscoreOK (String "-" U) = true.
Proof.
  pose proof (underscore_digits (Pos.to_uint p) 94 ltac:(lia)) as Hu. fold U in Hu.
  destruct (to_uint_head p) as (c & r & Ht & Hc). fold U in Ht.
  assert (chr 48 c = false) as Hz by (unfold between, chr in *; lia).
  unfold underscoreOK. change (chr 45 "-" || chr 43 "-") with true. cbn iota.
  cbv zeta. rewrite Ht in *.
  destruct r as [|c1 r1]; [done|]. by rewrite Hz.
Qed.

Lemma readFloat_tail neg :
  (let '(m, s3) :=
     read_mantissa false
       {| mant := 0; nd := 0; dp := 0; sawdot := false; sawdigits := false |} U in
   if negb (sawdigits m) then None
   else
     let dp0 := if sawdot m then dp m else nd m in
     let dp1 := if false then dp0 * 4 else dp0 in
     let nd1 := if false then nd m * 4 else nd m in
     let finish (dp2 : Z) (rest : string) :=
       Some {| p_neg := neg; p_mant := mant m;
               p_exp := if mant m =? 0 then 0 else dp2 - nd1;
               p_hex := false; p_rest := rest |} in
     let expChar := if false then 112 else 101 in
     match s3 with
     | String ce r3 =>
       if chr expChar (lower_bit ce) then
         match r3 with
         | EmptyString => None
         | String cs r4 =>
           let esign := if chr 45 cs then -1 else 1 in
           let s5 := if chr 43 cs || chr 45 cs then r4 else r3 in
           match s5 with
           | String cd _ =>
             if is_digit cd then
               let '(e, rest) := read_exponent 0 s5 in
               finish (dp1 + e * esign) rest
             else None
           | EmptyString => None
           end
         end
       else if false then None
       else finish dp1 s3
     | EmptyString => if false then None else finish dp1 s3
     end)
  = Some {| p_neg := neg; p_mant := Z.pos p; p_exp := 0; p_hex := false;
            p_rest := EmptyString |}.
Proof.
  destruct (read_mantissa_uint p) as (len & Hlen & Hr). fold U in Hr.
  rewrite Hr. simpl. by rewrite Z.sub_diag.
Qed.

Lemma readFloat_uint :
  readFloat U
  = Some {| p_neg := false; p_mant := Z.pos p; p_exp := 0; p_hex := false;
            p_rest := EmptyString |}.
Proof.
  pose proof uint_not_hex as Hh. pose proof (readFloat_tail false) as Ht.
  destruct (to_uint_head p) as (c & r & HU & Hc). fold U in HU.
  assert (chr 43 c = false /\ chr 45 c = false) as [Hplus Hminus]
      by (unfold between, chr in *; lia).
  unfold readFloat. rewrite HU in *. rewrite Hplus, Hminus. cbn [orb].
  cbv zeta. rewrite Hh. exact Ht.
Qed.

Lemma readFloat_negative :
  readFloat (String "-" U)
  = Some {| p_neg := true; p_mant := Z.pos p; p_exp := 0; p_hex := false;
            p_rest := EmptyString |}.
Proof.
  pose proof uint_not_hex as Hh. pose proof (readFloat_tail true) as Ht.
  unfold readFloat. change (chr 45 "-") with true. change (chr 43 "-") with false.
  cbn [orb]. cbv zeta. rewrite Hh. exact Ht.
Qed.

Lemma special_uint : special U = None.
Proof.
  destruct (to_uint_head p) as (c & r & HU & Hc). fold U in HU. rewrite HU.
  unfold special.
  assert (chr 43 c = false /\ chr 45 c = false /\ chr 105 c = false
          /\ chr 73 c = false /\ chr 110 c = false /\ chr 78 c = false)
    as (-> & -> & -> & -> & -> & ->); [|done].
  unfold between, chr in *. lia.
Qed.

Lemma special_negative : special (String "-" U) = None.
Proof.
  destruct (uint_text_head (Pos.to_uint p) (Unsigned.to_uint_nonnil p))
    as (c & r & HU & Hc). fold U in HU. rewrite HU.
  unfold special. change (chr 43 "-" || chr 45 "-") with true. cbn iota.
  cbn [commonPrefixLenIgnoreCase].
  destruct (Ascii.eqb (ascii_lower c) "i") eqn:E; [|done].
  apply lowered_letter_no_digit in E; [congruence|done].
Qed.

Lemma ParseFloat_uint :
  ParseFloat U
  = if is_inf_or_nan (float_of_int (Z.pos p)) then None
    else Some (float_of_int (Z.pos p)).
Proof.
  unfold ParseFloat. rewrite special_uint, readFloat_uint. cbn [p_rest p_hex p_neg p_mant p_exp].
  rewrite underscoreOK_uint.
  unfold decimal_to_float, float_of_int. simpl Z.leb. cbn iota.
  change (10 ^ 0) with 1. by rewrite Z.mul_1_r.
Qed.

Lemma ParseFloat_negative :
  ParseFloat (String "-" U)
  = if is_inf_or_nan (float_of_int (Z.neg p)) then None
    else Some (float_of_int (Z.neg p)).
Proof.
  unfold ParseFloat. rewrite special_negative, readFloat_negative.
  cbn [p_rest p_hex p_neg p_mant p_exp].
  rewrite underscoreOK_negative.
  unfold decimal_to_float, float_of_int. simpl Z.leb. cbn iota.
  change (10 ^ 0) with 1. by rewrite Z.mul_1_r.
Qed.
End UnsignedText.

Lemma ParseFloat_int_text n :
  ParseFloat (int_text n)
  = if is_inf_or_nan (float_of_int n) then None else Some (float_of_int n).
Proof.
  destruct n as [|p|p]; [reflexivity|..]; unfold int_text; simpl Z.to_int;
    unfold NilZero.string_of_int;
    rewrite uint_text_nonnil by apply Unsigned.to_uint_nonnil.
  - apply ParseFloat_uint.
  - apply ParseFloat_negative.
Qed.

(** ** The nearest float of an integer of 64 bits is finite *)

Lemma digits2_size p : digits2_pos p = Pos.size p.
Proof. induction p; simpl; congruence. Qed.

Lemma Zdigits2_bound m k : 0 <= k -> 0 <= m < 2 ^ k -> Zdigits2 m <= k.
Proof.
  intros Hk [H0 Hm]. destruct m as [|p|p]; simpl; [lia| |lia].
  rewrite digits2_size. pose proof (Pos.size_le p) as Hs.
  apply Pos2Z.pos_le_pos in Hs. rewrite Pos2Z.inj_pow in Hs.
  destruct (decide (Z.pos (Pos.size p) <= k)) as [|Hgt]; [done|].
  assert (2 ^ (k + 1) <= 2 ^ Z.pos (Pos.size p)) by (apply Z.pow_le_mono_r; lia).
  rewrite Z.pow_add_r in * by lia. lia.
Qed.

Lemma shr_1_bound mrs : 0 <= shr_m mrs -> 0 <= shr_m (shr_1 mrs) <= shr_m mrs.
Proof. destruct mrs as [[|[p|p|]|p] r s]; simpl; lia. Qed.

Lemma iter_shr_1_bound k : forall mrs,
  0 <= shr_m mrs -> 0 <= shr_m (SpecFloat.iter_pos shr_1 k mrs) <= shr_m mrs.
Proof.
  induction k as [k IH|k IH|]; intros mrs Hm; simpl.
  - pose proof (shr_1_bound mrs Hm) as H1.
    pose proof (IH (shr_1 mrs) ltac:(lia)) as H2.
    pose proof (IH (SpecFloat.iter_pos shr_1 k (shr_1 mrs)) ltac:(lia)). lia.
  - pose proof (IH mrs Hm) as H2.
    pose proof (IH (SpecFloat.iter_pos shr_1 k mrs) ltac:(lia)). lia.
  - by apply shr_1_bound.
Qed.

Lemma shr_fexp_bound m e l mrs e' :
  0 <= m -> shr_fexp prec emax m e l = (mrs, e') ->
  0 <= shr_m mrs <= m
  /\ e' <= Z.max e (Z.max (Zdigits2 m + e - prec) (emin prec emax)).
Proof.
  intros Hm. unfold shr_fexp, shr, fexp.
  assert (shr_m (shr_record_of_loc m l) = m) as Hl by (by destruct l as [|[]]).
  destruct (_ - e) as [|k|k] eqn:E; intros [= <- <-]; rewrite ?Hl; try lia.
  pose proof (iter_shr_1_bound k (shr_record_of_loc m l)) as Hk.
  rewrite Hl in Hk. lia.
Qed.

Lemma round_nearest_even_bound m l :
  0 <= m -> m <= round_nearest_even m l <= m + 1.
Proof.
  intros Hm. destruct l as [|[]]; simpl; try lia. destruct (Z.even m); lia.
Qed.

Lemma binary_round_aux_finite sx mx ex lx :
  0 <= mx < 2 ^ 64 -> ex <= 0 ->
  is_inf_or_nan (binary_round_aux prec emax sx mx ex lx) = false.
Proof.
  intros Hm He. unfold binary_round_aux.
  destruct (shr_fexp prec emax mx ex lx) as [mrs1 e1] eqn:E1.
  apply shr_fexp_bound in E1 as [Hm1 He1]; [|lia].
  pose proof (Zdigits2_bound mx 64 ltac:(lia) Hm) as Hd.
  pose proof (round_nearest_even_bound (shr_m mrs1) (loc_of_shr_record mrs1)
                ltac:(lia)) as Hr.
  destruct (shr_fexp prec emax _ e1 loc_Exact) as [mrs2 e2] eqn:E2.
  apply shr_fexp_bound in E2 as [Hm2 He2]; [|lia].
  pose proof (Zdigits2_bound (round_nearest_even (shr_m mrs1) (loc_of_shr_record mrs1))
                65 ltac:(lia)) as Hd2.
  assert (2 ^ 65 = 2 * 2 ^ 64) as H65 by done.
  specialize (Hd2 ltac:(lia)).
  unfold prec, emax, emin in *.
  destruct (shr_m mrs2) as [|p|p] eqn:Em; [done| |lia].
  destruct (e2 <=? 1024 - 53) eqn:El; [done|]. apply Z.leb_gt in El. lia.
Qed.

Lemma float_of_int_finite n :
  - 2 ^ 63 <= n < 2 ^ 63 -> is_inf_or_nan (float_of_int n) = false.
Proof.
  intros Hn. unfold float_of_int, binary_normalize.
  assert (forall sx p, Z.pos p <= 2 ^ 63 ->
            is_inf_or_nan (binary_round prec emax sx p 0) = false) as Hround.
  { intros sx p Hp. unfold binary_round, shl_align.
    destruct (_ - 0) as [|k|k] eqn:E.
    - apply binary_round_aux_finite; lia.
    - apply binary_round_aux_finite; lia.
    - apply binary_round_aux_finite.
      + split; [lia|].
        rewrite (Pos.iter_swap_gen _ _ Z.pos xO (Z.mul 2)) by done.
        change (Pos.iter (Z.mul 2) (Z.pos p) k) with (Z.shiftl (Z.pos p) (Z.pos k)).
        rewrite Z.shiftl_mul_pow2 by lia.
        pose proof (Pos.size_gt p) as Hs. apply Pos2Z.pos_lt_pos in Hs.
        rewrite Pos2Z.inj_pow in Hs. rewrite digits2_size in E.
        unfold fexp, prec, emax, emin in E.
        assert (Z.pos k = 53 - Z.pos (Pos.size p)) as -> by lia.
        assert (Z.pos p * 2 ^ (53 - Z.pos (Pos.size p))
                < 2 ^ Z.pos (Pos.size p) * 2 ^ (53 - Z.pos (Pos.size p))) as Hlt.
        { apply Z.mul_lt_mono_pos_r; [apply Z.pow_pos_nonneg; lia|done]. }
        rewrite <- Z.pow_add_r in Hlt by lia.
        replace (Z.pos (Pos.size p) + (53 - Z.pos (Pos.size p))) with 53 in Hlt by lia.
        assert (2 ^ 53 < 2 ^ 64) by done. lia.
      + unfold fexp, prec, emax, emin in *. lia. }
  destruct n as [|p|p]; [done|apply Hround; lia|apply Hround; lia].
Qed.

(** X11: the decimal text of an integer other than 0 and 1 is inferred as
    that integer when it has 64 bits; otherwise as the nearest [float64],
    and when that is infinite the text is kept as a string. *)
Theorem parseValue_int_text n :
  n <> 0 -> n <> 1 ->
  parseValue (int_text n)
  = if decide (- 2 ^ 63 <= n < 2 ^ 63) then VInt n
    else if is_inf_or_nan (float_of_int n) then VString (int_text n)
    else VFloat (float_of_int n).
Proof.
  intros H0 H1. unfold parseValue, Atoi, intSize.
  rewrite ParseBool_int_text, ParseInt_int_text, ParseFloat_int_text by done.
  destruct (decide _) as [Hr|Hr].
  - destruct (_ && _) eqn:E; [done|]. exfalso. bool_lia.
  - destruct (_ && _) eqn:E; [exfalso; bool_lia|].
    by destruct (is_inf_or_nan _).
Qed.

(** X12: a token that is not a spelling of a boolean and does not begin as
    a number does (a digit, a sign, a point, an underscore, or the first
    letter of [inf] and [nan]) is kept as the string it is. *)
Theorem parseValue_keeps_text c r :
  ParseBool (String c r) = None -> starts_number c = false ->
  parseValue (String c r) = VString (String c r).
Proof.
  intros Hb Hs. unfold parseValue. rewrite Hb. unfold starts_number in Hs.
  repeat (apply orb_false_iff in Hs as [Hs ?]).
  assert (chr 48 c = false) as Hz.
  { clear -Hs. unfold is_digit, between, chr in *. lia. }
  unfold Atoi, ParseInt, ParseFloat, special, readFloat.
  repeat match goal with E : _ = false |- _ => rewrite ?E; revert E end.
  intros. cbn [orb]. simpl.
  repeat match goal with E : _ = false |- _ => rewrite ?E; revert E end.
  intros. simpl.
  destruct r as [|c1 [|c2 r2]]; simpl;
    repeat match goal with E : _ = false |- _ => rewrite ?E; revert E end;
    intros; simpl; try done.
Qed.

Lemma append_nil_r (s : string) : s +:+ EmptyString = s.
Proof. induction s as [|c s IH]; [done|]. by rewrite append_cons, IH. Qed.

Lemma append_length (s t : string) :
  String.length (s +:+ t) = (String.length s + String.length t)%nat.
Proof. induction s as [|c s IH]; [done|]. rewrite append_cons. simpl. by rewrite IH. Qed.

(** ** Reading back what the encoder writes *)

Lemma read_string_write_ascii c :
  is_ascii c = true ->
  forall fuel rest,
    read_string (S fuel) (write_ascii c +:+ rest)
    = push (String c EmptyString) (read_string fuel rest).
Proof.
  destruct c as [b0 b1 b2 b3 b4 b5 b6 b7].
  destruct b7; [destruct b0, b1, b2, b3, b4, b5, b6; intros Ha; vm_compute in Ha; discriminate|].
  intros _. destruct b0, b1, b2, b3, b4, b5, b6; intros fuel rest; reflexivity.
Qed.

Lemma write_ascii_nonempty c : (1 <= String.length (write_ascii c))%nat.
Proof.
  unfold write_ascii, escape2, u_escape. repeat case_match; simpl; lia.
Qed.

Lemma write_chars_length fuel : forall s,
  (String.length s <= fuel)%nat ->
  string_forallb is_ascii s = true ->
  (String.length s <= String.length (write_chars fuel s))%nat.
Proof.
  induction fuel as [|fuel IH]; intros [|c r] Hf Ha; simpl in *; try lia.
  apply andb_true_iff in Ha as [Hc Hr]. rewrite Hc, append_length.
  pose proof (write_ascii_nonempty c). specialize (IH r ltac:(lia) Hr). lia.
Qed.

Lemma read_string_written s : forall n fuel rest,
  string_forallb is_ascii s = true ->
  (String.length s <= n)%nat -> (String.length s < fuel)%nat ->
  read_string fuel (write_chars n s +:+ String quote_char rest) = Parsed s rest.
Proof.
  induction s as [|c r IH]; intros n fuel rest Ha Hn Hf.
  - destruct fuel; [simpl in Hf; lia|]. by destruct n.
  - simpl in Ha. apply andb_true_iff in Ha as [Hc Hr].
    destruct n as [|n]; [simpl in Hn; lia|].
    destruct fuel as [|fuel]; [simpl in Hf; lia|].
    cbn [write_chars]. rewrite Hc, append_assoc, read_string_write_ascii by done.
    rewrite IH by (simpl in *; first [done | lia]). reflexivity.
Qed.

(** A string literal, as the encoder writes it, is read back. *)
Lemma read_value_string s fuel depth rest :
  string_forallb is_ascii s = true ->
  read_value (S fuel) depth (write_string s +:+ rest) = Parsed (JString s) rest.
Proof.
  intros Ha. unfold write_string, quoted. rewrite append_cons.
  change (read_value (S fuel) depth (String quote_char ?r))
    with (match read_string (S (String.length r)) r with
          | Parsed str rest => Parsed (JString str) rest
          | Invalid => Invalid
          | Exhausted => Exhausted
          end).
  rewrite append_assoc, append_cons, append_nil.
  rewrite read_string_written; [done|done|done|].
  rewrite append_length. pose proof (write_chars_length (String.length s) s ltac:(lia) Ha).
  simpl. lia.
Qed.

Lemma closes_value_inv c :
  closes_value c = true -> byte_val c = 44 \/ byte_val c = 125.
Proof. unfold closes_value, chr. intros Hc%orb_true_iff. lia. Qed.

Lemma take_digits_text d c rest :
  is_digit c = false ->
  take_digits (NilEmpty.string_of_uint d +:+ String c rest)
  = (NilEmpty.string_of_uint d, String c rest).
Proof.
  intros Hc. induction d; simpl; rewrite ?Hc, ?append_cons; try done;
    cbn [take_digits]; change (is_digit _) with true; cbn iota; by rewrite IHd.
Qed.

Lemma read_number_int_text n c rest :
  closes_value c = true ->
  read_number (int_text n +:+ String c rest) = Parsed (int_text n) (String c rest).
Proof.
  intros Hc%closes_value_inv.
  assert (is_digit c = false /\ chr 46 c = false /\ chr 101 c = false
          /\ chr 69 c = false) as (Hd & Hp & He & HE).
  { unfold is_digit, between, chr. lia. }
  destruct n as [|p|p]; unfold int_text; simpl Z.to_int; unfold NilZero.string_of_int.
  - change (NilZero.string_of_uint (Decimal.D0 Decimal.Nil) +:+ String c rest)
      with (String "0" (String c rest)).
    unfold read_number. simpl. rewrite Hp, He, HE. done.
  - rewrite uint_text_nonnil by apply Unsigned.to_uint_nonnil.
    destruct (to_uint_head p) as (c0 & r0 & Ht & Hc0).
    pose proof (take_digits_text (Pos.to_uint p) c rest Hd) as Htd.
    rewrite Ht in *. unfold read_number. rewrite append_cons in *.
    assert (chr 45 c0 = false /\ chr 48 c0 = false) as [-> ->].
    { unfold between, chr in *. lia. }
    rewrite Hc0, Htd, Hp, He, HE. cbn [orb]. by rewrite append_nil, append_nil_r.
  - rewrite uint_text_nonnil by apply Unsigned.to_uint_nonnil.
    destruct (to_uint_head p) as (c0 & r0 & Ht & Hc0).
    pose proof (take_digits_text (Pos.to_uint p) c rest Hd) as Htd.
    rewrite Ht in *. unfold read_number. rewrite !append_cons in *.
    change (chr 45 "-") with true. cbn iota.
    assert (chr 48 c0 = false) as ->.
    { unfold between, chr in *. lia. }
    rewrite Hc0, Htd, Hp, He, HE. cbn [orb]. by rewrite append_nil_r.
Qed.

Lemma read_value_int_text n fuel depth c rest :
  closes_value c = true ->
  read_value (S fuel) depth (int_text n +:+ String c rest)
  = Parsed (JNumber (int_text n)) (String c rest).
Proof.
  intros Hc. pose proof (read_number_int_text n c rest Hc) as Hr.
  destruct (int_text_head n) as (c0 & r0 & Ht & Hc0). rewrite Ht in *.
  rewrite append_cons in *.
  assert (is_space c0 = false /\ chr 123 c0 = false /\ chr 91 c0 = false
          /\ chr 34 c0 = false) as (Hs & Ho & Ha & Hq).
  { unfold is_space, is_digit, between, chr in *.
    apply orb_true_iff in Hc0. lia. }
  cbn [read_value]. unfold skip_space at 1. rewrite Hs, Ho, Ha, Hq, Hc0, Hr. done.
Qed.

Lemma take_digits_app s c rest d r :
  is_digit c = false ->
  take_digits s = (d, r) ->
  take_digits (s +:+ String c rest) = (d, r +:+ String c rest).
Proof.
  intros Hc. revert d r. induction s as [|x s IH]; intros d r.
  - intros [= <- <-]. rewrite append_nil. simpl. by rewrite Hc.
  - rewrite append_cons. simpl. destruct (is_digit x).
    + destruct (take_digits s) as [d' r'] eqn:E. intros [= <- <-].
      by rewrite (IH d' r').
    + intros [= <- <-]. by rewrite append_cons.
Qed.

Lemma take_digits_split s d r : take_digits s = (d, r) -> s = d +:+ r.
Proof.
  revert d r. induction s as [|x s IH]; intros d r; simpl.
  - by intros [= <- <-].
  - destruct (is_digit x).
    + destruct (take_digits s) as [d' r'] eqn:E. intros [= <- <-].
      rewrite append_cons. f_equal. by apply IH.
    + by intros [= <- <-].
Qed.

Lemma read_number_parts s :
  read_number s
  = match s with
    | String c r =>
      if chr 45 c then number_body (String c EmptyString) r
      else number_body EmptyString s
    | EmptyString => number_body EmptyString s
    end.
Proof. destruct s as [|c r]; [done|]. unfold read_number. by destruct (chr 45 c). Qed.

Section NumberApp.
Variables (c : ascii) (rest : string).
Hypothesis Hc : closes_value c = true.

Lemma closes_value_facts :
  is_digit c = false /\ chr 46 c = false /\ (chr 101 c || chr 69 c) = false
  /\ chr 45 c = false /\ chr 48 c = false /\ between 49 c 57 = false.
Proof.
  pose proof (closes_value_inv c Hc). unfold is_digit, between, chr.
  repeat split; lia.
Qed.

Lemma number_int_app s1 int s2 :
  number_int s1 = Some (int, s2) ->
  number_int (s1 +:+ String c rest) = Some (int, s2 +:+ String c rest).
Proof.
  destruct closes_value_facts as (Hd & _).
  unfold number_int. destruct s1 as [|c1 r1]; [done|]. rewrite append_cons.
  destruct (chr 48 c1); [by intros [= <- <-]|].
  destruct (between 49 c1 57); [|done].
  rewrite <- append_cons. destruct (take_digits (String c1 r1)) as [d' r'] eqn:E.
  intros [= <- <-]. by rewrite (take_digits_app _ _ _ _ _ Hd E).
Qed.

Lemma number_frac_app s2 frac s3 :
  number_frac s2 = Some (frac, s3) ->
  number_frac (s2 +:+ String c rest) = Some (frac, s3 +:+ String c rest).
Proof.
  destruct closes_value_facts as (Hd & Hp & _).
  unfold number_frac. destruct s2 as [|c2 r2].
  - intros [= <- <-]. rewrite append_nil. by rewrite Hp.
  - rewrite append_cons. destruct (chr 46 c2); [|by intros [= <- <-]].
    destruct (take_digits r2) as [d r3] eqn:E.
    rewrite (take_digits_app _ _ _ _ _ Hd E).
    destruct (String.eqb d EmptyString); [done|]. by intros [= <- <-].
Qed.

Lemma number_exp_app mantissa s3 l r :
  number_exp mantissa s3 = Parsed l r ->
  number_exp mantissa (s3 +:+ String c rest) = Parsed l (r +:+ String c rest).
Proof.
  destruct closes_value_facts as (Hd & Hp & He & _).
  unfold number_exp. destruct s3 as [|c3 r3].
  - intros [= <- <-]. rewrite append_nil. by rewrite He.
  - rewrite append_cons. destruct (chr 101 c3 || chr 69 c3); [|by intros [= <- <-]].
    destruct r3 as [|cs r4]; [done|]. rewrite append_cons.
    destruct (chr 43 cs || chr 45 cs).
    + destruct (take_digits r4) as [de re] eqn:Ee.
      rewrite (take_digits_app _ _ _ _ _ Hd Ee).
      destruct (String.eqb de EmptyString); [done|]. by intros [= <- <-].
    + rewrite <- append_cons.
      destruct (take_digits (String cs r4)) as [de re] eqn:Ee.
      rewrite (take_digits_app _ _ _ _ _ Hd Ee).
      destruct (String.eqb de EmptyString); [done|]. by intros [= <- <-].
Qed.

Lemma number_body_app sign s1 l r :
  number_body sign s1 = Parsed l r ->
  number_body sign (s1 +:+ String c rest) = Parsed l (r +:+ String c rest).
Proof.
  unfold number_body.
  destruct (number_int s1) as [[int s2]|] eqn:Ei; [|done].
  rewrite (number_int_app _ _ _ Ei).
  destruct (number_frac s2) as [[frac s3]|] eqn:Ef; [|done].
  rewrite (number_frac_app _ _ _ Ef). apply number_exp_app.
Qed.

(** What follows a number does not change how it is read, when it starts
    with a comma or a closing brace. *)
Lemma read_number_app s l r :
  read_number s = Parsed l r ->
  read_number (s +:+ String c rest) = Parsed l (r +:+ String c rest).
Proof.
  rewrite !read_number_parts. destruct s as [|c0 s0].
  - done.
  - rewrite append_cons. destruct (chr 45 c0).
    + apply number_body_app.
    + rewrite <- append_cons. apply number_body_app.
Qed.
End NumberApp.

Lemma number_body_split sign s1 l r :
  number_body sign s1 = Parsed l r -> sign +:+ s1 = l +:+ r.
Proof.
  unfold number_body, number_int, number_frac, number_exp.
  destruct s1 as [|c1 r1]; [done|].
  assert (forall int s2, String c1 r1 = int +:+ s2 ->
    match
      match s2 with
      | String c r =>
        if chr 46 c then
          let '(d, rest) := take_digits r in
          if String.eqb d EmptyString then None else Some (String c d, rest)
        else Some (EmptyString, s2)
      | EmptyString => Some (EmptyString, s2)
      end
    with
    | None => Invalid
    | Some (frac, s3) =>
      match s3 with
      | String c r =>
        if chr 101 c || chr 69 c then
          let '(esign, s4) :=
            match r with
            | String cs r' =>
              if chr 43 cs || chr 45 cs
              then (String cs EmptyString, r') else (EmptyString, r)
            | EmptyString => (EmptyString, r)
            end in
          let '(d, rest) := take_digits s4 in
          if String.eqb d EmptyString then Invalid
          else Parsed ((sign +:+ int +:+ frac) +:+ String c esign +:+ d) rest
        else Parsed (sign +:+ int +:+ frac) s3
      | EmptyString => Parsed (sign +:+ int +:+ frac) s3
      end
    end = Parsed l r -> sign +:+ String c1 r1 = l +:+ r) as Hrest.
  { intros int s2 ->.
    assert (forall frac s3, s2 = frac +:+ s3 ->
      match s3 with
      | String c r =>
        if chr 101 c || chr 69 c then
          let '(esign, s4) :=
            match r with
            | String cs r' =>
              if chr 43 cs || chr 45 cs
              then (String cs EmptyString, r') else (EmptyString, r)
            | EmptyString => (EmptyString, r)
            end in
          let '(d, rest) := take_digits s4 in
          if String.eqb d EmptyString then Invalid
          else Parsed ((sign +:+ int +:+ frac) +:+ String c esign +:+ d) rest
        else Parsed (sign +:+ int +:+ frac) s3
      | EmptyString => Parsed (sign +:+ int +:+ frac) s3
      end = Parsed l r -> sign +:+ int +:+ s2 = l +:+ r) as Hexp.
    { intros frac s3 ->. destruct s3 as [|c3 r3].
      - intros [= <- <-]. by rewrite !append_nil_r.
      - destruct (chr 101 c3 || chr 69 c3);
          [|intros [= <- <-]; by rewrite !append_assoc].
        destruct r3 as [|cs r4]; [done|].
        destruct (chr 43 cs || chr 45 cs).
        + destruct (take_digits r4) as [de re] eqn:Ee.
          destruct (String.eqb de EmptyString); [done|]. intros [= <- <-].
          apply take_digits_split in Ee as ->.
          by rewrite !append_assoc, !append_cons, !append_nil.
        + destruct (take_digits (String cs r4)) as [de re] eqn:Ee.
          destruct (String.eqb de EmptyString); [done|]. intros [= <- <-].
          apply take_digits_split in Ee as ->.
          by rewrite !append_assoc, !append_cons, !append_nil. }
    destruct s2 as [|c2 r2].
    - apply (Hexp EmptyString EmptyString). done.
    - destruct (chr 46 c2).
      + destruct (take_digits r2) as [d r3] eqn:E.
        destruct (String.eqb d EmptyString); [done|].
        apply (Hexp (String c2 d) r3). rewrite append_cons. f_equal.
        by apply take_digits_split.
      + apply (Hexp EmptyString (String c2 r2)). done. }
  destruct (chr 48 c1).
  - apply (Hrest (String c1 EmptyString) r1). done.
  - destruct (between 49 c1 57); [|done].
    destruct (take_digits (String c1 r1)) as [d r'] eqn:E.
    apply (Hrest d r'). by apply take_digits_split.
Qed.

Lemma read_number_split s l r : read_number s = Parsed l r -> s = l +:+ r.
Proof.
  rewrite read_number_parts. destruct s as [|c0 s0].
  - intros Hb%number_body_split. by rewrite <- Hb.
  - destruct (chr 45 c0).
    + intros Hb%number_body_split. by rewrite <- Hb.
    + intros Hb%number_body_split. by rewrite <- Hb.
Qed.

Lemma read_number_head s l r :
  read_number s = Parsed l r ->
  exists c0 r0, s = String c0 r0 /\ (chr 45 c0 || is_digit c0 = true).
Proof.
  rewrite read_number_parts. destruct s as [|c0 s0]; [done|].
  intros Hb. exists c0, s0. split; [done|].
  destruct (chr 45 c0); [done|]. revert Hb. unfold number_body, number_int.
  destruct (chr 48 c0) eqn:E0.
  - intros _. unfold is_digit, between, chr in *. simpl. lia.
  - destruct (between 49 c0 57) eqn:E1; [|done].
    intros _. simpl. by apply nonzero_digit.
Qed.

Lemma read_value_number_literal lit fuel depth c rest :
  number_literal lit = true -> closes_value c = true ->
  read_value (S fuel) depth (lit +:+ String c rest)
  = Parsed (JNumber lit) (String c rest).
Proof.
  unfold number_literal. intros Hl Hc.
  destruct (read_number lit) as [l r| |] eqn:Er; try done.
  destruct r; [|done].
  pose proof (read_number_split _ _ _ Er) as Hs. rewrite append_nil_r in Hs. subst l.
  pose proof (read_number_app c rest Hc _ _ _ Er) as Hr. rewrite append_nil in Hr.
  destruct (read_number_head _ _ _ Er) as (c0 & r0 & -> & Hc0).
  rewrite append_cons in *.
  assert (is_space c0 = false /\ chr 123 c0 = false /\ chr 91 c0 = false
          /\ chr 34 c0 = false) as (Hs & Ho & Ha & Hq).
  { unfold is_space, is_digit, between, chr in *.
    apply orb_true_iff in Hc0. lia. }
  cbn [read_value]. unfold skip_space at 1. rewrite Hs, Ho, Ha, Hq, Hc0, Hr. done.
Qed.

Section ReadBack.
Context `{GoTables}.

Lemma encode_plain v :
  plain_value v = true ->
  encode v = Ok (text_of v)
  /\ forall fuel depth c rest,
      closes_value c = true ->
      read_value (S fuel) depth (text_of v +:+ String c rest)
      = Parsed (json_of v) (String c rest).
Proof.
  destruct v as [|b|n|f|s|elems|members]; try discriminate; intros Hp;
    unfold text_of; simpl encode.
  - split; [done|]. intros fuel depth c rest _. reflexivity.
  - split; [done|]. intros fuel depth c rest _. destruct b; reflexivity.
  - split; [done|]. intros fuel depth c rest Hc.
    by apply read_value_int_text.
  - apply andb_true_iff in Hp as [Hf Hl]. apply negb_true_iff in Hf. rewrite Hf.
    split; [done|]. intros fuel depth c rest Hc.
    by apply read_value_number_literal.
  - split; [done|]. intros fuel depth c rest _. by apply read_value_string.
Qed.

Lemma encode_members_plain members :
  forallb plain_member members = true ->
  encode (VObject members) = Ok (write_object (map text_member members)).
Proof.
  intros Hp. simpl.
  match goal with |- context [?each members] => is_fix each; set (g := each) end.
  assert (g members = Ok (map text_member members)) as ->; [|done].
  induction members as [|[k v] rest IH]; [done|]. simpl in *.
  apply andb_true_iff in Hp as [Hkv Hrest].
  apply andb_true_iff in Hkv as [Hk Hv]. simpl in *.
  destruct (encode_plain v Hv) as [-> _]. simpl. by rewrite IH.
Qed.

Lemma insert_sorted_text kv members :
  insert_sorted (text_member kv) (map text_member members)
  = map text_member (insert_sorted kv members).
Proof.
  induction members as [|kv' rest IH]; [done|]. simpl.
  destruct (String.leb (fst kv) (fst kv')); [done|]. simpl. by rewrite IH.
Qed.

Lemma sort_members_text members :
  sort_members (map text_member members) = map text_member (sort_members members).
Proof.
  induction members as [|kv rest IH]; [done|]. simpl.
  unfold sort_members in *. by rewrite IH, insert_sorted_text.
Qed.

Lemma insert_sorted_forallb {A} (p : string * A -> bool) kv l :
  forallb p (insert_sorted kv l) = p kv && forallb p l.
Proof.
  induction l as [|kv' rest IH]; [done|]. simpl.
  destruct (String.leb (fst kv) (fst kv')); [done|]. simpl. rewrite IH.
  destruct (p kv), (p kv'); done.
Qed.

Lemma sort_members_forallb {A} (p : string * A -> bool) l :
  forallb p (sort_members l) = forallb p l.
Proof.
  induction l as [|kv rest IH]; [done|]. simpl.
  unfold sort_members in *. by rewrite insert_sorted_forallb, IH.
Qed.

Lemma read_members_step fuel depth s acc :
  read_members (S fuel) depth s acc
  = match skip_space s with
    | String q r =>
      if chr 34 q then
        match read_string (S (String.length r)) r with
        | Parsed key rest =>
          match skip_space rest with
          | String colon r1 =>
            if chr 58 colon then
              match read_value fuel depth r1 with
              | Parsed v rest1 =>
                match skip_space rest1 with
                | String c r2 =>
                  if chr 44 c then read_members fuel depth r2 ((key, v) :: acc)
                  else if chr 125 c then Parsed (JObject (rev ((key, v) :: acc))) r2
                  else Invalid
                | EmptyString => Invalid
                end
              | Invalid => Invalid
              | Exhausted => Exhausted
              end
            else Invalid
          | EmptyString => Invalid
          end
        | Invalid => Invalid
        | Exhausted => Exhausted
        end
      else Invalid
    | EmptyString => Invalid
    end.
Proof. reflexivity. Qed.

(** One member, as the encoder writes it, followed by a comma or by the
    closing brace. *)
Lemma read_member_written fuel depth k v c rest acc :
  plain_member (k, v) = true -> closes_value c = true ->
  read_members (S (S fuel)) depth
    (write_member (text_member (k, v)) +:+ String c rest) acc
  = if chr 44 c then read_members (S fuel) depth rest ((k, json_of v) :: acc)
    else Parsed (JObject (rev ((k, json_of v) :: acc))) rest.
Proof.
  intros Hp Hc. apply andb_true_iff in Hp as [Hk Hv]. simpl in Hk, Hv.
  rewrite read_members_step. unfold write_member, text_member, write_string, quoted.
  cbn [fst snd]. rewrite !append_cons, !append_assoc, !append_cons, !append_nil.
  change (skip_space (String quote_char ?r)) with (String quote_char r).
  change (chr 34 quote_char) with true. cbn iota.
  rewrite read_string_written; [|done|done|].
  2:{ rewrite append_length.
      pose proof (write_chars_length (String.length k) k ltac:(lia) Hk). simpl. lia. }
  change (skip_space (String ":" ?r)) with (String ":" r).
  change (chr 58 ":") with true. cbn iota.
  destruct (encode_plain v Hv) as [_ ->]; [|done].
  assert (skip_space (String c rest) = String c rest) as ->.
  { apply closes_value_inv in Hc. unfold skip_space.
    assert (is_space c = false) as ->; [|done].
    unfold is_space, chr. lia. }
  destruct (chr 44 c) eqn:E44; [done|].
  unfold closes_value in Hc. rewrite E44 in Hc. simpl in Hc. by rewrite Hc.
Qed.

Lemma join_with_cons sep x l :
  l <> [] -> join_with sep (x :: l) = x +:+ sep +:+ join_with sep l.
Proof. by destruct l. Qed.

Lemma read_members_written members : forall fuel depth rest acc,
  members <> [] ->
  forallb plain_member members = true ->
  (List.length members < fuel)%nat ->
  read_members fuel depth
    (join_with "," (map write_member (map text_member members)) +:+ String "}" rest)
    acc
  = Parsed (JObject (rev acc ++ map json_member members)) rest.
Proof.
  induction members as [|[k v] ms IH]; intros fuel depth rest acc Hne Hp Hf; [done|].
  simpl in Hp. apply andb_true_iff in Hp as [Hkv Hms].
  destruct fuel as [|[|fuel]]; [simpl in Hf; lia..|].
  destruct (decide (ms = [])) as [->|Hms'].
  - cbn [map join_with]. rewrite read_member_written by done.
    change (chr 44 "}") with false. by cbn iota.
  - rewrite (map_cons text_member), (map_cons write_member).
    rewrite join_with_cons by (by destruct ms).
    rewrite !append_assoc. change ("," +:+ ?s) with (String "," s).
    rewrite read_member_written by done.
    change (chr 44 ",") with true. cbn iota.
    rewrite IH; [|done|done|simpl in *; lia].
    simpl rev. by rewrite <- List.app_assoc.
Qed.

Lemma write_member_nonempty kv : (1 <= String.length (write_member kv))%nat.
Proof. unfold write_member, write_string, quoted. rewrite append_cons. simpl. lia. Qed.

Lemma join_with_length l :
  (List.length l <= String.length (join_with "," (map write_member l)))%nat.
Proof.
  induction l as [|kv [|kv' rest] IH].
  - simpl. lia.
  - simpl. pose proof (write_member_nonempty kv). lia.
  - cbn [map join_with] in *. rewrite !append_length.
    pose proof (write_member_nonempty kv). simpl in *. lia.
Qed.

(** The text of an object of plain members is read as these members,
    in the order of their keys. *)
Lemma read_text_written members :
  forallb plain_member members = true ->
  read_text (write_object (map text_member members))
  = Parsed (JObject (map json_member (sort_members members))) EmptyString.
Proof.
  intros Hp. unfold write_object. rewrite sort_members_text.
  rewrite <- (sort_members_forallb plain_member) in Hp.
  generalize dependent (sort_members members). clear members. intros members Hp.
  unfold read_text.
  set (data := "{" +:+ join_with "," (map write_member (map text_member members)) +:+ "}").
  assert (List.length members < 2 * String.length data)%nat as Hlen.
  { subst data. rewrite append_cons, append_nil. cbn [String.length].
    rewrite append_length.
    pose proof (join_with_length (map text_member members)) as Hj.
    rewrite length_map in Hj. lia. }
  replace (2 * String.length data + 1)%nat with (S (2 * String.length data)) by lia.
  generalize dependent (2 * String.length data)%nat. intros fuel Hlen.
  subst data. rewrite append_cons, append_nil.
  destruct members as [|[k v] ms]; [reflexivity|].
  assert (read_value (S fuel) 0
            (String "{" (join_with "," (map write_member (map text_member ((k, v) :: ms)))
                         +:+ "}"))
          = read_members fuel 1
              (join_with "," (map write_member (map text_member ((k, v) :: ms))) +:+ "}")
              []) as ->.
  { cbn [map]. set (tail := map write_member (map text_member ms)).
    assert (exists r, join_with "," (write_member (text_member (k, v)) :: tail) +:+ "}"
                      = String quote_char r) as [r ->]; [|reflexivity].
    unfold write_member at 1, write_string, quoted.
    destruct tail; cbn [join_with]; rewrite !append_cons; eauto. }
  rewrite read_members_written by done. done.
Qed.
End ReadBack.

(** ** The order of the keys in the text of a map *)

Lemma leb_trans a : forall b c,
  String.leb a b = true -> String.leb b c = true -> String.leb a c = true.
Proof.
  unfold String.leb. induction a as [|x a IH]; intros [|y b] [|z c]; simpl; try done.
  unfold Ascii.compare.
  destruct (N.compare_spec (N_of_ascii x) (N_of_ascii y)) as [Exy|Lxy|Gxy];
    destruct (N.compare_spec (N_of_ascii y) (N_of_ascii z)) as [Eyz|Lyz|Gyz];
    destruct (N.compare_spec (N_of_ascii x) (N_of_ascii z)) as [Exz|Lxz|Gxz];
    try done; try lia.
  apply IH.
Qed.

Lemma leb_gt a b : String.leb a b = false -> String.leb b a = true.
Proof. destruct (String.leb_total a b); congruence. Qed.

Section Sorting.
Context {A : Type}.
Implicit Types (kv : string * A) (l : list (string * A)).

Lemma insert_sorted_perm kv l : insert_sorted kv l ≡ₚ kv :: l.
Proof.
  induction l as [|kv' rest IH]; [done|]. simpl.
  destruct (String.leb (fst kv) (fst kv')); [done|].
  rewrite IH. apply Permutation_swap.
Qed.

Lemma sort_members_perm l : sort_members l ≡ₚ l.
Proof.
  induction l as [|kv rest IH]; [done|]. unfold sort_members in *. simpl.
  by rewrite insert_sorted_perm, IH.
Qed.

Lemma insert_sorted_sorted kv l :
  StronglySorted key_le l -> StronglySorted key_le (insert_sorted kv l).
Proof.
  induction 1 as [|kv' rest Hs IH Hall]; simpl.
  - repeat constructor.
  - destruct (String.leb (fst kv) (fst kv')) eqn:E.
    + constructor; [by constructor|]. constructor; [done|].
      eapply Forall_impl; [done|]. intros y Hy. unfold key_le in *.
      by eapply leb_trans.
    + constructor; [done|]. rewrite insert_sorted_perm.
      constructor; [|done]. by apply leb_gt.
Qed.

Lemma sort_members_sorted l : StronglySorted key_le (sort_members l).
Proof.
  induction l as [|kv rest IH]; [constructor|]. by apply insert_sorted_sorted.
Qed.
End Sorting.

(** ** Decoding the members of an object into the fields of a struct *)

Section Fields.
Context `{GoTables}.

Lemma zero_struct fields : zero (TStruct fields) = GStruct (zero_fields fields).
Proof.
  simpl. f_equal. induction fields as [|[name t] rest IH]; [done|].
  simpl. by rewrite IH.
Qed.

Lemma decode_object fields cur ms :
  decode (TStruct fields) cur (JObject ms)
  = try l <- decode_fields fields ms (match cur with GStruct l => l | _ => [] end);
    Ok (GStruct l).
Proof.
  simpl. generalize (match cur with GStruct l => l | _ => [] end). clear cur.
  induction ms as [|[key x] rest IH]; intros acc; [done|].
  simpl. destruct (find_field fields key) as [[name t']|]; [|apply IH].
  match goal with |- context [decode t' ?old x] => destruct (decode t' old x) end;
    simpl; [apply IH|done].
Qed.
End Fields.

Lemma field_get_alist_set_ne {A : Type} name tag (v : A) l :
  name <> tag -> field_get tag (alist_set name v l) = field_get tag l.
Proof.
  intros Hne. induction l as [|[k' v'] rest IH]; simpl.
  - destruct (String.eqb_spec name tag); congruence.
  - destruct (String.eqb_spec name k') as [->|Hk]; simpl.
    + destruct (String.eqb_spec k' tag); congruence.
    + by rewrite IH.
Qed.

Section Projection.
Context `{GoTables}.

Lemma plain_overlay_list m :
  plain_overlay m -> forallb plain_member (map_to_list m) = true.
Proof.
  intros Hp. apply forallb_forall. intros [k v] Hin.
  apply list_elem_of_In, elem_of_map_to_list in Hin. by apply (Hp k v).
Qed.

Lemma unmarshalToType_document a m :
  plain_overlay m ->
  unmarshalToType a m = decode (T a) (zero (T a)) (JObject (overlay_members m)).
Proof.
  intros Hp%plain_overlay_list. unfold unmarshalToType, Marshal.
  rewrite encode_members_plain by done. cbn [bind]. unfold Unmarshal.
  by rewrite read_text_written.
Qed.

Lemma decode_plain_cur t v cur :
  plain_value v = true -> v <> VNil ->
  decode t cur (json_of v) = decode t (zero t) (json_of v).
Proof. destruct v; try done; destruct t; done. Qed.

Lemma decode_plain_ok t v cur :
  plain_value v = true ->
  is_ok (decode t cur (json_of v)) = is_ok (decode t (zero t) (json_of v)).
Proof. destruct v; try done; destruct t; done. Qed.

Lemma decode_fields_ok fields l : forall acc,
  forallb plain_member l = true ->
  is_ok (decode_fields fields (map json_member l) acc) = forallb (fits fields) l.
Proof.
  induction l as [|[k v] rest IH]; intros acc Hp; [done|].
  simpl in Hp. apply andb_true_iff in Hp as [Hkv Hrest].
  apply andb_true_iff in Hkv as [_ Hv]. simpl in Hv.
  simpl. unfold fits at 1. simpl.
  destruct (find_field fields k) as [[name t]|]; [|by apply IH].
  rewrite <- (decode_plain_ok t v
                (match field_get name acc with Some v0 => v0 | None => zero t end))
    by done.
  destruct (decode t _ (json_of v)); simpl; [by apply IH|done].
Qed.

Lemma decode_fields_frame fields tag ms : forall acc r,
  decode_fields fields ms acc = Ok r ->
  (forall k j, In (k, j) ms -> targets fields k tag = false) ->
  field_get tag r = field_get tag acc.
Proof.
  induction ms as [|[k j] rest IH]; intros acc r; simpl; [by intros [= <-]|].
  intros Hd Hno. pose proof (Hno k j (or_introl eq_refl)) as Hk.
  assert (forall k' j', In (k', j') rest -> targets fields k' tag = false) as Hrest.
  { intros k' j' Hin. apply (Hno k' j'). by right. }
  unfold targets in Hk.
  destruct (find_field fields k) as [[name t]|]; [|by apply IH].
  destruct (decode t _ j) as [v|]; [|done]. simpl in Hd.
  rewrite (IH _ _ Hd Hrest). apply field_get_alist_set_ne.
  by apply String.eqb_neq.
Qed.

Lemma decode_fields_last fields tag t k j post pre : forall acc r,
  decode_fields fields (pre ++ (k, j) :: post) acc = Ok r ->
  find_field fields k = Some (tag, t) ->
  (forall k' j', In (k', j') post -> targets fields k' tag = false) ->
  exists old x, decode t old j = Ok x /\ field_get tag r = Some x.
Proof.
  induction pre as [|[k0 j0] pre IH]; intros acc r Hd Hk Hpost.
  - simpl in Hd. rewrite Hk in Hd.
    match type of Hd with
    | context [decode t ?old j] => destruct (decode t old j) as [x|] eqn:Ex; [exists old, x|done]
    end.
    split; [done|]. simpl in Hd.
    rewrite (decode_fields_frame _ _ _ _ _ Hd Hpost). apply field_get_alist_set.
  - simpl in Hd. destruct (find_field fields k0) as [[name t0]|]; [|by eapply IH].
    destruct (decode t0 _ j0) as [v|]; [|done]. simpl in Hd. by eapply IH.
Qed.

Lemma field_get_zero_fields fields tag :
  field_get tag (zero_fields fields) = option_map zero (field_get tag fields).
Proof.
  induction fields as [|[name t] rest IH]; [done|]. simpl.
  by destruct (String.eqb name tag).
Qed.

Lemma sorted_members_split (m : gmap string value) k v :
  m !! k = Some v ->
  exists pre post,
    sort_members (map_to_list m) = pre ++ (k, v) :: post
    /\ forall k' v', In (k', v') post -> is_Some (m !! k') /\ k' <> k /\ String.leb k k' = true.
Proof.
  intros Hk. pose proof (sort_members_perm (map_to_list m)) as Hperm.
  pose proof (sort_members_sorted (map_to_list m)) as Hsorted.
  pose proof (NoDup_fst_map_to_list m) as Hnd. rewrite <- Hperm in Hnd.
  assert ((k, v) ∈ sort_members (map_to_list m)) as Hin.
  { rewrite Hperm. by apply elem_of_map_to_list. }
  apply list_elem_of_split in Hin as (pre & post & Hsplit).
  exists pre, post. split; [done|]. intros k' v' Hin'.
  apply list_elem_of_In in Hin'.
  rewrite Hsplit in Hsorted, Hnd, Hperm. split; [|split].
  - exists v'. apply elem_of_map_to_list. rewrite <- Hperm.
    apply elem_of_app. right. by right.
  - intros ->. rewrite fmap_app, fmap_cons in Hnd.
    apply NoDup_app in Hnd as (_ & _ & Hnd). apply NoDup_cons in Hnd as [Hnd _].
    apply Hnd. simpl. apply list_elem_of_fmap. by exists (k, v').
  - apply StronglySorted_app_1_r in Hsorted.
    apply StronglySorted_inv in Hsorted as [_ Hall].
    rewrite Forall_forall in Hall. by apply (Hall (k', v')).
Qed.

(** X13: the projection of an overlay of plain values is the decoding of
    its members taken in the order of their keys; so is the result of
    [Load]. *)
Theorem unmarshalToType_plain a m :
  plain_overlay m ->
  unmarshalToType a m = decode (T a) (zero (T a)) (JObject (overlay_members m))
  /\ forall os,
      overlay os a = Ok m ->
      Load os a
      = wrap "failed to unmarshal config"
          (decode (T a) (zero (T a)) (JObject (overlay_members m))).
Proof.
  intros Hp. split; [by apply unmarshalToType_document|].
  intros os Ho. by rewrite Load_overlay, Ho, <- unmarshalToType_document.
Qed.

(** X14: [Load] succeeds on an overlay of plain values exactly when every
    key that matches a field has a value that the field can hold;
    otherwise it fails with the error of the projection. *)
Theorem Load_succeeds_iff os a fields m :
  T a = TStruct fields -> overlay os a = Ok m -> plain_overlay m ->
  (map_Forall (fun k v => fits fields (k, v) = true) m ->
   exists r, Load os a = Ok (GStruct r))
  /\ (~ map_Forall (fun k v => fits fields (k, v) = true) m ->
      Load os a = Err (Wrap "failed to unmarshal config" UnmarshalTypeError)).
Proof.
  intros HT Ho Hp. rewrite Load_overlay, Ho. cbn [bind].
  rewrite unmarshalToType_document by done. rewrite HT, zero_struct, decode_object.
  pose proof (decode_fields_ok fields (sort_members (map_to_list m))
                (zero_fields fields)) as Hok.
  rewrite sort_members_forallb in Hok. specialize (Hok (plain_overlay_list m Hp)).
  rewrite sort_members_forallb in Hok. fold (overlay_members m) in Hok.
  assert (forallb (fits fields) (map_to_list m) = true
          <-> map_Forall (fun k v => fits fields (k, v) = true) m) as Hiff.
  { rewrite forallb_forall. split.
    - intros Hall k v Hkv. apply (Hall (k, v)).
      by apply list_elem_of_In, elem_of_map_to_list.
    - intros Hall [k v] Hin. apply list_elem_of_In, elem_of_map_to_list in Hin.
      by apply Hall. }
  destruct (decode_fields fields (overlay_members m) (zero_fields fields))
    as [r|e] eqn:Ed; simpl in *.
  - split; [eauto|]. intros Hn. exfalso. apply Hn, Hiff. done.
  - split.
    + intros Hall%Hiff. congruence.
    + intros _. do 2 f_equal.
      apply (decode_error (JObject (overlay_members m)) (TStruct fields)
               (GStruct (zero_fields fields))).
      by rewrite decode_object, Ed.
Qed.

(** X15: after a successful [Load] on an overlay of plain values, a field
    holds the value of the greatest, in the order of the bytes, of the
    keys that match it, whichever source the key came from. *)
Theorem Load_field_greatest_key os a fields m r k v tag t :
  T a = TStruct fields -> overlay os a = Ok m -> plain_overlay m ->
  Load os a = Ok (GStruct r) ->
  m !! k = Some v -> v <> VNil ->
  find_field fields k = Some (tag, t) ->
  (forall k', is_Some (m !! k') -> targets fields k' tag = true ->
              String.leb k' k = true) ->
  exists x, decode t (zero t) (json_of v) = Ok x /\ field_get tag r = Some x.
Proof.
  intros HT Ho Hp HL Hk Hv Hf Hmax.
  rewrite Load_overlay, Ho in HL. cbn [bind] in HL.
  rewrite unmarshalToType_document, HT, zero_struct, decode_object in HL by done.
  destruct (decode_fields fields (overlay_members m) (zero_fields fields))
    as [r'|] eqn:Ed; [|done].
  simpl in HL. injection HL as ->.
  destruct (sorted_members_split m k v Hk) as (pre & post & Hsplit & Hpost).
  unfold overlay_members in Ed. rewrite Hsplit, map_app, map_cons in Ed.
  destruct (decode_fields_last fields tag t k (json_of v) (map json_member post)
              (map json_member pre) _ _ Ed Hf) as (old & x & Hx & Hr).
  - intros k' j' Hin. apply in_map_iff in Hin as ([k'' v'] & [= <- <-] & Hin).
    destruct (Hpost _ _ Hin) as (Hdom & Hne & Hle). simpl.
    destruct (targets fields k'' tag) eqn:Et; [|done].
    exfalso. apply Hne. apply String.leb_antisym; [|done]. by apply Hmax.
  - exists x. split; [|done]. rewrite <- Hx. symmetry. apply decode_plain_cur; [|done].
    pose proof (Hp k v Hk) as Hkv. by apply andb_true_iff in Hkv as [_ ?].
Qed.

(** X17: after a successful [Load] on an overlay of plain values, a field
    that no key matches has the zero value of its type. *)
Theorem Load_field_unmatched os a fields m r tag :
  T a = TStruct fields -> overlay os a = Ok m -> plain_overlay m ->
  Load os a = Ok (GStruct r) ->
  (forall k, is_Some (m !! k) -> targets fields k tag = false) ->
  field_get tag r = option_map zero (field_get tag fields).
Proof.
  intros HT Ho Hp HL Hno.
  rewrite Load_overlay, Ho in HL. cbn [bind] in HL.
  rewrite unmarshalToType_document, HT, zero_struct, decode_object in HL by done.
  destruct (decode_fields fields (overlay_members m) (zero_fields fields))
    as [r'|] eqn:Ed; [|done].
  simpl in HL. injection HL as ->.
  rewrite (decode_fields_frame _ tag _ _ _ Ed), field_get_zero_fields; [done|].
  intros k j Hin. apply in_map_iff in Hin as ([k' v'] & [= <- <-] & Hin).
  apply Hno. exists v'. apply elem_of_map_to_list.
  rewrite <- (sort_members_perm (map_to_list m)). by apply list_elem_of_In.
Qed.
End Projection.

Section EndToEnd.
Context `{GoTables}.

Lemma mismatched_decode v t cur :
  mismatched v t = true -> decode t cur (json_of v) = Err UnmarshalTypeError.
Proof. destruct v; try done; destruct t; done. Qed.

Lemma decode_int n cur :
  - 2 ^ 63 <= n < 2 ^ 63 -> decode TInt cur (json_of (VInt n)) = Ok (GInt n).
Proof.
  intros Hn. simpl. rewrite ParseInt_int_text.
  destruct (_ && _) eqn:E; [done|]. exfalso. bool_lia.
Qed.

Lemma decode_int_float n cur :
  - 2 ^ 63 <= n < 2 ^ 63 ->
  decode TFloat64 cur (json_of (VInt n)) = Ok (GFloat (float_of_int n)).
Proof.
  intros Hn. simpl. by rewrite ParseFloat_int_text, float_of_int_finite.
Qed.

Lemma parseValue_int64 n :
  - 2 ^ 63 <= n < 2 ^ 63 ->
  parseValue (int_text n)
  = if decide (n = 0 \/ n = 1) then VBool (bool_decide (n = 1)) else VInt n.
Proof.
  intros Hrange. destruct (decide (n = 0 \/ n = 1)) as [[-> | ->]|Hne]; [done..|].
  unfold parseValue, Atoi, intSize.
  rewrite ParseBool_int_text, ParseInt_int_text by tauto.
  destruct (_ && _) eqn:E; [done|]. exfalso. bool_lia.
Qed.

Lemma Load_plain os a fields m :
  T a = TStruct fields -> overlay os a = Ok m -> plain_overlay m ->
  Load os a
  = wrap "failed to unmarshal config"
      (try l <- decode_fields fields (overlay_members m) (zero_fields fields);
       Ok (GStruct l)).
Proof.
  intros HT Ho Hp. rewrite Load_overlay, Ho. cbn [bind].
  by rewrite unmarshalToType_document, HT, zero_struct, decode_object.
Qed.

Lemma fits_all fields (m : gmap string value) :
  forallb (fits fields) (sort_members (map_to_list m)) = true
  <-> map_Forall (fun k v => fits fields (k, v) = true) m.
Proof.
  rewrite sort_members_forallb, forallb_forall. split.
  - intros Hall k v Hkv. apply (Hall (k, v)).
    by apply list_elem_of_In, elem_of_map_to_list.
  - intros Hall [k v] Hin. apply list_elem_of_In, elem_of_map_to_list in Hin.
    by apply Hall.
Qed.

Lemma decode_fields_plain fields (m : gmap string value) :
  plain_overlay m ->
  is_ok (decode_fields fields (overlay_members m) (zero_fields fields)) = true
  <-> map_Forall (fun k v => fits fields (k, v) = true) m.
Proof.
  intros Hp. unfold overlay_members. rewrite decode_fields_ok.
  - apply fits_all.
  - rewrite sort_members_forallb. by apply plain_overlay_list.
Qed.

Lemma decode_fields_error fields ms acc e :
  decode_fields fields ms acc = Err e -> e = UnmarshalTypeError.
Proof.
  intros Hd.
  apply (decode_error (JObject ms) (TStruct fields) (GStruct acc)).
  by rewrite decode_object, Hd.
Qed.

(** X18: whatever else an overlay of plain values holds, one key whose
    value is of another kind than the field it matches makes [Load]
    fail. *)
Theorem Load_mismatched_value os a fields m k v tag t :
  T a = TStruct fields -> overlay os a = Ok m -> plain_overlay m ->
  m !! k = Some v -> find_field fields k = Some (tag, t) ->
  mismatched v t = true ->
  Load os a = Err (Wrap "failed to unmarshal config" UnmarshalTypeError).
Proof.
  intros HT Ho Hp Hk Hf Hm. rewrite (Load_plain os a fields m) by done.
  destruct (decode_fields fields (overlay_members m) (zero_fields fields))
    as [r|e] eqn:Ed; simpl.
  - exfalso. assert (fits fields (k, v) = true) as Hfit.
    { apply (decode_fields_plain fields m Hp); [by rewrite Ed|done]. }
    unfold fits in Hfit. simpl in Hfit. rewrite Hf in Hfit.
    by rewrite mismatched_decode in Hfit.
  - by rewrite (decode_fields_error _ _ _ _ Ed).
Qed.

Lemma overlay_members_singleton k v : overlay_members {[ k := v ]} = [(k, json_of v)].
Proof. unfold overlay_members. by rewrite map_to_list_singleton. Qed.

Lemma ToLower_ascii name :
  string_forallb is_ascii name = true ->
  string_forallb is_ascii (ToLower name) = true.
Proof. intros Ha. unfold ToLower. rewrite Ha. by apply lowered_is_ascii. Qed.

Lemma find_field_visible fields key name t :
  find_field fields key = Some (name, t) -> In (name, t) (visible fields).
Proof.
  unfold find_field.
  destruct (find _ (visible fields)) as [f|] eqn:E1.
  - intros [= ->]. by apply find_some in E1 as [? _].
  - intros E2. by apply find_some in E2 as [? _].
Qed.

Lemma Load_single_key os a fields k v tag t :
  T a = TStruct fields -> overlay os a = Ok {[ k := v ]} ->
  plain_member (k, v) = true -> v <> VNil ->
  find_field fields k = Some (tag, t) ->
  Load os a
  = wrap "failed to unmarshal config"
      (try x <- decode t (zero t) (json_of v);
       Ok (GStruct (alist_set tag x (zero_fields fields)))).
Proof.
  intros HT Ho Hp Hv Hf. rewrite (Load_plain os a fields {[ k := v ]}); [|done..|].
  2:{ intros k' v' [<- <-]%lookup_singleton_Some. done. }
  rewrite overlay_members_singleton. simpl. rewrite Hf.
  apply andb_true_iff in Hp as [_ Hp]. simpl in Hp.
  rewrite decode_plain_cur by done.
  by destruct (decode t (zero t) (json_of v)).
Qed.

Lemma overlay_single_variable os dir name raw fields :
  no_separator name = true ->
  ReadFile os (Join [dir; "config.json"]) = NotExist ->
  overlay os (WithEnvVars [name +:+ "=" +:+ raw]
                (WithConfigDirectory dir (New (TStruct fields))))
  = Ok {[ ToLower name := parseValue raw ]}.
Proof.
  intros Hn Hr. unfold overlay, getConfigDirectory.
  cbn [withConfigDirectory withEnvironment WithEnvVars WithArgs
       WithConfigDirectory New wrap bind].
  unfold loadConfigFile. rewrite Hr. cbn [wrap bind].
  unfold loadEnvVars, loadArgs.
  cbn [withEnvVars withArgs WithEnvVars WithArgs WithConfigDirectory New
       wrap bind fold_left].
  change (name +:+ "=" +:+ raw) with (name +:+ String "=" raw).
  by rewrite envVar_step_entry, insert_empty.
Qed.

Lemma overlay_single_flag os dir name raw fields :
  HasPrefix raw "--" = false ->
  ReadFile os (Join [dir; "config.json"]) = NotExist ->
  overlay os (WithArgs ["--" +:+ name; raw]
                (WithConfigDirectory dir (New (TStruct fields))))
  = Ok {[ ToLower name := parseValue raw ]}.
Proof.
  intros Hn Hr. unfold overlay, getConfigDirectory.
  cbn [withConfigDirectory withEnvironment WithEnvVars WithArgs
       WithConfigDirectory New wrap bind].
  unfold loadConfigFile. rewrite Hr. cbn [wrap bind].
  unfold loadEnvVars, loadArgs.
  cbn [withEnvVars withArgs WithEnvVars WithArgs WithConfigDirectory New
       wrap bind fold_left List.length seq].
  rewrite (arg_step_flag _ _ 0 name) by done.
  rewrite (arg_step_inert _ _ 1 raw) by done.
  unfold flag_value. simpl. rewrite Hn. by rewrite insert_empty.
Qed.

(** X20: with no base file, one environment variable, or one flag with
    its value, whose inferred value is plain gives the result in which
    the field matched by the lower-cased name holds the decoded value, and
    the error of the projection when the field cannot hold it. *)
Theorem Load_single_source os dir name raw fields tag t :
  string_forallb is_ascii name = true ->
  plain_value (parseValue raw) = true ->
  ReadFile os (Join [dir; "config.json"]) = NotExist ->
  find_field fields (ToLower name) = Some (tag, t) ->
  let outcome :=
    wrap "failed to unmarshal config"
      (try x <- decode t (zero t) (json_of (parseValue raw));
       Ok (GStruct (alist_set tag x (zero_fields fields)))) in
  (no_separator name = true ->
   Load os (WithEnvVars [name +:+ "=" +:+ raw]
              (WithConfigDirectory dir (New (TStruct fields)))) = outcome)
  /\ (HasPrefix raw "--" = false ->
      Load os (WithArgs ["--" +:+ name; raw]
                 (WithConfigDirectory dir (New (TStruct fields)))) = outcome).
Proof.
  intros Ha Hp Hr Hf outcome.
  assert (plain_member (ToLower name, parseValue raw) = true) as Hm.
  { unfold plain_member. simpl. by rewrite ToLower_ascii, Hp. }
  assert (parseValue raw <> VNil) as Hv.
  { pose proof (parseValue_scalar raw). by destruct (parseValue raw). }
  split; intros Hn.
  - apply (Load_single_key _ _ fields (ToLower name)); try done.
    by apply overlay_single_variable.
  - apply (Load_single_key _ _ fields (ToLower name)); try done.
    by apply overlay_single_flag.
Qed.

(** X21: an integer field takes from an environment variable every
    integer of 64 bits except 0 and 1: these two are inferred as
    booleans, and [Load] fails. *)
Theorem Load_env_integer os dir name n fields tag :
  string_forallb is_ascii name = true -> no_separator name = true ->
  ReadFile os (Join [dir; "config.json"]) = NotExist ->
  find_field fields (ToLower name) = Some (tag, TInt) ->
  - 2 ^ 63 <= n < 2 ^ 63 ->
  Load os (WithEnvVars [name +:+ "=" +:+ int_text n]
             (WithConfigDirectory dir (New (TStruct fields))))
  = if decide (n = 0 \/ n = 1)
    then Err (Wrap "failed to unmarshal config" UnmarshalTypeError)
    else Ok (GStruct (alist_set tag (GInt n) (zero_fields fields))).
Proof.
  intros Ha Hn Hr Hf Hrange.
  pose proof (parseValue_int64 n Hrange) as Hv.
  rewrite (Load_single_key _ _ fields (ToLower name) (parseValue (int_text n)) tag TInt);
    try done.
  - rewrite Hv. destruct (decide (n = 0 \/ n = 1)); [done|].
    by rewrite decode_int.
  - by apply overlay_single_variable.
  - unfold plain_member. simpl. rewrite ToLower_ascii by done. rewrite Hv.
    by destruct (decide (n = 0 \/ n = 1)).
  - rewrite Hv. by destruct (decide (n = 0 \/ n = 1)).
Qed.

(** X24: a [float64] field takes from an environment variable the decimal
    text of an integer of 64 bits, other than 0 and 1, as the float
    nearest to the integer; 0 and 1 are inferred as booleans, and [Load]
    fails. *)
Theorem Load_env_integer_float os dir name n fields tag :
  string_forallb is_ascii name = true -> no_separator name = true ->
  ReadFile os (Join [dir; "config.json"]) = NotExist ->
  find_field fields (ToLower name) = Some (tag, TFloat64) ->
  - 2 ^ 63 <= n < 2 ^ 63 ->
  Load os (WithEnvVars [name +:+ "=" +:+ int_text n]
             (WithConfigDirectory dir (New (TStruct fields))))
  = if decide (n = 0 \/ n = 1)
    then Err (Wrap "failed to unmarshal config" UnmarshalTypeError)
    else Ok (GStruct (alist_set tag (GFloat (float_of_int n)) (zero_fields fields))).
Proof.
  intros Ha Hn Hr Hf Hrange.
  pose proof (parseValue_int64 n Hrange) as Hv.
  rewrite (Load_single_key _ _ fields (ToLower name) (parseValue (int_text n)) tag
             TFloat64); try done.
  - rewrite Hv. destruct (decide (n = 0 \/ n = 1)); [done|].
    by rewrite decode_int_float.
  - by apply overlay_single_variable.
  - unfold plain_member. simpl. rewrite ToLower_ascii by done. rewrite Hv.
    by destruct (decide (n = 0 \/ n = 1)).
  - rewrite Hv. by destruct (decide (n = 0 \/ n = 1)).
Qed.
End EndToEnd.

(** ** The file loader: repeated keys *)

Lemma list_to_map_alist_set k (v : value) l :
  (list_to_map (alist_set k v l) : gmap string value) = <[k := v]> (list_to_map l).
Proof.
  induction l as [|[k' v'] rest IH]; [done|]. simpl.
  destruct (String.eqb_spec k k') as [->|Hne]; simpl.
  - by rewrite insert_insert_eq.
  - rewrite IH. by apply insert_insert_ne.
Qed.

Lemma Unmarshal_map_object data members rest :
  read_text data = Parsed (JObject members) rest ->
  Unmarshal_map data
  = try entries <- to_any_members members ∅; Ok (Some entries).
Proof.
  intros Hr. unfold Unmarshal_map. rewrite Hr. simpl.
  match goal with |- context [?each members []] => is_fix each; set (f := each) end.
  assert (forall l acc,
             match f l acc with
             | Ok kvs => Ok (list_to_map kvs)
             | Err e => Err e
             end = to_any_members l (list_to_map acc)) as Hf.
  { induction l as [|[k x] l IH]; intros acc; [done|]. simpl.
    destruct (to_any x) as [v|]; simpl; [|done].
    by rewrite IH, list_to_map_alist_set. }
  specialize (Hf members []). change (list_to_map []) with (∅ : gmap string value) in Hf.
  rewrite <- Hf. by destruct (f members []).
Qed.

Lemma to_any_members_other l : forall acc F k,
  to_any_members l acc = Ok F -> (forall x, ~ In (k, x) l) -> F !! k = acc !! k.
Proof.
  induction l as [|[k' x'] rest IH]; intros acc F k; simpl; [by intros [= <-]|].
  intros Hm Hk. destruct (to_any x') as [v|]; [|done]. simpl in Hm.
  rewrite (IH _ _ _ Hm).
  - apply lookup_insert_ne. intros ->. apply (Hk x'). by left.
  - intros x Hin. apply (Hk x). by right.
Qed.

Lemma to_any_members_last pre : forall acc F k j post,
  to_any_members (pre ++ (k, j) :: post) acc = Ok F ->
  (forall x, ~ In (k, x) post) ->
  exists v, to_any j = Ok v /\ F !! k = Some v.
Proof.
  induction pre as [|[k0 x0] pre IH]; intros acc F k j post; simpl.
  - intros Hm Hk. destruct (to_any j) as [v|]; [|done]. simpl in Hm.
    exists v. split; [done|]. rewrite (to_any_members_other _ _ _ _ Hm Hk).
    apply lookup_insert_eq.
  - intros Hm Hk. destruct (to_any x0) as [v0|]; [|done]. by eapply IH.
Qed.

(** X7: of the members of the object in a config file that have the same
    key, the last one is the one [loadConfigFile] stores. *)
Theorem loadConfigFile_repeated_key os filePath data pre k j post rest
  (m m' : gmap string value) :
  ReadFile os filePath = FileData data ->
  read_text data = Parsed (JObject (pre ++ (k, j) :: post)) rest ->
  (forall x, ~ In (k, x) post) ->
  loadConfigFile os filePath m = Ok m' ->
  exists v, to_any j = Ok v /\ m' !! k = Some v.
Proof.
  intros Hr Ht Hk. unfold loadConfigFile. rewrite Hr.
  rewrite (Unmarshal_map_object _ _ _ Ht).
  destruct (to_any_members (pre ++ (k, j) :: post) ∅) as [F|] eqn:EF; [|done].
  simpl. intros [= <-].
  destruct (to_any_members_last _ _ _ _ _ _ EF Hk) as (v & Hv & HF).
  exists v. split; [done|]. rewrite merge_entries.
  by apply lookup_union_Some_l.
Qed.

(** ** The stages, applied twice *)

Section Twice.
Context `{GoTables}.

(** X9: each stage of the overlay, run again on its own result, changes
    nothing. *)
Theorem stages_idempotent :
  (forall os filePath (m m' : gmap string value),
      loadConfigFile os filePath m = Ok m' ->
      loadConfigFile os filePath m' = Ok m')
  /\ (forall a (m m' : gmap string value),
         loadEnvVars a m = Ok m' -> loadEnvVars a m' = Ok m')
  /\ (forall a (m m' : gmap string value),
         loadArgs a m = Ok m' -> loadArgs a m' = Ok m').
Proof.
  assert (forall F m : gmap string value, F ∪ (F ∪ m) = F ∪ m) as Hidem.
  { intros F m. by rewrite (assoc_L (∪)), (idemp_L (∪)). }
  split; [|split].
  - intros os filePath m m' Hl.
    assert (exists F, loadConfigFile os filePath ∅ = Ok F) as [F HF].
    { revert Hl. unfold loadConfigFile.
      destruct (ReadFile os filePath); [|by eauto|done].
      destruct (Unmarshal_map data) as [[entries|]|]; simpl; by eauto. }
    rewrite (loadConfigFile_layer _ _ m F HF) in Hl. injection Hl as <-.
    by rewrite (loadConfigFile_layer _ _ (F ∪ m) F HF), Hidem.
  - intros a m m' Hl.
    assert (exists V, loadEnvVars a ∅ = Ok V) as [V HV].
    { unfold loadEnvVars. destruct (withEnvVars a); eauto. }
    rewrite (loadEnvVars_layer _ m V HV) in Hl. injection Hl as <-.
    by rewrite (loadEnvVars_layer _ (V ∪ m) V HV), Hidem.
  - intros a m m' Hl.
    assert (exists A, loadArgs a ∅ = Ok A) as [A HA].
    { unfold loadArgs. destruct (withArgs a); eauto. }
    rewrite (loadArgs_layer _ m A HA) in Hl. injection Hl as <-.
    by rewrite (loadArgs_layer _ (A ∪ m) A HA), Hidem.
Qed.
End Twice.

(** ** The paths of the config files *)

Lemma elements_nonempty s : elements s <> [].
Proof. destruct s as [|c r]; [done|]. simpl. destruct (chr 47 c); [done|]. by destruct (elements r). Qed.

Lemma elements_app_slash a b :
  elements (a +:+ String "/" b) = elements a ++ elements b.
Proof.
  induction a as [|c a IH]; [done|]. rewrite append_cons. simpl.
  rewrite IH. destruct (chr 47 c); [done|].
  pose proof (elements_nonempty a). by destruct (elements a).
Qed.

Lemma Clean_elements p q c r :
  p = String c r -> (exists r', q = String c r') ->
  fold_left (clean_step (chr 47 c)) (elements p) []
  = fold_left (clean_step (chr 47 c)) (elements q) [] ->
  Clean p = Clean q.
Proof. intros -> [r' ->] Hf. unfold Clean. by rewrite Hf. Qed.

Lemma Join_pair dir name :
  dir <> EmptyString -> Join [dir; name] = Clean (dir +:+ String "/" name).
Proof. destruct dir; [done|]. intros _. reflexivity. Qed.

Lemma Join_trailing_slash dir name :
  dir <> EmptyString -> Join [dir +:+ "/"; name] = Join [dir; name].
Proof.
  intros Hd. rewrite !Join_pair by (by destruct dir).
  destruct dir as [|c r]; [done|].
  apply (Clean_elements _ _ c ((r +:+ "/") +:+ String "/" name)).
  - by rewrite !append_cons.
  - rewrite append_cons. eauto.
  - rewrite (append_assoc (String c r)).
    change ("/" +:+ String "/" name) with (String "/" (String "/" name)).
    rewrite !elements_app_slash.
    change (elements (String "/" name)) with (EmptyString :: elements name).
    rewrite !fold_left_app. reflexivity.
Qed.

Section Paths.
Context `{GoTables}.

(** X5: a separator at the end of the configured directory changes
    nothing: the same files are read, and the result is the same. *)
Theorem Load_directory_trailing_slash os dir a :
  dir <> EmptyString ->
  Load os (WithConfigDirectory (dir +:+ "/") a) = Load os (WithConfigDirectory dir a).
Proof.
  intros Hd. unfold Load, getConfigDirectory.
  cbn [withConfigDirectory WithConfigDirectory wrap bind withEnvironment].
  rewrite (Join_trailing_slash dir "config.json") by done.
  destruct (withEnvironment a) as [environment|]; [|done].
  by rewrite (Join_trailing_slash dir (envConfigName environment)).
Qed.
End Paths.

(** X6: the name of the environment is put into the name of the file as
    it is.  For the environment [/../x] the file read is [x.json] in the
    config directory, whatever [x] is. *)
Theorem environment_file_path dir x :
  dir <> EmptyString ->
  Join [dir; envConfigName ("/../" +:+ x)] = Join [dir; x +:+ ".json"].
Proof.
  intros Hd. rewrite !Join_pair by done. destruct dir as [|c r]; [done|].
  apply (Clean_elements _ _ c (r +:+ String "/" (envConfigName ("/../" +:+ x)))).
  - by rewrite append_cons.
  - eauto.
  - unfold envConfigName.
    change ("config." +:+ ("/../" +:+ x) +:+ ".json")
      with ("config." +:+ String "/" (".." +:+ String "/" (x +:+ ".json"))).
    rewrite !elements_app_slash, !fold_left_app.
    change (elements "config.") with ["config."].
    change (elements "..") with [".."]. done.
Qed.

(** ** The directory of the executable *)

Lemma dir_part_no_slash b : no_slash b = true -> dir_part b = EmptyString.
Proof.
  induction b as [|c b IH]; [done|]. simpl.
  intros [Hc Hb]%andb_true_iff. rewrite (IH Hb). simpl.
  by apply negb_true_iff in Hc as ->.
Qed.

Lemma dir_part_app d b :
  no_slash b = true -> dir_part (d +:+ String "/" b) = d +:+ "/".
Proof.
  intros Hb. induction d as [|c d IH].
  - rewrite !append_nil. simpl. by rewrite dir_part_no_slash.
  - rewrite !append_cons. simpl. rewrite IH. by destruct d.
Qed.

Lemma Clean_trailing_slash d : d <> EmptyString -> Clean (d +:+ "/") = Clean d.
Proof.
  intros Hd. destruct d as [|c r]; [done|].
  apply (Clean_elements _ _ c (r +:+ "/")).
  - by rewrite append_cons.
  - eauto.
  - change "/"%string with (String "/" EmptyString) at 1.
    rewrite elements_app_slash, fold_left_app. reflexivity.
Qed.

(** X4: the directory of the executable is its path up to the last
    separator, cleaned; it is the root for an executable in the root. *)
Theorem getWD_directory os d b :
  Executable os = Some (d +:+ "/" +:+ b) -> no_slash b = true ->
  getWD os = Ok (if String.eqb d EmptyString then "/" else Clean d).
Proof.
  intros Hex Hb. unfold getWD, Dir. rewrite Hex.
  change (d +:+ "/" +:+ b) with (d +:+ String "/" b).
  rewrite dir_part_app by done.
  destruct d as [|c r]; [done|]. by rewrite Clean_trailing_slash.
Qed.

(** ** The order of the spellings of a key *)

Lemma byte_val_of z : 0 <= z < 256 -> byte_val (byte_of z) = z.
Proof.
  intros Hz. unfold byte_val, byte_of. rewrite N_ascii_embedding; lia.
Qed.

Lemma byte_val_range c : 0 <= byte_val c < 256.
Proof.
  unfold byte_val. pose proof (N_ascii_bounded c). lia.
Qed.

Lemma byte_val_inj c c' : byte_val c = byte_val c' -> c = c'.
Proof.
  unfold byte_val. intros Hc%N2Z.inj.
  by rewrite <- (ascii_N_embedding c), <- (ascii_N_embedding c'), Hc.
Qed.

Lemma upper_eq_order c c' :
  ascii_upper c' = ascii_upper c -> ascii_lower c = c ->
  c' = c \/ (N_of_ascii c' < N_of_ascii c)%N.
Proof.
  intros Hu Hl. apply (f_equal byte_val) in Hu, Hl. revert Hu Hl.
  unfold ascii_upper, ascii_lower, is_lower, is_upper, between.
  pose proof (byte_val_range c). pose proof (byte_val_range c').
  repeat case_match; rewrite ?byte_val_of by bool_lia; intros Hu Hl;
    first [ left; apply byte_val_inj; bool_lia
          | right; unfold byte_val in *; bool_lia ].
Qed.

Lemma lower_spelling_greatest k : forall k',
  string_map ascii_upper k' = string_map ascii_upper k ->
  string_map ascii_lower k = k ->
  String.leb k' k = true.
Proof.
  unfold String.leb. induction k as [|c k IH]; intros [|c' k']; simpl; try done.
  intros [= Hc Hk] [= Hl Hlk].
  destruct (upper_eq_order c c' Hc Hl) as [->|Hlt].
  - unfold Ascii.compare. rewrite N.compare_refl. by apply IH.
  - unfold Ascii.compare. by apply N.compare_lt_iff in Hlt as ->.
Qed.

Section Spellings.
Context `{GoTables}.

Lemma find_field_fold fields key tag t :
  find_field fields key = Some (tag, t) -> foldName tag = foldName key.
Proof.
  unfold find_field.
  destruct (find _ (visible fields)) as [f|] eqn:E1.
  - intros [= ->]. apply find_some in E1 as [_ E1]. simpl in E1.
    by apply String.eqb_eq in E1 as ->.
  - intros E2. apply find_some in E2 as [_ E2]. simpl in E2.
    by apply String.eqb_eq in E2.
Qed.

Lemma decode_fields_lower_key fields (m : gmap string value) r k v tag t :
  plain_overlay m ->
  decode_fields fields (overlay_members m) (zero_fields fields) = Ok r ->
  m !! k = Some v -> v <> VNil ->
  string_map ascii_lower k = k ->
  find_field fields k = Some (tag, t) ->
  exists x, decode t (zero t) (json_of v) = Ok x /\ field_get tag r = Some x.
Proof.
  intros Hp Ed Hk Hv Hlow Hf.
  destruct (sorted_members_split m k v Hk) as (pre & post & Hsplit & Hpost).
  unfold overlay_members in Ed. rewrite Hsplit, map_app, map_cons in Ed.
  assert (string_forallb is_ascii k = true) as Hka.
  { pose proof (Hp k v Hk) as Hkv. by apply andb_true_iff in Hkv as [? _]. }
  destruct (decode_fields_last fields tag t k (json_of v) (map json_member post)
              (map json_member pre) _ _ Ed Hf) as (old & x & Hx & Hr).
  - intros k' j' Hin. apply in_map_iff in Hin as ([k'' v'] & [= <- <-] & Hin).
    destruct (Hpost _ _ Hin) as ([v'' Hdom] & Hne & Hle). simpl.
    unfold targets. destruct (find_field fields k'') as [[name t']|] eqn:Ef'; [|done].
    destruct (String.eqb_spec name tag) as [->|]; [|done]. exfalso.
    apply Hne. apply String.leb_antisym; [|done].
    apply lower_spelling_greatest; [|done].
    assert (string_forallb is_ascii k'' = true) as Hka'.
    { pose proof (Hp k'' v'' Hdom) as Hkv. by apply andb_true_iff in Hkv as [? _]. }
    rewrite <- !foldName_ascii by done.
    by rewrite <- (find_field_fold _ _ _ _ Ef'), (find_field_fold _ _ _ _ Hf).
  - exists x. split; [|done]. rewrite <- Hx. symmetry. apply decode_plain_cur; [|done].
    pose proof (Hp k v Hk) as Hkv. by apply andb_true_iff in Hkv as [_ ?].
Qed.

(** X16: after a successful [Load] on an overlay of plain values, a field
    matched by a key without upper-case letters holds the value of that
    key: the other spellings of the key come before it in the text that
    is decoded.  So a variable of the environment or a flag with a name
    in ASCII prevails over the files, and so does the lower-case key of
    any file over the other spellings in any other file. *)
Theorem Load_lower_key_wins os a fields m r k v tag t :
  T a = TStruct fields -> overlay os a = Ok m -> plain_overlay m ->
  Load os a = Ok (GStruct r) ->
  m !! k = Some v -> v <> VNil ->
  string_map ascii_lower k = k ->
  find_field fields k = Some (tag, t) ->
  exists x, decode t (zero t) (json_of v) = Ok x /\ field_get tag r = Some x.
Proof.
  intros HT Ho Hp HL Hk Hv Hlow Hf.
  rewrite (Load_plain os a fields m) in HL by done.
  destruct (decode_fields fields (overlay_members m) (zero_fields fields))
    as [r'|] eqn:Ed; [|done].
  simpl in HL. injection HL as ->.
  by apply (decode_fields_lower_key fields m _ k v tag t).
Qed.

(** X22: the environment file does not always prevail over the base
    file.  When the base file gives a field under a key without
    upper-case letters and the environment file gives the same field
    under another spelling of the key, the result of [Load] holds the
    value of the base file. *)
Theorem Load_base_file_prevails os dir environment fields k k' v v' tag t :
  let a := WithEnvironment environment
             (WithConfigDirectory dir (New (TStruct fields))) in
  loadConfigFile os (Join [dir; "config.json"]) ∅ = Ok {[ k := v ]} ->
  loadConfigFile os (Join [dir; envConfigName environment]) ∅ = Ok {[ k' := v' ]} ->
  plain_member (k, v) = true -> plain_member (k', v') = true ->
  v <> VNil -> string_map ascii_lower k = k -> k' <> k ->
  find_field fields k = Some (tag, t) -> find_field fields k' = Some (tag, t) ->
  is_ok (decode t (zero t) (json_of v)) = true ->
  is_ok (decode t (zero t) (json_of v')) = true ->
  overlay os a = Ok {[ k' := v'; k := v ]}
  /\ exists r x,
      Load os a = Ok (GStruct r)
      /\ decode t (zero t) (json_of v) = Ok x
      /\ field_get tag r = Some x.
Proof.
  intros a HB HE Hp Hp' Hv Hlow Hne Hf Hf' Hfit Hfit'.
  assert (overlay os a = Ok {[ k' := v'; k := v ]}) as Ho.
  { rewrite (overlay_layers os a dir {[ k := v ]} {[ k' := v' ]} ∅ ∅);
      try done.
    rewrite !(left_id_L ∅ (∪)). f_equal.
    by rewrite <- insert_union_singleton_l. }
  assert (plain_overlay {[ k' := v'; k := v ]}) as Hplain.
  { intros k0 v0 [[<- <-]|[_ [<- <-]%lookup_singleton_Some]]%lookup_insert_Some;
      done. }
  split; [done|].
  rewrite (Load_plain os a fields {[ k' := v'; k := v ]}) by done.
  destruct (decode_fields fields (overlay_members {[ k' := v'; k := v ]})
              (zero_fields fields)) as [r|e] eqn:Ed.
  - destruct (decode_fields_lower_key fields _ r k v tag t Hplain Ed) as (x & Hx & Hr);
      try done.
    + rewrite lookup_insert_ne by done. apply lookup_singleton_eq.
    + exists r, x. done.
  - exfalso.
    assert (is_ok (decode_fields fields (overlay_members {[ k' := v'; k := v ]})
                     (zero_fields fields)) = true) as Hok; [|by rewrite Ed in Hok].
    apply (decode_fields_plain fields _ Hplain).
    intros k0 v0 [[<- <-]|[_ [<- <-]%lookup_singleton_Some]]%lookup_insert_Some;
      unfold fits; simpl; by rewrite ?Hf, ?Hf'.
Qed.

(** X19: for the types [bool], [int], [float64] and [string], [Load]
    fails on every overlay of plain values, the empty one included: the
    text of a map is an object, which none of them can hold. *)
Theorem Load_scalar_type os a m :
  match T a with TStruct _ => False | _ => True end ->
  overlay os a = Ok m -> plain_overlay m ->
  Load os a = Err (Wrap "failed to unmarshal config" UnmarshalTypeError).
Proof.
  intros HT Ho Hp. rewrite Load_overlay, Ho. cbn [bind].
  rewrite unmarshalToType_document by done.
  by destruct (T a).
Qed.
End Spellings.

Section FileRoundTrip.
Context `{GoTables}.

Lemma text_value_plain v : text_value v = true -> plain_value v = true.
Proof. by destruct v. Qed.

Lemma to_any_text_value v : text_value v = true -> to_any (json_of v) = Ok v.
Proof. by destruct v. Qed.

Lemma to_any_members_text l : forall acc,
  forallb (fun kv => text_value (snd kv)) l = true ->
  to_any_members (map json_member l) acc
  = Ok (fold_left (fun m kv => <[fst kv := snd kv]> m) l acc).
Proof.
  induction l as [|[k v] l IH]; intros acc Hl; [done|]. simpl in *.
  apply andb_true_iff in Hl as [Hv Hl]. rewrite to_any_text_value by done.
  simpl. by apply IH.
Qed.

Lemma fold_insert_distinct (l : list (string * value)) : forall acc : gmap string value,
  NoDup l.*1 ->
  fold_left (fun m kv => <[fst kv := snd kv]> m) l acc = list_to_map l ∪ acc.
Proof.
  induction l as [|[k v] l IH]; intros acc Hnd; simpl.
  - by rewrite (left_id_L ∅ (∪)).
  - apply NoDup_cons in Hnd as [Hk Hnd]. rewrite IH by done.
    rewrite <- insert_union_l. symmetry. apply insert_union_r.
    by apply not_elem_of_list_to_map.
Qed.

Lemma sorted_to_map (m : gmap string value) :
  list_to_map (sort_members (map_to_list m)) = m.
Proof.
  rewrite <- (list_to_map_to_list m) at 2.
  apply list_to_map_proper.
  - rewrite (sort_members_perm (map_to_list m)). apply NoDup_fst_map_to_list.
  - apply sort_members_perm.
Qed.

(** X8: a file that holds the text [json.Marshal] writes for a map of
    strings, booleans and [nil]s, with keys and strings in ASCII, is
    loaded as that map. *)
Theorem loadConfigFile_reads_marshalled os filePath text (m0 m : gmap string value) :
  map_Forall (fun k v => string_forallb is_ascii k && text_value v = true) m0 ->
  Marshal m0 = Ok text ->
  ReadFile os filePath = FileData text ->
  loadConfigFile os filePath m = Ok (m0 ∪ m).
Proof.
  intros Hm0 HM Hr.
  assert (plain_overlay m0) as Hp.
  { intros k v Hkv. specialize (Hm0 k v Hkv). simpl in Hm0.
    apply andb_true_iff in Hm0 as [Hk Hv]. unfold plain_member. simpl.
    by rewrite Hk, text_value_plain. }
  unfold Marshal in HM.
  rewrite encode_members_plain in HM by (by apply plain_overlay_list).
  injection HM as <-.
  unfold loadConfigFile. rewrite Hr.
  rewrite (Unmarshal_map_object _ _ EmptyString
             (read_text_written _ (plain_overlay_list _ Hp))).
  rewrite to_any_members_text.
  - simpl. rewrite merge_entries. do 2 f_equal.
    rewrite fold_insert_distinct.
    + by rewrite (right_id_L ∅ (∪)), sorted_to_map.
    + rewrite (sort_members_perm (map_to_list m0)). apply NoDup_fst_map_to_list.
  - rewrite sort_members_forallb. apply forallb_forall. intros [k v] Hin.
    apply list_elem_of_In, elem_of_map_to_list in Hin.
    specialize (Hm0 k v Hin). simpl in *. by apply andb_true_iff in Hm0 as [_ ?].
Qed.
End FileRoundTrip.

(** ** Loaders as objects *)

Section Receivers.
Context `{GoTables}.

(** X23: a setter returns its receiver and changes this one object.  So
    two loaders made from one base by [WithEnvironment] are one and the
    same: both load with the environment that was set last.  A loader
    from [New] is at a new address, and no setter on it changes another
    loader. *)
Theorem setters_share_receiver os (s : gmap positive AppSettings) base a dev_name prod_name :
  s !! base = Some a ->
  let '(dev, s1) := Pointers.WithEnvironment dev_name base s in
  let '(prod, s2) := Pointers.WithEnvironment prod_name base s1 in
  dev = base /\ prod = base
  /\ Pointers.Load os dev s2 = Some (Load os (WithEnvironment prod_name a))
  /\ Pointers.Load os prod s2 = Some (Load os (WithEnvironment prod_name a))
  /\ (forall other, other <> base -> s2 !! other = s !! other)
  /\ (forall T, (Pointers.New T s2).1 <> base
                /\ (Pointers.New T s2).2 !! base = s2 !! base).
Proof.
  intros Hbase. unfold Pointers.WithEnvironment, Pointers.assign. simpl.
  split; [done|]. split; [done|].
  assert (alter (WithEnvironment prod_name) base
            (alter (WithEnvironment dev_name) base s) !! base
          = Some (WithEnvironment prod_name (WithEnvironment dev_name a))) as Hs2.
  { by rewrite !lookup_alter_eq, Hbase. }
  split; [|split; [|split]].
  - unfold Pointers.Load. by rewrite Hs2.
  - unfold Pointers.Load. by rewrite Hs2.
  - intros other Hne. by rewrite !lookup_alter_ne.
  - intros T. unfold Pointers.New. simpl.
    assert (fresh (dom (alter (WithEnvironment prod_name) base
                          (alter (WithEnvironment dev_name) base s))) <> base) as Hfresh.
    { intros Heq.
      apply (is_fresh (dom (alter (WithEnvironment prod_name) base
                              (alter (WithEnvironment dev_name) base s)))).
      rewrite Heq. apply elem_of_dom. by rewrite Hs2. }
    split; [done|]. by rewrite lookup_insert_ne.
Qed.
End Receivers.

(** ** The tests of the package, on the model *)

(** [TestParseValue] *)
Example TestParseValue :
  map parseValue
    ["true"; "false"; "True"; "FALSE"; "123"; "-456"; "0"; "123.45"; "-67.89";
     "0.0"; "hello"; ""; "123abc"; "true123"]
  = [VBool true; VBool false; VBool true; VBool false; VInt 123; VInt (-456);
     VBool false; VFloat (ratio 12345 100); VFloat (ratio (-6789) 100);
     VFloat (S754_zero false); VString "hello"; VString ""; VString "123abc";
     VString "true123"].
Proof. vm_compute. reflexivity. Qed.

Section PackageTests.
Context `{GoTables}.

(** Running [Load] when one float is encoded, [Htext] giving its text. *)
Ltac run_load Htext :=
  rewrite Load_overlay;
  match goal with
  | |- context [overlay ?os ?a] =>
    let r := eval vm_compute in (overlay os a) in
    replace (overlay os a) with r by (vm_compute; reflexivity)
  end;
  cbn [bind]; unfold unmarshalToType;
  match goal with
  | |- context [Marshal ?m] =>
    let r := eval vm_compute in (Marshal m) in
    replace (Marshal m) with r by (vm_compute; reflexivity)
  end;
  vm_compute in Htext; rewrite Htext; vm_compute; reflexivity.

(** [TestLoadEnvVars] *)
Example TestLoadEnvVars :
  loadEnvVars
    (WithEnvVars ["PORT=8080"; "DATABASEURL=postgres://localhost/test";
                  "DEBUGMODE=true"; "TIMEOUT=30.5"; "NAME=test-app";
                  "INVALID_VAR"; "ANOTHER=INVALID"] (New (TStruct TestConfig))) ∅
  = Ok (list_to_map
          [("port", VInt 8080);
           ("databaseurl", VString "postgres://localhost/test");
           ("debugmode", VBool true); ("timeout", VFloat (ratio 305 10));
           ("name", VString "test-app"); ("another", VString "INVALID")]).
Proof. vm_compute. reflexivity. Qed.

(** [TestLoadArgs] *)
Example TestLoadArgs :
  loadArgs
    (WithArgs ["program"; "--port"; "9000"; "--debug-mode"; "false";
               "--timeout"; "45.5"; "--name"; "cli-app"; "--verbose";
               "--another-flag"; "regular-arg"] (New (TStruct TestConfig))) ∅
  = Ok (list_to_map
          [("port", VInt 9000); ("debug-mode", VBool false);
           ("timeout", VFloat (ratio 455 10)); ("name", VString "cli-app");
           ("verbose", VBool true); ("another-flag", VString "regular-arg")]).
Proof. vm_compute. reflexivity. Qed.

(** [TestLoadConfigFile_InvalidJSON] and [TestLoadConfigFile_ReadError] *)
Example TestLoadConfigFile_errors :
  loadConfigFile (os_of [("/tmp/config.json", "{invalid json}")])
                 "/tmp/config.json" ∅ = Err SyntaxError
  /\ loadConfigFile {| Executable := None; ReadFile := fun _ => ReadFailed |}
                    "/tmp/config.json" ∅ = Err ErrRead.
Proof. split; vm_compute; reflexivity. Qed.

(** [TestLoad_NoConfigFiles] *)
Example TestLoad_NoConfigFiles :
  Load (os_of [])
       (WithEnvVars ["PORT=3000"; "DEBUGMODE=true"]
          (WithEnvironment "nonexistent"
             (WithConfigDirectory "/tmp/dir" (New (TStruct TestConfig)))))
  = Ok (GStruct [("databaseURL", GString ""); ("port", GInt 3000);
                 ("debugMode", GBool true); ("timeout", GFloat (S754_zero false));
                 ("name", GString "")]).
Proof. vm_compute. reflexivity. Qed.

(** [TestLoad_UnmarshalError] *)
Example TestLoad_UnmarshalError :
  Load (os_of [("/tmp/dir/config.json",
                object_text [("port", quoted "not-a-number")])])
       (WithConfigDirectory "/tmp/dir" (New (TStruct TestConfig)))
  = Err (Wrap "failed to unmarshal config" UnmarshalTypeError).
Proof. vm_compute. reflexivity. Qed.

(** [TestLoad_InvalidEnvConfig] *)
Example TestLoad_InvalidEnvConfig :
  Load (os_of [("/tmp/dir/config.json", object_text [("port", "8080")]);
               ("/tmp/dir/config.dev.json", "{invalid}")])
       (WithEnvironment "dev"
          (WithConfigDirectory "/tmp/dir" (New (TStruct TestConfig))))
  = Err (Wrap "failed to load env config" SyntaxError).
Proof. vm_compute. reflexivity. Qed.

(** [TestLoad_FullIntegration], given the text of the one float that is
    encoded.  The file gives the key [debugMode] and the argument the key
    [debugmode]: both are in the overlay, and the second one is decoded
    last. *)
Example TestLoad_FullIntegration :
  float_text (ratio 455 10) = "45.5" ->
  Load (os_of [("/tmp/dir/config.json",
                object_text [("databaseURL", quoted "postgres://localhost/base");
                             ("debugMode", "false"); ("name", quoted "base-app");
                             ("port", "8000"); ("timeout", "10")]);
               ("/tmp/dir/config.dev.json",
                object_text [("databaseURL", quoted "postgres://localhost/dev");
                             ("debugMode", "true"); ("timeout", "20")])])
       (WithArgs ["program"; "--timeout"; "45.5"; "--debugmode"; "false"]
          (WithEnvVars ["PORT=9000"; "NAME=env-app"]
             (WithEnvironment "dev"
                (WithConfigDirectory "/tmp/dir" (New (TStruct TestConfig))))))
  = Ok (GStruct [("databaseURL", GString "postgres://localhost/dev");
                 ("port", GInt 9000); ("debugMode", GBool false);
                 ("timeout", GFloat (ratio 455 10)); ("name", GString "env-app")]).
Proof. intros Htext. run_load Htext. Qed.

(** [TestLoadEnvVars_FullIntegration] *)
Example TestLoadEnvVars_FullIntegration :
  float_text (ratio 255 10) = "25.5" ->
  Load (os_of [])
       (WithEnvVars ["PORT=3000"; "DATABASEURL=postgres://localhost/env-test";
                     "DEBUGMODE=true"; "TIMEOUT=25.5"; "NAME=env-test-app"]
          (WithConfigDirectory "/tmp/dir" (New (TStruct TestConfig))))
  = Ok (GStruct [("databaseURL", GString "postgres://localhost/env-test");
                 ("port", GInt 3000); ("debugMode", GBool true);
                 ("timeout", GFloat (ratio 255 10));
                 ("name", GString "env-test-app")]).
Proof. intros Htext. run_load Htext. Qed.

(** [TestLoadEnvVars_UnderscoreIgnored] *)
Example TestLoadEnvVars_UnderscoreIgnored :
  float_text (ratio 255 10) = "25.5" ->
  Load (os_of [])
       (WithEnvVars ["PORT=3000"; "DATABASE_URL=postgres://localhost/should-ignore";
                     "DEBUG_MODE=true"; "TIMEOUT=25.5"]
          (WithConfigDirectory "/tmp/dir" (New (TStruct TestConfig))))
  = Ok (GStruct [("databaseURL", GString ""); ("port", GInt 3000);
                 ("debugMode", GBool false); ("timeout", GFloat (ratio 255 10));
                 ("name", GString "")]).
Proof. intros Htext. run_load Htext. Qed.

(** [TestUnmarshalToType_InvalidData] *)
Example TestUnmarshalToType_InvalidData :
  unmarshalToType (New (TStruct TestConfig)) {[ "port" := VString "invalid-port" ]}
  = Err UnmarshalTypeError.
Proof. vm_compute. reflexivity. Qed.

(** [TestGetConfigDirectory_WithCustomDirectory] and
    [TestGetConfigDirectory_FallbackToWD] *)
Example TestGetConfigDirectory :
  getConfigDirectory (os_of [])
    (WithConfigDirectory "/tmp/custom" (New (TStruct TestConfig)))
  = Ok "/tmp/custom"
  /\ (forall os, getConfigDirectory os (New (TStruct TestConfig)) = getWD os)
  /\ getWD {| Executable := Some "/usr/local/bin/app"; ReadFile := fun _ => NotExist |}
     = Ok "/usr/local/bin".
Proof. repeat split; vm_compute; reflexivity. Qed.
End PackageTests.

(** * Examples *)

#[local] Existing Instance plain_tables.

Lemma Load_priority_witness :
  ReadFile layered_os (Join ["/etc/app"; "config.json"])
    = FileData ("{" +:+ quoted "port" +:+ ": 8080}")
  /\ ReadFile layered_os (Join ["/etc/app"; envConfigName "dev"])
     = FileData ("{" +:+ quoted "port" +:+ ": 8090}")
  /\ find_field TestConfig "port" = Some ("port", TInt)
  /\ exists result,
      Load layered_os
        (WithArgs ["--port"; "3000"]
           (WithEnvVars ["PORT=9000"]
              (WithEnvironment "dev"
                 (WithConfigDirectory "/etc/app" (New (TStruct TestConfig))))))
      = Ok (GStruct result)
      /\ field_get "port" result = Some (GInt 3000).
Proof.
  split; [vm_compute; reflexivity|].
  split; [vm_compute; reflexivity|].
  split; [vm_compute; reflexivity|].
  apply (proj2 Load_priority layered_os "/etc/app" "dev" TestConfig);
    vm_compute; reflexivity.
Defined.

Lemma stages_keep_keys_witness :
  loadConfigFile layered_os "/etc/app/config.json" {[ "name" := VString "app" ]}
    = Ok {[ "name" := VString "app"; "port" := VFloat float_8080 ]}
  /\ dom ({[ "name" := VString "app" ]} : gmap string value)
       ⊆ dom ({[ "name" := VString "app"; "port" := VFloat float_8080 ]}
               : gmap string value).
Proof.
  assert (loadConfigFile layered_os "/etc/app/config.json"
            {[ "name" := VString "app" ]}
          = Ok {[ "name" := VString "app"; "port" := VFloat float_8080 ]}) as E
      by (vm_compute; reflexivity).
  split; [exact E|].
  exact (proj1 stages_keep_keys layered_os _ _ _ E).
Defined.

Lemma loadConfigFile_null_witness :
  ReadFile (os_with "null") "config.json" = FileData "null"
  /\ loadConfigFile (os_with "null") "config.json" {[ "port" := VInt 1 ]}
     = Ok {[ "port" := VInt 1 ]}.
Proof.
  split; [reflexivity|].
  by apply (proj1 loadConfigFile_null).
Defined.

Lemma loadConfigFile_outcomes_witness :
  ReadFile (os_with "{invalid json}") "config.json" = FileData "{invalid json}"
  /\ (forall j, read_text "{invalid json}" <> Parsed j EmptyString)
  /\ loadConfigFile (os_with "{invalid json}") "config.json" ∅ = Err SyntaxError
  /\ ReadFile file_as_directory_os "/etc/hostname/config.json" = ReadFailed
  /\ loadConfigFile file_as_directory_os "/etc/hostname/config.json" ∅
     = Err ErrRead
  /\ ReadFile file_as_directory_os "/etc/app/config.json" = NotExist
  /\ loadConfigFile file_as_directory_os "/etc/app/config.json" ∅ = Ok ∅.
Proof.
  assert (forall j, read_text "{invalid json}" <> Parsed j EmptyString) as Hno.
  { intros j. vm_compute. discriminate. }
  split; [reflexivity|]. split; [exact Hno|]. split.
  { apply (proj1 (proj2 (proj2 (loadConfigFile_outcomes (os_with "{invalid json}")
                                  "config.json" ∅))) "{invalid json}");
      [reflexivity|exact Hno]. }
  split; [reflexivity|]. split.
  { apply (proj1 (proj2 (loadConfigFile_outcomes file_as_directory_os
                           "/etc/hostname/config.json" ∅))). reflexivity. }
  split; [reflexivity|].
  apply (proj1 (loadConfigFile_outcomes file_as_directory_os
                  "/etc/app/config.json" ∅)). reflexivity.
Defined.

Lemma Load_no_sources_witness :
  let a := WithConfigDirectory "/nonexistent/path/that/does/not/exist"
             (New (TStruct TestConfig)) in
  getConfigDirectory empty_os a = Ok "/nonexistent/path/that/does/not/exist"
  /\ ReadFile empty_os
       (Join ["/nonexistent/path/that/does/not/exist"; "config.json"]) = NotExist
  /\ Load empty_os a = Ok (zero (TStruct TestConfig)).
Proof.
  intros a. split; [reflexivity|]. split; [reflexivity|].
  apply (proj1 (proj2 Load_no_sources) empty_os a
           "/nonexistent/path/that/does/not/exist");
    try reflexivity; try (by left).
Defined.

Lemma separator_in_entry name raw :
  no_separator (name +:+ "=" +:+ raw) = false.
Proof.
  unfold no_separator. induction name as [|c name' IH]; [done|].
  rewrite append_cons. simpl. rewrite IH. apply andb_false_r.
Qed.

Lemma entry_inj name raw name' raw' :
  no_separator name = true -> no_separator name' = true ->
  name +:+ "=" +:+ raw = name' +:+ "=" +:+ raw' -> name = name' /\ raw = raw'.
Proof.
  intros Hn Hn' E.
  pose proof (cut_at_separator name raw Hn) as C.
  change (name +:+ String "=" raw) with (name +:+ "=" +:+ raw) in C.
  rewrite E in C.
  change (name' +:+ "=" +:+ raw') with (name' +:+ String "=" raw') in C.
  rewrite (cut_at_separator name' raw' Hn') in C. by injection C as <- <-.
Qed.

Lemma loadArgs_flags_witness :
  let args := ["--PORT"; "3000"; "stray"; "--Debug"; "--Verbose"] in
  exists m',
    loadArgs (WithArgs args (New (TStruct TestConfig))) ∅ = Ok m'
    /\ m' !! "port" = Some (VInt 3000)
    /\ m' !! "debug" = Some (VBool true)
    /\ m' !! "verbose" = Some (VBool true)
    /\ m' !! "PORT" = None
    /\ m' !! "stray" = None.
Proof.
  intros args.
  destruct (loadArgs_flags args (New (TStruct TestConfig)) ∅)
    as (_ & _ & _ & _ & (m' & Hload & Hflag & Hother) & _).
  assert (forall i X, args !! i = Some ("--" +:+ X) ->
            (i = 0%nat /\ X = "PORT") \/ (i = 3%nat /\ X = "Debug")
            \/ (i = 4%nat /\ X = "Verbose")) as Hinv.
  { intros i X Hi. rewrite flag_token in Hi.
    destruct i as [|[|[|[|[|i]]]]]; try discriminate Hi;
      injection Hi as <-; tauto. }
  exists m'. split; [exact Hload|].
  split; [|split; [|split; [|split]]].
  - apply (Hflag 0%nat "PORT"); [reflexivity|].
    intros j X' Hlt Hj.
    destruct (Hinv j X' Hj) as [[-> ->]|[[-> ->]|[-> ->]]];
      [lia|vm_compute; discriminate..].
  - apply (Hflag 3%nat "Debug"); [reflexivity|].
    intros j X' Hlt Hj.
    destruct (Hinv j X' Hj) as [[-> ->]|[[-> ->]|[-> ->]]];
      [lia..|vm_compute; discriminate].
  - apply (Hflag 4%nat "Verbose"); [reflexivity|].
    intros j X' Hlt Hj.
    destruct (Hinv j X' Hj) as [[-> ->]|[[-> ->]|[-> ->]]]; lia.
  - apply (Hother "PORT"). intros i X Hi.
    destruct (Hinv i X Hi) as [[-> ->]|[[-> ->]|[-> ->]]];
      vm_compute; discriminate.
  - apply (Hother "stray"). intros i X Hi.
    destruct (Hinv i X Hi) as [[-> ->]|[[-> ->]|[-> ->]]];
      vm_compute; discriminate.
Defined.

Lemma loadEnvVars_entries_witness :
  let envVars := ["PORT=3000"; "DEBUG=true"; "TIMEOUT=30.5";
                  "DATABASE_URL=postgres"; "INVALID_VAR"] in
  exists m',
    loadEnvVars (WithEnvVars envVars (New (TStruct TestConfig))) ∅ = Ok m'
    /\ m' !! "port" = Some (VInt 3000)
    /\ m' !! "debug" = Some (VBool true)
    /\ m' !! "timeout" = Some (VFloat (ratio 305 10))
    /\ m' !! "database_url" = Some (VString "postgres")
    /\ m' !! "DATABASE_URL" = None
    /\ m' !! "invalid_var" = None.
Proof.
  intros envVars.
  destruct (loadEnvVars_entries envVars (New (TStruct TestConfig)) ∅)
    as (_ & _ & _ & (m' & Hload & Hentry & Hother) & _).
  assert (forall i name raw,
             envVars !! i = Some (name +:+ "=" +:+ raw) ->
             no_separator name = true ->
             (i = 0%nat /\ name = "PORT") \/ (i = 1%nat /\ name = "DEBUG")
             \/ (i = 2%nat /\ name = "TIMEOUT")
             \/ (i = 3%nat /\ name = "DATABASE_URL")) as Hinv.
  { intros i name raw Hi Hname.
    destruct i as [|[|[|[|[|i]]]]]; [| | | |exfalso|done]; injection Hi as Hi.
    - left. split; [done|].
      by destruct (entry_inj "PORT" "3000" name raw eq_refl Hname Hi) as [<- _].
    - right; left. split; [done|].
      by destruct (entry_inj "DEBUG" "true" name raw eq_refl Hname Hi) as [<- _].
    - right; right; left. split; [done|].
      by destruct (entry_inj "TIMEOUT" "30.5" name raw eq_refl Hname Hi) as [<- _].
    - right; right; right. split; [done|].
      by destruct (entry_inj "DATABASE_URL" "postgres" name raw eq_refl Hname Hi)
        as [<- _].
    - pose proof (separator_in_entry name raw) as Hsep.
      rewrite <- Hi in Hsep. discriminate Hsep. }
  exists m'. split; [exact Hload|].
  split; [|split; [|split; [|split; [|split]]]].
  - apply (Hentry 0%nat "PORT" "3000"); [reflexivity..|].
    intros j name' raw' Hlt Hj Hname'.
    destruct (Hinv j name' raw' Hj Hname') as [[-> ->]|[[-> ->]|[[-> ->]|[-> ->]]]];
      [lia|vm_compute; discriminate..].
  - apply (Hentry 1%nat "DEBUG" "true"); [reflexivity..|].
    intros j name' raw' Hlt Hj Hname'.
    destruct (Hinv j name' raw' Hj Hname') as [[-> ->]|[[-> ->]|[[-> ->]|[-> ->]]]];
      [lia..|vm_compute; discriminate|vm_compute; discriminate].
  - apply (Hentry 2%nat "TIMEOUT" "30.5"); [reflexivity..|].
    intros j name' raw' Hlt Hj Hname'.
    destruct (Hinv j name' raw' Hj Hname') as [[-> ->]|[[-> ->]|[[-> ->]|[-> ->]]]];
      [lia..|vm_compute; discriminate].
  - apply (Hentry 3%nat "DATABASE_URL" "postgres"); [reflexivity..|].
    intros j name' raw' Hlt Hj Hname'.
    destruct (Hinv j name' raw' Hj Hname') as [[-> ->]|[[-> ->]|[[-> ->]|[-> ->]]]];
      lia.
  - apply (Hother "DATABASE_URL"). intros i name raw Hi Hname.
    destruct (Hinv i name raw Hi Hname) as [[-> ->]|[[-> ->]|[[-> ->]|[-> ->]]]];
      vm_compute; discriminate.
  - apply (Hother "invalid_var"). intros i name raw Hi Hname.
    destruct (Hinv i name raw Hi Hname) as [[-> ->]|[[-> ->]|[[-> ->]|[-> ->]]]];
      vm_compute; discriminate.
Defined.

Lemma projection_matches_witness :
  string_map ascii_lower "DATABASEURL" = string_map ascii_lower "databaseURL"
  /\ decode (TStruct [("databaseURL", TString)])
            (zero (TStruct [("databaseURL", TString)]))
            (JObject [(ToLower "DATABASEURL", JString "postgres")])
     = Ok (GStruct [("databaseURL", GString "postgres")]).
Proof.
  split; [reflexivity|].
  by apply (proj2 (proj2 (proj2 projection_matches_up_to_case))).
Defined.

Lemma marshal_step_witness :
  let a := WithArgs ["NaN"; "--port"; "3000"]
             (WithEnvVars ["TIMEOUT=30.5"; "NaN"]
                (WithEnvironment "dev"
                   (WithConfigDirectory "/etc/app" (New (TStruct TestConfig))))) in
  finite_inferred "NaN" = false
  /\ exists m jsonData,
      overlay layered_os a = Ok m
      /\ Marshal m = Ok jsonData
      /\ Load layered_os a
         = wrap "failed to unmarshal config" (Unmarshal jsonData (T a)).
Proof.
  intros a. split; [vm_compute; reflexivity|].
  assert (forall raw, env_value (default [] (withEnvVars a)) raw ->
                      finite_inferred raw = true) as Hvars.
  { intros raw (name & Hname & Hin).
    change (default [] (withEnvVars a)) with ["TIMEOUT=30.5"; "NaN"] in Hin.
    apply elem_of_cons in Hin as [Hin|Hin%list_elem_of_singleton].
    - destruct (entry_inj name raw "TIMEOUT" "30.5" Hname eq_refl Hin) as [_ ->].
      vm_compute. reflexivity.
    - pose proof (separator_in_entry name raw) as Hsep.
      rewrite Hin in Hsep. discriminate Hsep. }
  assert (forall raw, arg_value (default [] (withArgs a)) raw ->
                      finite_inferred raw = true) as Hargs.
  { intros raw (i & X & Hi & Hnext & _).
    change (default [] (withArgs a)) with ["NaN"; "--port"; "3000"] in Hi, Hnext.
    rewrite flag_token in Hi.
    destruct i as [|[|[|i]]]; try discriminate Hi.
    injection Hnext as <-. vm_compute. reflexivity. }
  destruct (overlay layered_os a) as [m|] eqn:Hm;
    [|vm_compute in Hm; discriminate Hm].
  pose proof (proj2 (proj2 (proj2 (proj2 (proj2 (proj2 (proj2 (proj2
                marshal_step_succeeds))))))) layered_os a Hvars Hargs m Hm)
    as (jsonData & HM & HL).
  exists m, jsonData. split; [reflexivity|]. split; [exact HM|exact HL].
Defined.

(** ** Examples for the further properties *)

Lemma Load_errors_witness :
  Load (os_with "{invalid json}")
       (WithConfigDirectory "/etc/app" (New (TStruct TestConfig)))
  = Err (Wrap "failed to load base config" SyntaxError)
  /\ In (Wrap "failed to load base config" SyntaxError) load_errors.
Proof.
  split; [vm_compute; reflexivity|].
  apply (Load_errors (os_with "{invalid json}")
           (WithConfigDirectory "/etc/app" (New (TStruct TestConfig)))).
  vm_compute. reflexivity.
Defined.

Lemma Load_reads_two_files_witness :
  getConfigDirectory layered_os
    (WithEnvironment "dev" (WithConfigDirectory "/etc/app" (New (TStruct TestConfig))))
  = getConfigDirectory crowded_os
      (WithEnvironment "dev" (WithConfigDirectory "/etc/app" (New (TStruct TestConfig))))
  /\ ReadFile crowded_os "/etc/app/notes.json" <> ReadFile layered_os "/etc/app/notes.json"
  /\ Load layered_os
       (WithEnvironment "dev" (WithConfigDirectory "/etc/app" (New (TStruct TestConfig))))
     = Load crowded_os
         (WithEnvironment "dev" (WithConfigDirectory "/etc/app" (New (TStruct TestConfig)))).
Proof.
  split; [reflexivity|]. split; [discriminate|].
  apply Load_reads_two_files; [reflexivity|].
  intros dir [= <-]. split; [reflexivity|]. intros environment [= <-]. reflexivity.
Defined.

Lemma getWD_directory_witness :
  no_slash "app" = true
  /\ getWD crowded_os = Ok "/usr/local/bin".
Proof.
  split; [reflexivity|].
  apply (getWD_directory crowded_os "/usr/local/bin" "app"); reflexivity.
Defined.

Lemma Load_directory_trailing_slash_witness :
  "/etc/app" <> EmptyString
  /\ Load layered_os (WithConfigDirectory "/etc/app/" port_loader)
     = Load layered_os (WithConfigDirectory "/etc/app" port_loader).
Proof.
  split; [discriminate|].
  apply (Load_directory_trailing_slash layered_os "/etc/app" port_loader).
  discriminate.
Defined.

Lemma environment_file_path_witness :
  "/etc/app" <> EmptyString
  /\ Join ["/etc/app"; envConfigName "/../../secrets/db"] = "/etc/secrets/db.json".
Proof.
  split; [discriminate|].
  exact (environment_file_path "/etc/app" "../secrets/db" ltac:(discriminate)).
Defined.

Lemma loadConfigFile_repeated_key_witness :
  read_text (object_text [("a", quoted "x"); ("a", quoted "y")])
  = Parsed (JObject ([("a", JString "x")] ++ ("a", JString "y") :: [])) EmptyString
  /\ loadConfigFile (os_with (object_text [("a", quoted "x"); ("a", quoted "y")]))
       "config.json" ∅
     = Ok {[ "a" := VString "y" ]}
  /\ exists v, to_any (JString "y") = Ok v
               /\ ({[ "a" := VString "y" ]} : gmap string value) !! "a" = Some v.
Proof.
  split; [vm_compute; reflexivity|]. split; [vm_compute; reflexivity|].
  apply (loadConfigFile_repeated_key
           (os_with (object_text [("a", quoted "x"); ("a", quoted "y")]))
           "config.json" (object_text [("a", quoted "x"); ("a", quoted "y")])
           [("a", JString "x")] "a" (JString "y") [] EmptyString ∅).
  - reflexivity.
  - vm_compute. reflexivity.
  - intros x [].
  - vm_compute. reflexivity.
Defined.

Lemma parseValue_int_text_witness :
  parseValue (int_text 3000) = VInt 3000
  /\ parseValue (int_text (2 ^ 63)) = VFloat (float_of_int (2 ^ 63))
  /\ parseValue (int_text (10 ^ 400)) = VString (int_text (10 ^ 400)).
Proof.
  split; [|split].
  - apply (parseValue_int_text 3000); lia.
  - apply (parseValue_int_text (2 ^ 63)); lia.
  - apply (parseValue_int_text (10 ^ 400)); lia.
Defined.

Lemma parseValue_keeps_text_witness :
  ParseBool " 42" = None /\ starts_number " " = false
  /\ parseValue " 42" = VString " 42".
Proof.
  split; [reflexivity|]. split; [reflexivity|].
  apply (parseValue_keeps_text " " "42"); reflexivity.
Defined.

Lemma port_overlay_plain : plain_overlay {[ "port" := VInt 3000 ]}.
Proof. intros k v [<- <-]%lookup_singleton_Some. reflexivity. Qed.

Lemma unmarshalToType_plain_witness :
  unmarshalToType port_loader {[ "port" := VInt 3000 ]}
  = decode (TStruct TestConfig) (zero (TStruct TestConfig))
      (JObject [("port", JNumber "3000")]).
Proof.
  apply (proj1 (unmarshalToType_plain port_loader {[ "port" := VInt 3000 ]}
                  port_overlay_plain)).
Defined.

Lemma Load_succeeds_iff_witness :
  overlay empty_os port_loader = Ok {[ "port" := VInt 3000 ]}
  /\ map_Forall (fun k v => fits TestConfig (k, v) = true)
       ({[ "port" := VInt 3000 ]} : gmap string value)
  /\ exists r, Load empty_os port_loader = Ok (GStruct r).
Proof.
  assert (map_Forall (fun k v => fits TestConfig (k, v) = true)
            ({[ "port" := VInt 3000 ]} : gmap string value)) as Hfits.
  { intros k v [<- <-]%lookup_singleton_Some. reflexivity. }
  assert (overlay empty_os port_loader = Ok {[ "port" := VInt 3000 ]}) as Ho.
  { vm_compute. reflexivity. }
  split; [exact Ho|]. split; [exact Hfits|].
  apply (proj1 (Load_succeeds_iff empty_os port_loader TestConfig
                  {[ "port" := VInt 3000 ]} eq_refl Ho port_overlay_plain)).
  exact Hfits.
Defined.

Lemma Load_field_greatest_key_witness :
  Load empty_os port_loader
  = Ok (GStruct [("databaseURL", GString ""); ("port", GInt 3000);
                 ("debugMode", GBool false); ("timeout", GFloat (S754_zero false));
                 ("name", GString "")])
  /\ exists x, decode TInt (zero TInt) (json_of (VInt 3000)) = Ok x
               /\ field_get "port"
                    [("databaseURL", GString ""); ("port", GInt 3000);
                     ("debugMode", GBool false); ("timeout", GFloat (S754_zero false));
                     ("name", GString "")] = Some x.
Proof.
  split; [vm_compute; reflexivity|].
  apply (Load_field_greatest_key empty_os port_loader TestConfig
           {[ "port" := VInt 3000 ]} _ "port" (VInt 3000) "port" TInt).
  - reflexivity.
  - vm_compute. reflexivity.
  - exact port_overlay_plain.
  - vm_compute. reflexivity.
  - reflexivity.
  - discriminate.
  - reflexivity.
  - intros k' [v' [<- _]%lookup_singleton_Some] _. reflexivity.
Defined.

Lemma capital_overlay_plain :
  plain_overlay {[ "Name" := VString "base"; "name" := VString "env" ]}.
Proof.
  intros k v [[<- <-]|[_ [<- <-]%lookup_singleton_Some]]%lookup_insert_Some;
    reflexivity.
Qed.

Lemma Load_lower_key_wins_witness :
  overlay capital_os
    (WithEnvVars ["NAME=env"] (WithConfigDirectory "/etc/app" (New (TStruct TestConfig))))
  = Ok {[ "Name" := VString "base"; "name" := VString "env" ]}
  /\ exists r,
      Load capital_os
        (WithEnvVars ["NAME=env"]
           (WithConfigDirectory "/etc/app" (New (TStruct TestConfig))))
      = Ok (GStruct r)
      /\ exists x, decode TString (zero TString) (json_of (VString "env")) = Ok x
                   /\ field_get "name" r = Some x.
Proof.
  split; [vm_compute; reflexivity|]. eexists. split; [vm_compute; reflexivity|].
  apply (Load_lower_key_wins capital_os
           (WithEnvVars ["NAME=env"]
              (WithConfigDirectory "/etc/app" (New (TStruct TestConfig))))
           TestConfig {[ "Name" := VString "base"; "name" := VString "env" ]}
           _ "name" (VString "env") "name" TString).
  - reflexivity.
  - vm_compute. reflexivity.
  - exact capital_overlay_plain.
  - vm_compute. reflexivity.
  - reflexivity.
  - discriminate.
  - reflexivity.
  - reflexivity.
Defined.

Lemma Load_field_unmatched_witness :
  Load empty_os port_loader
  = Ok (GStruct [("databaseURL", GString ""); ("port", GInt 3000);
                 ("debugMode", GBool false); ("timeout", GFloat (S754_zero false));
                 ("name", GString "")])
  /\ field_get "name"
       [("databaseURL", GString ""); ("port", GInt 3000);
        ("debugMode", GBool false); ("timeout", GFloat (S754_zero false));
        ("name", GString "")]
     = option_map zero (field_get "name" TestConfig).
Proof.
  split; [vm_compute; reflexivity|].
  apply (Load_field_unmatched empty_os port_loader TestConfig
           {[ "port" := VInt 3000 ]} _ "name").
  - reflexivity.
  - vm_compute. reflexivity.
  - exact port_overlay_plain.
  - vm_compute. reflexivity.
  - intros k [v' [<- _]%lookup_singleton_Some]. reflexivity.
Defined.

Lemma one_overlay_plain : plain_overlay {[ "port" := VBool true ]}.
Proof. intros k v [<- <-]%lookup_singleton_Some. reflexivity. Qed.

Lemma Load_mismatched_value_witness :
  overlay empty_os
    (WithEnvVars ["PORT=1"] (WithConfigDirectory "/etc/app" (New (TStruct TestConfig))))
  = Ok {[ "port" := VBool true ]}
  /\ Load empty_os
       (WithEnvVars ["PORT=1"]
          (WithConfigDirectory "/etc/app" (New (TStruct TestConfig))))
     = Err (Wrap "failed to unmarshal config" UnmarshalTypeError).
Proof.
  split; [vm_compute; reflexivity|].
  apply (Load_mismatched_value empty_os _ TestConfig {[ "port" := VBool true ]}
           "port" (VBool true) "port" TInt).
  - reflexivity.
  - vm_compute. reflexivity.
  - exact one_overlay_plain.
  - reflexivity.
  - reflexivity.
  - reflexivity.
Defined.

Lemma empty_overlay_plain : plain_overlay ∅.
Proof. intros k v Hkv. by rewrite lookup_empty in Hkv. Qed.

Lemma Load_scalar_type_witness :
  overlay empty_os (WithConfigDirectory "/etc/app" (New TInt)) = Ok ∅
  /\ Load empty_os (WithConfigDirectory "/etc/app" (New TInt))
     = Err (Wrap "failed to unmarshal config" UnmarshalTypeError).
Proof.
  split; [vm_compute; reflexivity|].
  apply (Load_scalar_type empty_os (WithConfigDirectory "/etc/app" (New TInt)) ∅).
  - exact I.
  - vm_compute. reflexivity.
  - exact empty_overlay_plain.
Defined.

Lemma Load_single_source_witness :
  Load empty_os port_loader
  = Ok (GStruct (alist_set "port" (GInt 3000) (zero_fields TestConfig)))
  /\ Load empty_os
       (WithArgs ["--PORT"; "3000"]
          (WithConfigDirectory "/etc/app" (New (TStruct TestConfig))))
     = Ok (GStruct (alist_set "port" (GInt 3000) (zero_fields TestConfig))).
Proof.
  pose proof (Load_single_source empty_os "/etc/app" "PORT" "3000" TestConfig "port" TInt
                eq_refl eq_refl eq_refl ltac:(vm_compute; reflexivity)) as [Henv Hflag].
  split.
  - exact (Henv eq_refl).
  - exact (Hflag eq_refl).
Defined.

Lemma Load_env_integer_witness :
  Load empty_os
    (WithEnvVars ["PORT=" +:+ int_text 3000]
       (WithConfigDirectory "/etc/app" (New (TStruct TestConfig))))
  = Ok (GStruct (alist_set "port" (GInt 3000) (zero_fields TestConfig)))
  /\ Load empty_os
       (WithEnvVars ["PORT=" +:+ int_text 1]
          (WithConfigDirectory "/etc/app" (New (TStruct TestConfig))))
     = Err (Wrap "failed to unmarshal config" UnmarshalTypeError).
Proof.
  split.
  - apply (Load_env_integer empty_os "/etc/app" "PORT" 3000 TestConfig "port");
      first [reflexivity | lia | vm_compute; reflexivity].
  - apply (Load_env_integer empty_os "/etc/app" "PORT" 1 TestConfig "port");
      first [reflexivity | lia | vm_compute; reflexivity].
Defined.

Lemma Load_env_integer_float_witness :
  Load empty_os
    (WithEnvVars ["TIMEOUT=" +:+ int_text 30]
       (WithConfigDirectory "/etc/app" (New (TStruct TestConfig))))
  = Ok (GStruct (alist_set "timeout" (GFloat (float_of_int 30)) (zero_fields TestConfig)))
  /\ Load empty_os
       (WithEnvVars ["TIMEOUT=" +:+ int_text 0]
          (WithConfigDirectory "/etc/app" (New (TStruct TestConfig))))
     = Err (Wrap "failed to unmarshal config" UnmarshalTypeError).
Proof.
  split.
  - apply (Load_env_integer_float empty_os "/etc/app" "TIMEOUT" 30 TestConfig "timeout");
      first [reflexivity | lia | vm_compute; reflexivity].
  - apply (Load_env_integer_float empty_os "/etc/app" "TIMEOUT" 0 TestConfig "timeout");
      first [reflexivity | lia | vm_compute; reflexivity].
Defined.

Lemma loadConfigFile_reads_marshalled_witness :
  Marshal {[ "name" := VString "app" ]} = Ok (object_text [("name", quoted "app")])
  /\ loadConfigFile (os_with (object_text [("name", quoted "app")])) "config.json"
       {[ "port" := VInt 1 ]}
     = Ok ({[ "name" := VString "app" ]} ∪ {[ "port" := VInt 1 ]}).
Proof.
  split; [vm_compute; reflexivity|].
  apply (loadConfigFile_reads_marshalled
           (os_with (object_text [("name", quoted "app")])) "config.json"
           (object_text [("name", quoted "app")]) {[ "name" := VString "app" ]}).
  - intros k v [<- <-]%lookup_singleton_Some. reflexivity.
  - vm_compute. reflexivity.
  - reflexivity.
Defined.

Lemma Load_base_file_prevails_witness :
  loadConfigFile two_spellings_os (Join ["/etc/app"; "config.json"]) ∅
  = Ok {[ "name" := VString "base" ]}
  /\ loadConfigFile two_spellings_os (Join ["/etc/app"; envConfigName "dev"]) ∅
     = Ok {[ "Name" := VString "dev" ]}
  /\ exists r x,
      Load two_spellings_os
        (WithEnvironment "dev" (WithConfigDirectory "/etc/app" (New (TStruct TestConfig))))
      = Ok (GStruct r)
      /\ decode TString (zero TString) (json_of (VString "base")) = Ok x
      /\ field_get "name" r = Some x.
Proof.
  assert (loadConfigFile two_spellings_os (Join ["/etc/app"; "config.json"]) ∅
          = Ok {[ "name" := VString "base" ]}) as HB.
  { vm_compute. reflexivity. }
  assert (loadConfigFile two_spellings_os (Join ["/etc/app"; envConfigName "dev"]) ∅
          = Ok {[ "Name" := VString "dev" ]}) as HE.
  { vm_compute. reflexivity. }
  split; [exact HB|]. split; [exact HE|].
  apply (Load_base_file_prevails two_spellings_os "/etc/app" "dev" TestConfig
           "name" "Name" (VString "base") (VString "dev") "name" TString HB HE);
    first [reflexivity | discriminate].
Defined.

Lemma setters_share_receiver_witness :
  Pointers.Load layered_os 1%positive
    (Pointers.WithEnvironment "prod" 1%positive
       (Pointers.WithEnvironment "dev" 1%positive
          {[ 1%positive := WithConfigDirectory "/etc/app" (New (TStruct TestConfig)) ]}).2).2
  = Some (Load layered_os
            (WithEnvironment "prod"
               (WithConfigDirectory "/etc/app" (New (TStruct TestConfig))))).
Proof.
  pose proof (setters_share_receiver layered_os
                {[ 1%positive := WithConfigDirectory "/etc/app" (New (TStruct TestConfig)) ]}
                1%positive (WithConfigDirectory "/etc/app" (New (TStruct TestConfig)))
                "dev" "prod" eq_refl) as Hw.
  exact (proj1 (proj2 (proj2 Hw))).
Defined.

(** * Where the code differs from the specification *)

(** C3, counterexample: the tag [databaseURL] has upper-case letters, the
    environment variable [DATABASEURL] gives the lower-cased key
    [databaseurl], and [Load] stores its value into that field. *)
Lemma lowercased_key_fills_mixed_case_tag :
  let a := WithEnvVars ["DATABASEURL=postgres"]
             (WithConfigDirectory "/etc/app"
                (New (TStruct [("databaseURL", TString)]))) in
  string_forallb (fun c => negb (is_upper c)) "databaseURL" = false
  /\ loadEnvVars a ∅ = Ok {[ "databaseurl" := VString "postgres" ]}
  /\ zero (T a) = GStruct [("databaseURL", GString EmptyString)]
  /\ Load empty_os a = Ok (GStruct [("databaseURL", GString "postgres")]).
Proof. repeat split; vm_compute; reflexivity. Qed.

(** C4, counterexample: the environment variable [X=NaN] is inferred as
    the float NaN, which [json.Marshal] refuses: the marshal step of
    [unmarshalToType] fails and so does [Load]. *)
Lemma NaN_token_is_not_encodable :
  let a := WithEnvVars ["X=NaN"]
             (WithConfigDirectory "/etc/app" (New (TStruct TestConfig))) in
  parseValue "NaN" = VFloat S754_nan
  /\ loadEnvVars a ∅ = Ok {[ "x" := VFloat S754_nan ]}
  /\ loadArgs a {[ "x" := VFloat S754_nan ]} = Ok {[ "x" := VFloat S754_nan ]}
  /\ Marshal {[ "x" := VFloat S754_nan ]} = Err UnsupportedValueError
  /\ unmarshalToType a {[ "x" := VFloat S754_nan ]} = Err UnsupportedValueError
  /\ Load empty_os a
     = Err (Wrap "failed to unmarshal config" UnsupportedValueError).
Proof. repeat split; vm_compute; reflexivity. Qed.

(** C5, counterexample: the bytes [null] are not a JSON object, and
    [loadConfigFile] returns without error, the overlay unchanged. *)
Lemma null_file_is_accepted :
  ReadFile (os_with "null") "/etc/app/config.json" = FileData "null"
  /\ ~ is_object_text "null"
  /\ loadConfigFile (os_with "null") "/etc/app/config.json" ∅ = Ok ∅.
Proof.
  split; [reflexivity|]. split; [|vm_compute; reflexivity].
  intros [members Hm]. vm_compute in Hm. discriminate Hm.
Qed.

(** C9, counterexample: the configured directory [/etc/hostname] is a
    regular file, so neither config file exists, and no environment
    variables or arguments are configured; the read of the base file
    fails, not with a missing file, and [Load] returns that error
    instead of the zero value.  And where no file exists at all, [Load]
    into an [int] fails in the decoding. *)
Lemma directory_that_is_a_file_fails_Load :
  let a := WithConfigDirectory "/etc/hostname" (New (TStruct TestConfig)) in
  withEnvVars a = None /\ withArgs a = None /\ withEnvironment a = None
  /\ getConfigDirectory file_as_directory_os a = Ok "/etc/hostname"
  /\ Join ["/etc/hostname"; "config.json"] = "/etc/hostname/config.json"
  /\ (forall name data,
        ReadFile file_as_directory_os ("/etc/hostname/" +:+ name) <> FileData data)
  /\ loadConfigFile file_as_directory_os "/etc/hostname/config.json" ∅
     = Err ErrRead
  /\ Load file_as_directory_os a = Err (Wrap "failed to load base config" ErrRead)
  /\ Load empty_os (WithConfigDirectory "/etc/app" (New TInt))
     = Err (Wrap "failed to unmarshal config" UnmarshalTypeError).
Proof.
  intros a. repeat split; try (vm_compute; reflexivity).
  intros name data. unfold file_as_directory_os. cbn [ReadFile].
  replace (String.eqb ("/etc/hostname/" +:+ name) "/etc/hostname") with false
    by (by destruct name).
  replace (HasPrefix ("/etc/hostname/" +:+ name) "/etc/hostname/") with true
    by (by destruct name).
  discriminate.
Qed.
